(** * jscharting-angularjs: the configuration, fingerprint, scheduling and
      lifecycle layer of the AngularJS binding, embedded in Rocq.

    The development follows the source files:
    - [Config]      plain configuration values, [angular.copy], [angular.merge],
                    [ConfigBuilder], [jscConfig.mergeWithDefaults]
                    (src/core/config-builder.service.js, src/core/config.provider.js);
    - [Directives]  [buildConfig] of jsc-gantt, jsc-org-chart, jsc-calendar and
                    jsc-map;
    - [Fingerprint] [jscPerformance.computeHash];
    - [Scheduler]   [$timeout] and [jscPerformance.debounce];
    - [Lifecycle]   the link function of jsc-chart (src/core/chart.directive.js)
                    together with [jscChartFactory] and [jscEventService];
    - [Performance] the other utilities of [jscPerformance]: [chunk],
                    [downsample], [throttle], [processInChunks];
    - [Builder], [Provider]  the other methods of [ConfigBuilder] and of the
                    [jscConfig] provider;
    - [Registry]    the registry of [jscChartFactory];
    - [Protocol]    the calls a chart of the engine accepts. *)

From Stdlib Require Import ZArith Lia Bool List String Ascii DecimalString.
From stdpp Require Import base option list strings gmap.

Open Scope string_scope.
Open Scope list_scope.
Set Warnings "-register-all".

(** A JavaScript computation that may throw is a function into [option]:
    [None] is a thrown exception (all the throws below are [TypeError]s).
    Sequencing is stdpp's [x ← e; k]. *)

(** * Configuration values *)

Module Config.

(** Property keys.  JavaScript distinguishes array-index keys from all other
    names; [Object.keys] of an array lists its indices.  A name that is a
    canonical array index is always written [KIdx]. *)
Inductive key : Type :=
  | KIdx (i : nat)
  | KName (s : string).

Definition key_eqb (a b : key) : bool :=
  match a, b with
  | KIdx i, KIdx j => Nat.eqb i j
  | KName s, KName t => String.eqb s t
  | _, _ => false
  end.

(** Plain configuration data: what a caller binds to [jsc-options],
    [jsc-series] and the like.  Objects and arrays are both property bags (an
    array is an object whose keys are indices), in the order [Object.keys]
    lists them.  Numbers are the integers; [Date], [RegExp] and DOM nodes are
    not part of the data a chart configuration holds and are not modelled. *)
Inductive value : Type :=
  | VUndefined
  | VNull
  | VBool (b : bool)
  | VNum (n : Z)
  | VStr (s : string)
  | VFun (name : string)
  | VObj (array : bool) (props : list (key * value)).

Definition props_t := list (key * value).

(** [obj[k]] *)
Fixpoint get (k : key) (ps : props_t) : option value :=
  match ps with
  | [] => None
  | (k', v) :: rest => if key_eqb k k' then Some v else get k rest
  end.

(** [obj[k] = v]: an existing property keeps its place, a new one is added
    last. *)
Fixpoint set (k : key) (v : value) (ps : props_t) : props_t :=
  match ps with
  | [] => [(k, v)]
  | (k', v') :: rest =>
      if key_eqb k k' then (k', v) :: rest else (k', v') :: set k v rest
  end.

(** [delete obj[k]] *)
Fixpoint remove (k : key) (ps : props_t) : props_t :=
  match ps with
  | [] => []
  | (k', v') :: rest =>
      if key_eqb k k' then remove k rest else (k', v') :: remove k rest
  end.

(** An array literal [[v0, v1, ...]]. *)
Fixpoint index_from (i : nat) (l : list value) : props_t :=
  match l with
  | [] => []
  | v :: rest => (KIdx i, v) :: index_from (S i) rest
  end.

Definition array (l : list value) : value := VObj true (index_from 0 l).

(** An object literal. *)
Definition object (ps : list (string * value)) : value :=
  VObj false (map (fun p => (KName (fst p), snd p)) ps).

(** JavaScript truthiness: [if (v)], [v || d]. *)
Definition truthy (v : value) : bool :=
  match v with
  | VUndefined | VNull => false
  | VBool b => b
  | VNum n => negb (Z.eqb n 0)
  | VStr s => negb (String.eqb s "")
  | VFun _ | VObj _ _ => true
  end.

(** [angular.isObject]: [value !== null && typeof value === 'object']. *)
Definition isObject (v : value) : bool :=
  match v with VObj _ _ => true | _ => false end.

Definition isUndefined (v : value) : bool :=
  match v with VUndefined => true | _ => false end.

(** Reading a property of any value: a missing property, and any property of
    a primitive, is [undefined].  (Reading a property of [undefined] or [null]
    throws; the sources below only read properties of values they have
    already tested.) *)
Definition prop (k : key) (v : value) : value :=
  match v with
  | VObj _ ps => match get k ps with Some x => x | None => VUndefined end
  | _ => VUndefined
  end.

(** Writing a property.  All the sources are strict-mode code, where writing
    a property of a primitive throws a [TypeError]. *)
Definition put (k : key) (x : value) (v : value) : option value :=
  match v with
  | VObj a ps => Some (VObj a (set k x ps))
  | _ => None
  end.

Definition hashKey : key := KName "$$hashKey".
Definition protoKey : key := KName "__proto__".

(** [setHashKey(obj, h)] of AngularJS. *)
Definition setHashKey (ps : props_t) (h : option value) : props_t :=
  match h with
  | Some hv => if truthy hv then set hashKey hv ps else remove hashKey ps
  | None => remove hashKey ps
  end.

(** [angular.copy(source)]: a deep copy.  On plain data the copy has the same
    properties as the source, except that AngularJS drops [$$hashKey] from
    every copied object ([copyRecurse] ends in [setHashKey(destination,
    undefined)]). *)
Fixpoint copy (v : value) : value :=
  match v with
  | VObj a ps =>
      let fix copy_props (ps : props_t) : props_t :=
        match ps with
        | [] => []
        | (k, x) :: rest => (k, copy x) :: copy_props rest
        end in
      VObj a (remove hashKey (copy_props ps))
  | _ => v
  end.

(** [angular.merge(dst, src)] is [baseExtend(dst, [src], true)]:
<<
  function baseExtend(dst, objs, deep) {
    var h = dst.$$hashKey;
    for (var i = 0, ii = objs.length; i < ii; ++i) {
      var obj = objs[i];
      if (!isObject(obj) && !isFunction(obj)) continue;
      var keys = Object.keys(obj);
      for (var j = 0, jj = keys.length; j < jj; j++) {
        var key = keys[j];
        var src = obj[key];
        if (deep && isObject(src)) {
          ... (Date, RegExp, DOM node) ...
          else if (key !== '__proto__') {
            if (!isObject(dst[key])) dst[key] = isArray(src) ? [] : {};
            baseExtend(dst[key], [src], true);
          }
        } else {
          dst[key] = src;
        }
      }
    }
    setHashKey(dst, h);
    return dst;
  }
>>
    [angular.merge] belongs to AngularJS 1.8 (the framework the README
    requires), not to this repository; the definition below follows the
    framework's source above.  [dst] is given by its property list, the
    result is the property list after the in-place update.  A function has no
    enumerable property of its own.  Assigning a primitive to [__proto__]
    creates no property. *)
Fixpoint baseExtend (dst : props_t) (src : value) {struct src} : props_t :=
  match src with
  | VObj _ sps =>
      let fix each (dst : props_t) (sps : props_t) {struct sps} : props_t :=
        match sps with
        | [] => dst
        | (k, s) :: rest =>
            let dst' :=
              match s with
              | VObj a _ =>
                  if key_eqb k protoKey then dst
                  else
                    match get k dst with
                    | Some (VObj da dps) => set k (VObj da (baseExtend dps s)) dst
                    | _ => set k (VObj a (baseExtend [] s)) dst
                    end
              | _ => if key_eqb k protoKey then dst else set k s dst
              end in
            each dst' rest
        end in
      setHashKey (each dst sps) (get hashKey dst)
  | _ => setHashKey dst (get hashKey dst)
  end.

(** [angular.merge(dst, src)], returning [dst].  Reading [dst.$$hashKey] of
    [undefined] or [null] throws, and so does storing a property into a
    primitive [dst]. *)
Definition stores (src : value) : bool :=
  match src with
  | VObj _ sps => existsb (fun p => negb (key_eqb (fst p) protoKey)) sps
  | _ => false
  end.

Definition merge (dst src : value) : option value :=
  match dst with
  | VObj a dps => Some (VObj a (baseExtend dps src))
  | VUndefined | VNull => None
  | _ => if stores src then None else Some dst
  end.

(** *** jscConfigBuilder (src/core/config-builder.service.js) *)

Record ConfigBuilder := { config : value }.

(** [jscConfigBuilder.create()] *)
Definition create : ConfigBuilder := {| config := VObj false [] |}.



(** [ConfigBuilder.prototype.build]: [angular.copy(this.config)] *)
Definition build (b : ConfigBuilder) : value := copy (config b).

(** *** jscConfig (src/core/config.provider.js) *)

(** The provider's [defaults] object as the source initialises it. *)
Definition initial_defaults : props_t :=
  [ (KName "debug", VBool false);
    (KName "animation", VObj false [(KName "duration", VNum 400)]) ].


(** [jscConfig.mergeWithDefaults(config)] for the current [defaults]. *)
Definition mergeWithDefaults (defaults : props_t) (cfg : value) : option value :=
  let result := copy (VObj false defaults) in
  if truthy cfg then merge result cfg else Some result.

Definition keys (ps : props_t) : list key := map fst ps.

(** *** The loop of [baseExtend], one source property at a time *)

(** The body of the [for] loop over [keys]: what one property [key, src] of
    the source does to [dst]. *)
Definition extend_prop (dst : props_t) (p : key * value) : props_t :=
  let (k, s) := p in
  match s with
  | VObj a _ =>
      if key_eqb k protoKey then dst
      else
        match get k dst with
        | Some (VObj da dps) => set k (VObj da (baseExtend dps s)) dst
        | _ => set k (VObj a (baseExtend [] s)) dst
        end
  | _ => if key_eqb k protoKey then dst else set k s dst
  end.

(** What [baseExtend] stores under a key of the source. *)
Definition merged_prop (old : option value) (s : value) : value :=
  match s with
  | VObj a _ =>
      match old with
      | Some (VObj da dps) => VObj da (baseExtend dps s)
      | _ => VObj a (baseExtend [] s)
      end
  | _ => s
  end.

Definition primitive (v : value) : Prop := isObject v = false.

(** *** Helpers for the directives' [buildConfig] functions *)

Coercion KName : string >-> key.

(** [v || {}] *)
Definition or_empty (v : value) : value :=
  if truthy v then v else VObj false [].

(** [c.k = c.k || {}] *)
Definition ensure (k : key) (c : value) : option value :=
  put k (or_empty (prop k c)) c.

(** An in-place change [f] of the object held by [c.k]. *)
Definition within (k : key) (f : value -> option value) (c : value) : option value :=
  x ← f (prop k c); put k x c.

(** [if (b) { ... }] around a step of [buildConfig]. *)
Definition when (b : bool) (f : value -> option value) (c : value) : option value :=
  if b then f c else Some c.

(** [x !== undefined] *)
Definition defined (v : value) : bool := negb (isUndefined v).

(** The lines every directive uses for [jsc-title]:
<<
  config.title = config.title || {};
  config.title.label = config.title.label || {};
  config.title.label.text = scope.title;
>> *)
Definition set_title (title : value) (c : value) : option value :=
  c1 ← ensure "title" c;
  c2 ← within "title" (ensure "label") c1;
  within "title" (within "label" (put "text" title)) c2.

(** The handlers wired by [wireEvents] are closures over the scope callback;
    [handler name] is the function stored for the scope callback [name]. *)
Definition handler (name : string) : value := VFun name.

(** The point handlers [click], [mouseOver], [mouseOut] every specialised
    directive wires under [config.defaultPoint.events]. *)
Definition wirePointEvents (onPointClick onPointMouseOver onPointMouseOut : bool)
    (c : value) : option value :=
  when (onPointClick || onPointMouseOver || onPointMouseOut)
    (fun c =>
       c1 ← ensure "defaultPoint" c;
       c2 ← within "defaultPoint" (ensure "events") c1;
       c3 ← when onPointClick
              (within "defaultPoint" (within "events"
                 (put "click" (handler "onPointClick")))) c2;
       c4 ← when onPointMouseOver
              (within "defaultPoint" (within "events"
                 (put "mouseOver" (handler "onPointMouseOver")))) c3;
       when onPointMouseOut
         (within "defaultPoint" (within "events"
            (put "mouseOut" (handler "onPointMouseOut")))) c4) c.

(** [c] is an object whose [type] is the text [t]. *)
Definition typed (t : string) (c : value) : Prop :=
  isObject c = true /\ prop "type" c = VStr t.

(** A step of [buildConfig] that leaves the [type] of the configuration as
    it is. *)
Definition keeps_type (f : value -> option value) : Prop :=
  forall t c c', typed t c -> f c = Some c' -> typed t c'.


End Config.

(** * The specialised chart directives *)

(** ** jsc-gantt (unnamed/part_000, first file) *)

Module Gantt.
Import Config.

Record scope := {
  series : value; options : value;
  showDependencies : value; criticalPath : value;
  palette : value; title : value; debug : value; dateFormat : value;
  xAxisConfig : value; yAxisConfig : value;
  onLoad : bool; onPointClick : bool; onPointMouseOver : bool;
  onPointMouseOut : bool; onZoomed : bool
}.

Definition wireEvents (sc : scope) (c : value) : option value :=
  c1 ← ensure "events" c;
  c2 ← when (onZoomed sc) (within "events" (put "zoomed" (handler "onZoomed"))) c1;
  wirePointEvents (onPointClick sc) (onPointMouseOver sc) (onPointMouseOut sc) c2.

Definition buildConfig (sc : scope) : option value :=
  let config := or_empty (copy (options sc)) in
  (* Set type to gantt *)
  c ← put "type" (VStr "gantt") config;
  c ← when (truthy (series sc)) (put "series" (copy (series sc))) c;
  c ← when (truthy (palette sc)) (put "palette" (palette sc)) c;
  c ← when (truthy (title sc)) (set_title (title sc)) c;
  c ← when (defined (debug sc)) (put "debug" (debug sc)) c;
  (* Configure X axis (time axis) *)
  c ← ensure "xAxis" c;
  c ← when (truthy (xAxisConfig sc))
        (within "xAxis" (fun x => merge x (xAxisConfig sc))) c;
  (* Configure Y axis (tasks) *)
  c ← ensure "yAxis" c;
  c ← when (truthy (yAxisConfig sc))
        (within "yAxis" (fun y => merge y (yAxisConfig sc))) c;
  (* Configure dependencies *)
  c ← when (defined (showDependencies sc))
        (fun c =>
           c1 ← ensure "defaultPoint" c;
           c2 ← within "defaultPoint" (ensure "connectorLine") c1;
           within "defaultPoint"
             (within "connectorLine" (put "visible" (showDependencies sc))) c2) c;
  (* Configure critical path highlighting *)
  c ← when (defined (criticalPath sc))
        (fun c =>
           c1 ← ensure "defaultSeries" c;
           within "defaultSeries" (put "criticalPath" (criticalPath sc)) c1) c;
  wireEvents sc c.

End Gantt.

(** ** jsc-org-chart (unnamed/part_000, second file) *)

Module OrgChart.
Import Config.

Record scope := {
  series : value; options : value; orientation : value;
  pointWidth : value; pointPadding : value; connectorLine : value;
  palette : value; title : value; debug : value;
  onLoad : bool; onPointClick : bool; onPointMouseOver : bool;
  onPointMouseOut : bool
}.

(** [scope.orientation === 'horizontal'] *)
Definition horizontal (v : value) : bool :=
  match v with VStr s => String.eqb s "horizontal" | _ => false end.

Definition chart_type (sc : scope) : string :=
  "organizational" +:+ (if horizontal (orientation sc) then " horizontal" else "").

Definition wireEvents (sc : scope) (c : value) : option value :=
  wirePointEvents (onPointClick sc) (onPointMouseOver sc) (onPointMouseOut sc) c.

Definition buildConfig (sc : scope) : option value :=
  let config := or_empty (copy (options sc)) in
  (* Set type to organizational *)
  c ← put "type" (VStr (chart_type sc)) config;
  c ← when (truthy (series sc)) (put "series" (copy (series sc))) c;
  c ← when (truthy (palette sc)) (put "palette" (palette sc)) c;
  c ← when (truthy (title sc)) (set_title (title sc)) c;
  c ← when (defined (debug sc)) (put "debug" (debug sc)) c;
  (* Configure default series for org chart *)
  c ← ensure "defaultSeries" c;
  c ← when (defined (pointWidth sc))
        (within "defaultSeries" (put "pointWidth" (pointWidth sc))) c;
  c ← when (defined (pointPadding sc))
        (fun c =>
           c1 ← ensure "defaultPoint" c;
           within "defaultPoint" (put "padding" (pointPadding sc)) c1) c;
  (* Configure connector lines *)
  c ← when (truthy (connectorLine sc))
        (within "defaultSeries" (put "line" (connectorLine sc))) c;
  wireEvents sc c.

End OrgChart.

(** ** jsc-calendar (unnamed/part_001) *)

Module Calendar.
Import Config.

Record scope := {
  data : value; series : value; options : value;
  year : value; month : value; orientation : value;
  palette : value; title : value; debug : value; calendarConfig : value;
  onLoad : bool; onPointClick : bool; onPointMouseOver : bool;
  onPointMouseOut : bool
}.

Definition chart_type (sc : scope) : string :=
  "calendar" +:+
  (if OrgChart.horizontal (orientation sc) then " horizontal" else "").

Definition wireEvents (sc : scope) (c : value) : option value :=
  wirePointEvents (onPointClick sc) (onPointMouseOver sc) (onPointMouseOut sc) c.

Definition buildConfig (sc : scope) : option value :=
  let config := or_empty (copy (options sc)) in
  (* Set type to calendar *)
  c ← put "type" (VStr (chart_type sc)) config;
  c ← when (truthy (data sc)) (put "data" (data sc)) c;
  c ← when (truthy (series sc)) (put "series" (copy (series sc))) c;
  (* Configure calendar *)
  c ← ensure "calendar" c;
  c ← when (defined (year sc)) (within "calendar" (put "year" (year sc))) c;
  c ← when (defined (month sc)) (within "calendar" (put "month" (month sc))) c;
  c ← when (truthy (calendarConfig sc))
        (within "calendar" (fun x => merge x (calendarConfig sc))) c;
  c ← when (truthy (palette sc)) (put "palette" (palette sc)) c;
  c ← when (truthy (title sc)) (set_title (title sc)) c;
  c ← when (defined (debug sc)) (put "debug" (debug sc)) c;
  wireEvents sc c.

End Calendar.

(** ** jsc-map (src/maps/map.directive.js) *)

Module MapChart.
Import Config.

Record scope := {
  map : value; series : value; options : value; palette : value;
  mapping : value; title : value; legend : value; legendPosition : value;
  tooltip : value; debug : value; projection : value; zoomEnabled : value;
  onLoad : bool; onPointClick : bool; onPointMouseOver : bool;
  onPointMouseOut : bool; onZoomed : bool; onSelecting : bool;
  onSelection : bool
}.

Definition wireEvents (sc : scope) (c : value) : option value :=
  c1 ← ensure "events" c;
  c2 ← when (onZoomed sc) (within "events" (put "zoomed" (handler "onZoomed"))) c1;
  c3 ← when (onSelecting sc)
         (within "events" (put "selecting" (handler "onSelecting"))) c2;
  c4 ← when (onSelection sc)
         (within "events" (put "selection" (handler "onSelection"))) c3;
  wirePointEvents (onPointClick sc) (onPointMouseOver sc) (onPointMouseOut sc) c4.

Definition buildConfig (sc : scope) : option value :=
  let config := or_empty (copy (options sc)) in
  (* Set type to map *)
  c ← put "type" (VStr "map") config;
  (* Configure mapping *)
  c ← ensure "mapping" c;
  c ← when (truthy (map sc))
        (fun c =>
           c1 ← within "mapping" (ensure "base") c;
           within "mapping" (within "base" (put "layers" (map sc))) c1) c;
  c ← when (truthy (mapping sc))
        (within "mapping" (fun m => merge m (mapping sc))) c;
  c ← when (defined (projection sc))
        (within "mapping" (put "projection" (projection sc))) c;
  c ← when (truthy (series sc)) (put "series" (copy (series sc))) c;
  c ← when (truthy (palette sc)) (put "palette" (palette sc)) c;
  c ← when (truthy (title sc)) (set_title (title sc)) c;
  (* Apply legend *)
  c ← (if truthy (legend sc) then put "legend" (legend sc) c
       else when (truthy (legendPosition sc))
              (fun c =>
                 c1 ← ensure "legend" c;
                 within "legend" (put "position" (legendPosition sc)) c1) c);
  c ← when (truthy (tooltip sc)) (put "defaultTooltip" (tooltip sc)) c;
  c ← when (defined (debug sc)) (put "debug" (debug sc)) c;
  (* Apply zoom *)
  c ← when (defined (zoomEnabled sc))
        (put "axisToZoom"
           (VStr (if truthy (zoomEnabled sc) then "xy" else "none"))) c;
  wireEvents sc c.

End MapChart.

(** * Sample scopes of the specialised directives *)

Module DirectiveSamples.
Import Config.

(** Scopes whose caller asks for another chart type in [jsc-options]. *)
Definition pie_options : value :=
  object [("type", VStr "pie"); ("xAxis", object [("scale", VStr "time")])].

Definition gantt_scope : Gantt.scope :=
  {| Gantt.series := array [object [("name", VStr "Tasks")]];
     Gantt.options := pie_options;
     Gantt.showDependencies := VBool true; Gantt.criticalPath := VUndefined;
     Gantt.palette := VUndefined; Gantt.title := VStr "Plan";
     Gantt.debug := VUndefined; Gantt.dateFormat := VUndefined;
     Gantt.xAxisConfig := object [("type", VStr "pie")];
     Gantt.yAxisConfig := VUndefined;
     Gantt.onLoad := false; Gantt.onPointClick := true;
     Gantt.onPointMouseOver := false; Gantt.onPointMouseOut := false;
     Gantt.onZoomed := true |}.

Definition org_scope : OrgChart.scope :=
  {| OrgChart.series := VUndefined; OrgChart.options := pie_options;
     OrgChart.orientation := VStr "horizontal";
     OrgChart.pointWidth := VNum 120; OrgChart.pointPadding := VUndefined;
     OrgChart.connectorLine := VUndefined; OrgChart.palette := VUndefined;
     OrgChart.title := VUndefined; OrgChart.debug := VUndefined;
     OrgChart.onLoad := false; OrgChart.onPointClick := false;
     OrgChart.onPointMouseOver := false; OrgChart.onPointMouseOut := false |}.

Definition calendar_scope : Calendar.scope :=
  {| Calendar.data := VUndefined; Calendar.series := VUndefined;
     Calendar.options := pie_options; Calendar.year := VNum 2024;
     Calendar.month := VUndefined; Calendar.orientation := VStr "vertical";
     Calendar.palette := VUndefined; Calendar.title := VUndefined;
     Calendar.debug := VUndefined;
     Calendar.calendarConfig := object [("type", VStr "pie")];
     Calendar.onLoad := false; Calendar.onPointClick := false;
     Calendar.onPointMouseOver := false; Calendar.onPointMouseOut := false |}.

Definition map_scope : MapChart.scope :=
  {| MapChart.map := VStr "US"; MapChart.series := VUndefined;
     MapChart.options := pie_options; MapChart.palette := VUndefined;
     MapChart.mapping := object [("type", VStr "pie")];
     MapChart.title := VUndefined; MapChart.legend := VUndefined;
     MapChart.legendPosition := VStr "bottom"; MapChart.tooltip := VUndefined;
     MapChart.debug := VUndefined; MapChart.projection := VUndefined;
     MapChart.zoomEnabled := VBool false;
     MapChart.onLoad := false; MapChart.onPointClick := false;
     MapChart.onPointMouseOver := false; MapChart.onPointMouseOut := false;
     MapChart.onZoomed := false; MapChart.onSelecting := false;
     MapChart.onSelection := true |}.

End DirectiveSamples.

(** * Change fingerprinting (jscPerformance.computeHash, unnamed/part_005) *)

Module Fingerprint.

(** The values a scope binding can hold when it reaches [computeHash] or a
    watcher.  Unlike configuration data they may be cyclic, and objects have
    an identity that [===] compares:
    - [addr] is the identity of an object, array or function;
    - [JCycle up] is a reference back to an object or array that encloses
      it ([up] levels up), the only way a finite term holds a cycle.
    A top-level value is never a [JCycle].  Numbers are the integers.
    Objects are plain data: they have no [toJSON] or [toString] of their
    own. *)
Inductive jsval : Type :=
  | JUndefined
  | JNull
  | JBool (b : bool)
  | JNum (n : Z)
  | JStr (s : string)
  | JFun (addr : nat) (body : string)
  | JObject (addr : nat) (fields : list (string * jsval))
  | JArray (addr : nat) (elems : list jsval)
  | JCycle (up : nat).

(** [a === b] *)
Definition strict_eq (a b : jsval) : bool :=
  match a, b with
  | JUndefined, JUndefined => true
  | JNull, JNull => true
  | JBool x, JBool y => Bool.eqb x y
  | JNum x, JNum y => Z.eqb x y
  | JStr x, JStr y => String.eqb x y
  | JFun x _, JFun y _ => Nat.eqb x y
  | JObject x _, JObject y _ => Nat.eqb x y
  | JArray x _, JArray y _ => Nat.eqb x y
  | _, _ => false
  end.

(** [typeof v === 'object'] (which holds for [null] as well) *)
Definition typeof_object (v : jsval) : bool :=
  match v with
  | JNull | JObject _ _ | JArray _ _ | JCycle _ => true
  | _ => false
  end.

(** Decimal text of an integer, as [String(n)] and [JSON.stringify(n)] give
    it. *)
Definition number_text (n : Z) : string := NilZero.string_of_int (Z.to_int n).

Definition dquote : ascii := ascii_of_nat 34.
Definition backslash : ascii := ascii_of_nat 92.

Definition hex_digit (n : nat) : ascii :=
  match get n "0123456789abcdef" with Some c => c | None => "0"%char end.

(** One character of a JSON string literal (QuoteJSONString). *)
Definition escape (c : ascii) : string :=
  let n := nat_of_ascii c in
  if Nat.eqb n 8 then String backslash "b"
  else if Nat.eqb n 9 then String backslash "t"
  else if Nat.eqb n 10 then String backslash "n"
  else if Nat.eqb n 12 then String backslash "f"
  else if Nat.eqb n 13 then String backslash "r"
  else if Nat.eqb n 34 then String backslash (String dquote "")
  else if Nat.eqb n 92 then String backslash (String backslash "")
  else if Nat.ltb n 32 then
    String backslash
      (String "u" (String "0" (String "0"
         (String (hex_digit (n / 16)) (String (hex_digit (n mod 16)) "")))))
  else String c "".

Fixpoint escape_all (s : string) : string :=
  match s with
  | EmptyString => EmptyString
  | String c rest => escape c +:+ escape_all rest
  end.

Definition quote (s : string) : string :=
  String dquote (escape_all s +:+ String dquote "").

(** [Array.prototype.join] with separator [","]. *)
Fixpoint join (parts : list string) : string :=
  match parts with
  | [] => ""
  | [p] => p
  | p :: rest => p +:+ "," +:+ join rest
  end.

(** The three outcomes of serialising a value: a text, [undefined], or a
    [TypeError] (a cyclic structure). *)
Inductive serial : Type :=
  | Text (s : string)
  | Omitted
  | Cyclic.

(** All the parts, unless one of them is [Cyclic]. *)
Fixpoint collect (parts : list (option string)) : option (list string) :=
  match parts with
  | [] => Some []
  | None :: _ => None
  | Some p :: rest => ps ← collect rest; Some (p :: ps)
  end.

(** [JSON.stringify(v)] without replacer or indentation
    (SerializeJSONProperty).  [undefined] and functions are omitted from an
    object and written [null] in an array; meeting an object that encloses
    the current one throws. *)
Fixpoint stringify (v : jsval) : serial :=
  match v with
  | JUndefined => Omitted
  | JNull => Text "null"
  | JBool true => Text "true"
  | JBool false => Text "false"
  | JNum n => Text (number_text n)
  | JStr s => Text (quote s)
  | JFun _ _ => Omitted
  | JCycle _ => Cyclic
  | JObject _ fields =>
      let fix members (fs : list (string * jsval)) : list (option string) :=
        match fs with
        | [] => []
        | (k, x) :: rest =>
            match stringify x with
            | Text t => Some (quote k +:+ ":" +:+ t) :: members rest
            | Omitted => members rest
            | Cyclic => None :: members rest
            end
        end in
      match collect (members fields) with
      | Some ps => Text ("{" +:+ join ps +:+ "}")
      | None => Cyclic
      end
  | JArray _ elems =>
      let fix items (es : list jsval) : list (option string) :=
        match es with
        | [] => []
        | x :: rest =>
            match stringify x with
            | Text t => Some t :: items rest
            | Omitted => Some "null" :: items rest
            | Cyclic => None :: items rest
            end
        end in
      match collect (items elems) with
      | Some ps => Text ("[" +:+ join ps +:+ "]")
      | None => Cyclic
      end
  end.

(** [String(v)].  A plain object is ["[object Object]"]; an array is the
    join of its elements, where [null], [undefined] and an array that is
    already being joined (a cycle) give the empty text. *)
Fixpoint to_string (v : jsval) : string :=
  match v with
  | JUndefined => "undefined"
  | JNull => "null"
  | JBool true => "true"
  | JBool false => "false"
  | JNum n => number_text n
  | JStr s => s
  | JFun _ body => "function () {" +:+ body +:+ "}"
  | JObject _ _ => "[object Object]"
  | JCycle _ => ""
  | JArray _ elems =>
      let fix texts (es : list jsval) : list string :=
        match es with
        | [] => []
        | x :: rest =>
            match x with
            | JUndefined | JNull => ""
            | _ => to_string x
            end :: texts rest
        end in
      join (texts elems)
  end.


(** [jscPerformance.computeHash]:
<<
  function computeHash(obj) {
    if (obj === null || obj === undefined) { return 'null'; }
    if (typeof obj !== 'object') { return String(obj); }
    try { return JSON.stringify(obj); } catch (e) { return String(obj); }
  }
>>
    The result is a JavaScript value: [JSON.stringify] returns [undefined]
    when the value is omitted. *)
Definition computeHash (obj : jsval) : jsval :=
  match obj with
  | JNull | JUndefined => JStr "null"
  | _ =>
      if negb (typeof_object obj) then JStr (to_string obj)
      else
        match stringify obj with
        | Text s => JStr s
        | Omitted => JUndefined
        | Cyclic => JStr (to_string obj)
        end
  end.



Definition element_text (x : jsval) : string :=
  match x with
  | JUndefined | JNull => ""
  | _ => to_string x
  end.

End Fingerprint.

(** * Deferred invocation: [$timeout] and jscPerformance.debounce *)

Module Scheduler.

(** ** The [$timeout] service *)

Section Timeout.

(** [T] is the type of the functions handed to [$timeout]. *)
Context {T : Type}.

(** A pending timeout: the promise [$timeout] returned ([tid] identifies
    it), the time at which it is due and the function to run. *)
Record timer := { tid : nat; due : nat; run_fn : T }.

Record service := { now : nat; queue : list timer; next : nat }.

Definition idle : service := {| now := 0; queue := []; next := 0 |}.

(** [$timeout(fn, delay)]: returns the promise and the service with the
    timeout pending. *)
Definition timeout (fn : T) (delay : nat) (sv : service) : nat * service :=
  (next sv,
   {| now := now sv;
      queue := queue sv ++ [{| tid := next sv; due := now sv + delay; run_fn := fn |}];
      next := S (next sv) |}).

(** [$timeout.cancel(promise)]: a pending timeout is dropped; a promise that
    has run or was cancelled is left alone. *)
Definition cancel (promise : nat) (sv : service) : service :=
  {| now := now sv;
     queue := List.filter (fun t => negb (Nat.eqb (tid t) promise)) (queue sv);
     next := next sv |}.

(** [if (p) { $timeout.cancel(p); }] for a variable [p] that holds a promise
    or a falsy value. *)
Definition cancel_if (p : option nat) (sv : service) : service :=
  match p with Some promise => cancel promise sv | None => sv end.

Definition pending (promise : nat) (sv : service) : option timer :=
  find (fun t => Nat.eqb (tid t) promise) (queue sv).

(** The pending timeout that is due first (the oldest one among equals). *)
Fixpoint earliest (q : list timer) : option timer :=
  match q with
  | [] => None
  | t :: rest =>
      match earliest rest with
      | Some t' => if Nat.leb (due t) (due t') then Some t else Some t'
      | None => Some t
      end
  end.

(** The clock moves forward. *)
Definition elapse (t : nat) (sv : service) : service :=
  {| now := Nat.max (now sv) t; queue := queue sv; next := next sv |}.

End Timeout.

Arguments timer : clear implicits.
Arguments service : clear implicits.

(** ** jscPerformance.debounce
<<
  function debounce(func, wait, immediate) {
    var timeout;
    return function() {
      var context = this; var args = arguments;
      var later = function() {
        timeout = null;
        if (!immediate) { func.apply(context, args); }
      };
      var callNow = immediate && !timeout;
      if (timeout) { $timeout.cancel(timeout); }
      timeout = $timeout(later, wait);
      if (callNow) { func.apply(context, args); }
    };
  }
>> *)

Section Debounce.

(** The arguments of a call of the debounced function. *)
Context {A : Type}.

(** The function [later] of one call: it closes over that call's [args]. *)
Inductive deferred := Later (args : A).

(** A debounced function and its surroundings: the closure variable
    [timeout], the [$timeout] service, and the calls of [func] made so far
    with their arguments. *)
Record debounced := {
  timeout_var : option nat;
  timers : service deferred;
  invoked : list A
}.

Variable wait : nat.
Variable immediate : bool.

Definition fresh : debounced :=
  {| timeout_var := None; timers := idle; invoked := [] |}.

(** A call of the debounced function with arguments [args]. *)
Definition call (args : A) (d : debounced) : debounced :=
  let callNow := immediate && negb (bool_decide (is_Some (timeout_var d))) in
  let sv := cancel_if (timeout_var d) (timers d) in
  let (promise, sv') := timeout (Later args) wait sv in
  {| timeout_var := Some promise;
     timers := sv';
     invoked := if callNow then invoked d ++ [args] else invoked d |}.

(** [later()] *)
Definition later (args : A) (d : debounced) : debounced :=
  {| timeout_var := None;
     timers := timers d;
     invoked := if immediate then invoked d else invoked d ++ [args] |}.

(** The browser runs a timeout that is due: it leaves the queue and its
    function is called. *)
Definition fire (t : timer deferred) (d : debounced) : debounced :=
  let sv := cancel (tid t) (elapse (due t) (timers d)) in
  match run_fn t with
  | Later args =>
      later args {| timeout_var := timeout_var d; timers := sv; invoked := invoked d |}
  end.

(** Time passes until [t]: every timeout due by then runs, the earliest
    first. *)
Fixpoint run_due (fuel : nat) (t : nat) (d : debounced) : debounced :=
  match fuel with
  | 0 => d
  | S n =>
      match earliest (queue (timers d)) with
      | Some tm => if Nat.leb (due tm) t then run_due n t (fire tm d) else d
      | None => d
      end
  end.

Definition advance (t : nat) (d : debounced) : debounced :=
  let d' := run_due (length (queue (timers d))) t d in
  {| timeout_var := timeout_var d';
     timers := elapse t (timers d');
     invoked := invoked d' |}.

(** A call at time [t]. *)
Definition call_at (d : debounced) (c : nat * A) : debounced :=
  call (snd c) (advance (fst c) d).

(** A sequence of timed calls, then the time [finish]. *)
Definition run (calls : list (nat * A)) (finish : nat) : debounced :=
  advance finish (fold_left call_at calls fresh).

(** A burst: each call comes less than [wait] after the one before. *)
Fixpoint burst (calls : list (nat * A)) : Prop :=
  match calls with
  | [] => True
  | c :: rest =>
      match rest with
      | [] => True
      | c' :: _ => fst c <= fst c' /\ fst c' < fst c + wait
      end /\ burst rest
  end.

(** The state between the calls of a burst: [func] was called with the
    arguments in [done], one timeout is pending, due [wait] after the last
    call at time [t], and it holds that call's arguments [a]. *)
Definition armed (done : list A) (t : nat) (a : A) (d : debounced) : Prop :=
  invoked d = done /\
  exists id, timeout_var d = Some id /\
             queue (timers d) = [{| tid := id; due := t + wait; run_fn := Later a |}] /\
             now (timers d) = t.

End Debounce.

Arguments deferred : clear implicits.
Arguments debounced : clear implicits.

End Scheduler.

(** * The lifecycle controller: the link function of jsc-chart
      (src/core/chart.directive.js), with jscChartFactory (unnamed/part_004)
      and jscEventService.wrapCallback (unnamed/part_002) *)

Module Lifecycle.
Import Fingerprint Scheduler.

(** An instance handle: the object [JSC.chart] returns. *)
Definition handle := nat.

(** The scope callbacks that [wireEvents] wires to the engine. *)
Inductive callback : Type :=
  | onRedraw | onClick | onSelection | onSelecting | onZoomed | onScrolled
  | onMouseOver | onMouseOut | onPointSelectionChanged
  | onSeriesSelectionChanged | onBeforeExport | onAfterExport
  | onPointClick | onPointMouseOver | onPointMouseOut | onPointSelect
  | onPointUnselect
  | onSeriesClick | onSeriesMouseOver | onSeriesMouseOut | onSeriesShow
  | onSeriesHide
  | onLegendClick | onLegendMouseOver | onLegendMouseOut
  | onAxisTickClick | onAxisTickMouseOver | onAxisTickMouseOut.

(** The handlers of point and series events capture [this] ([var point =
    this], [var series = this]) and pass it on. *)
Definition passes_this (cb : callback) : bool :=
  match cb with
  | onPointClick | onPointMouseOver | onPointMouseOut | onPointSelect
  | onPointUnselect
  | onSeriesClick | onSeriesMouseOver | onSeriesMouseOut | onSeriesShow
  | onSeriesHide => true
  | _ => false
  end.

(** The isolate scope of the directive: the bindings the controller reads,
    and which of the optional callbacks the element binds. *)
Record scope := {
  options : jsval;
  series : jsval;
  muted : jsval;
  chartInstance : option handle;
  type : jsval;
  palette : jsval;
  onLoad : bool;
  bound : callback -> bool
}.

(** What is passed to [chart.options]. *)
Inductive update : Type :=
  | Built (sc : scope)       (* the object [buildConfig()] returned for this scope *)
  | SeriesOnly (v : jsval)   (* [{ series: newVal ? newVal.slice() : [] }] *)
  | PaletteOnly (v : jsval)  (* [{ palette: newVal }] *)
  | MutedOnly (v : jsval).   (* [{ muted: newVal }] *)

(** The calls made to the chart engine, in order. *)
Inductive engine_call : Type :=
  | Created (h : handle) (cfg : scope)  (* [JSC.chart(target, merged, cb)] returned [h] *)
  | CreateThrew (cfg : scope)           (* [JSC.chart(...)] threw *)
  | Options (h : handle) (u : update)   (* [h.options(u)] *)
  | Destroyed (h : handle).             (* [h.destroy()] *)

Inductive console_line : Type :=
  | Error (msg : string)      (* [console.error] *)
  | Warn (msg : string)       (* [console.warn] *)
  | Uncaught.                 (* an exception that reached [$exceptionHandler] *)

(** The calls of scope callbacks, with the object they receive. *)
Inductive notification : Type :=
  | Loaded (h : handle)                                  (* [scope.onLoad({chart})] *)
  | Notified (cb : callback) (arg : jsval) (this : option jsval)
             (chart : option handle)
  | Delivered (name : string) (event : jsval) (chart : handle)
              (eventType : string) (timestamp : nat).    (* [wrapCallback] *)

(** The functions handed to [$timeout]. *)
Inductive task : Type :=
  | ApplyUpdate                 (* in [scheduleUpdate]: [buildConfig] then [updateChart] *)
  | ApplySeries (newVal : jsval)(* in the series watcher *)
  | Track (h : handle)          (* in [createSync], inside the engine's callback *)
  | Ready (h : handle)          (* in [initChart], inside [callback(chartInstance)] *)
  | Notify (cb : callback) (arg : jsval) (this : jsval)   (* in [wireEvents] *)
  | Deliver (name : string) (chart : handle) (eventType : string)
            (event : jsval).    (* in [jscEventService.wrapCallback] *)

(** The variables of the link function. *)
Record link := {
  chart : option handle;
  debounceTimeout : option nat;
  isInitialized : bool;
  pendingUpdate : option update;
  initializationInProgress : bool;
  lastOptionsHash : jsval;
  lastSeriesHash : jsval
}.

(** jscChartFactory: the registry [instances], [instanceCounter], the
    provider's [trackInstances], and the [__jscAngularId] the factory
    stores on a chart. *)
Record entry := { e_chart : handle; e_id : string; e_created : nat }.

Record factory := {
  trackInstances : bool;
  instances : gmap string entry;
  instanceCounter : nat;
  angularId : gmap handle string
}.

Record world := {
  vars : link;
  sc : scope;
  element : bool;                 (* [element && element[0]] *)
  fac : factory;
  timers : service task;
  loading : list scope;           (* pending [loadForType] promises, with the [config] of their callbacks *)
  awaiting : list handle;         (* charts whose engine callback has not fired *)
  next_handle : handle;
  engine : list engine_call;
  console : list console_line;
  notified : list notification
}.

(** Record updates. *)
Definition with_vars (f : link -> link) (w : world) : world :=
  {| vars := f (vars w); sc := sc w; element := element w; fac := fac w;
     timers := timers w; loading := loading w; awaiting := awaiting w;
     next_handle := next_handle w; engine := engine w; console := console w;
     notified := notified w |}.
Definition with_scope (f : scope -> scope) (w : world) : world :=
  {| vars := vars w; sc := f (sc w); element := element w; fac := fac w;
     timers := timers w; loading := loading w; awaiting := awaiting w;
     next_handle := next_handle w; engine := engine w; console := console w;
     notified := notified w |}.
Definition with_factory (f : factory -> factory) (w : world) : world :=
  {| vars := vars w; sc := sc w; element := element w; fac := f (fac w);
     timers := timers w; loading := loading w; awaiting := awaiting w;
     next_handle := next_handle w; engine := engine w; console := console w;
     notified := notified w |}.
Definition with_timers (f : service task -> service task) (w : world) : world :=
  {| vars := vars w; sc := sc w; element := element w; fac := fac w;
     timers := f (timers w); loading := loading w; awaiting := awaiting w;
     next_handle := next_handle w; engine := engine w; console := console w;
     notified := notified w |}.
Definition with_loading (f : list scope -> list scope) (w : world) : world :=
  {| vars := vars w; sc := sc w; element := element w; fac := fac w;
     timers := timers w; loading := f (loading w); awaiting := awaiting w;
     next_handle := next_handle w; engine := engine w; console := console w;
     notified := notified w |}.
Definition with_awaiting (f : list handle -> list handle) (w : world) : world :=
  {| vars := vars w; sc := sc w; element := element w; fac := fac w;
     timers := timers w; loading := loading w; awaiting := f (awaiting w);
     next_handle := next_handle w; engine := engine w; console := console w;
     notified := notified w |}.
Definition engine_does (c : engine_call) (w : world) : world :=
  {| vars := vars w; sc := sc w; element := element w; fac := fac w;
     timers := timers w; loading := loading w; awaiting := awaiting w;
     next_handle := next_handle w; engine := engine w ++ [c];
     console := console w; notified := notified w |}.
Definition logs (l : console_line) (w : world) : world :=
  {| vars := vars w; sc := sc w; element := element w; fac := fac w;
     timers := timers w; loading := loading w; awaiting := awaiting w;
     next_handle := next_handle w; engine := engine w;
     console := console w ++ [l]; notified := notified w |}.
Definition notifies (n : notification) (w : world) : world :=
  {| vars := vars w; sc := sc w; element := element w; fac := fac w;
     timers := timers w; loading := loading w; awaiting := awaiting w;
     next_handle := next_handle w; engine := engine w; console := console w;
     notified := notified w ++ [n] |}.
Definition fresh_handle (w : world) : world :=
  {| vars := vars w; sc := sc w; element := element w; fac := fac w;
     timers := timers w; loading := loading w; awaiting := awaiting w;
     next_handle := S (next_handle w); engine := engine w;
     console := console w; notified := notified w |}.

Definition set_chart (c : option handle) (l : link) : link :=
  {| chart := c; debounceTimeout := debounceTimeout l;
     isInitialized := isInitialized l; pendingUpdate := pendingUpdate l;
     initializationInProgress := initializationInProgress l;
     lastOptionsHash := lastOptionsHash l; lastSeriesHash := lastSeriesHash l |}.
Definition set_debounceTimeout (p : option nat) (l : link) : link :=
  {| chart := chart l; debounceTimeout := p;
     isInitialized := isInitialized l; pendingUpdate := pendingUpdate l;
     initializationInProgress := initializationInProgress l;
     lastOptionsHash := lastOptionsHash l; lastSeriesHash := lastSeriesHash l |}.
Definition set_isInitialized (b : bool) (l : link) : link :=
  {| chart := chart l; debounceTimeout := debounceTimeout l;
     isInitialized := b; pendingUpdate := pendingUpdate l;
     initializationInProgress := initializationInProgress l;
     lastOptionsHash := lastOptionsHash l; lastSeriesHash := lastSeriesHash l |}.
Definition set_pendingUpdate (u : option update) (l : link) : link :=
  {| chart := chart l; debounceTimeout := debounceTimeout l;
     isInitialized := isInitialized l; pendingUpdate := u;
     initializationInProgress := initializationInProgress l;
     lastOptionsHash := lastOptionsHash l; lastSeriesHash := lastSeriesHash l |}.
Definition set_initializationInProgress (b : bool) (l : link) : link :=
  {| chart := chart l; debounceTimeout := debounceTimeout l;
     isInitialized := isInitialized l; pendingUpdate := pendingUpdate l;
     initializationInProgress := b;
     lastOptionsHash := lastOptionsHash l; lastSeriesHash := lastSeriesHash l |}.
Definition set_lastOptionsHash (h : jsval) (l : link) : link :=
  {| chart := chart l; debounceTimeout := debounceTimeout l;
     isInitialized := isInitialized l; pendingUpdate := pendingUpdate l;
     initializationInProgress := initializationInProgress l;
     lastOptionsHash := h; lastSeriesHash := lastSeriesHash l |}.
Definition set_lastSeriesHash (h : jsval) (l : link) : link :=
  {| chart := chart l; debounceTimeout := debounceTimeout l;
     isInitialized := isInitialized l; pendingUpdate := pendingUpdate l;
     initializationInProgress := initializationInProgress l;
     lastOptionsHash := lastOptionsHash l; lastSeriesHash := h |}.

Definition set_options (v : jsval) (s : scope) : scope :=
  {| options := v; series := series s; muted := muted s;
     chartInstance := chartInstance s; type := type s; palette := palette s;
     onLoad := onLoad s; bound := bound s |}.
Definition set_series (v : jsval) (s : scope) : scope :=
  {| options := options s; series := v; muted := muted s;
     chartInstance := chartInstance s; type := type s; palette := palette s;
     onLoad := onLoad s; bound := bound s |}.
Definition set_muted (v : jsval) (s : scope) : scope :=
  {| options := options s; series := series s; muted := v;
     chartInstance := chartInstance s; type := type s; palette := palette s;
     onLoad := onLoad s; bound := bound s |}.
Definition set_chartInstance (c : option handle) (s : scope) : scope :=
  {| options := options s; series := series s; muted := muted s;
     chartInstance := c; type := type s; palette := palette s;
     onLoad := onLoad s; bound := bound s |}.
Definition set_type (v : jsval) (s : scope) : scope :=
  {| options := options s; series := series s; muted := muted s;
     chartInstance := chartInstance s; type := v; palette := palette s;
     onLoad := onLoad s; bound := bound s |}.
Definition set_palette (v : jsval) (s : scope) : scope :=
  {| options := options s; series := series s; muted := muted s;
     chartInstance := chartInstance s; type := type s; palette := v;
     onLoad := onLoad s; bound := bound s |}.

(** [$timeout(fn, delay)] in a world: the promise and the new world. *)
Definition defer (fn : task) (delay : nat) (w : world) : nat * world :=
  let (promise, sv) := timeout fn delay (timers w) in
  (promise, with_timers (fun _ => sv) w).

Section Controller.

(** [jscConfig.getUpdateDebounceTime()], read once by the link function. *)
Variable updateDebounceTime : nat.
(** Whether the engine's [h.options(u)] and [h.destroy()] throw. *)
Variable options_throws : handle -> update -> bool.
Variable destroy_throws : handle -> bool.

(** *** jscChartFactory *)

(** [generateId()]: ['jsc_' + (++instanceCounter) + '_' + Date.now()] *)
Definition generateId (counter time : nat) : string :=
  "jsc_" +:+ number_text (Z.of_nat counter) +:+ "_" +:+ number_text (Z.of_nat time).

(** The function [createSync] hands to [$timeout] inside the engine's
    callback: track the instance, then call the directive's [callback]. *)
Definition track (h : handle) (w : world) : world :=
  let f := fac w in
  if trackInstances f then
    let n := S (instanceCounter f) in
    let id := generateId n (now (timers w)) in
    with_factory (fun _ =>
      {| trackInstances := trackInstances f;
         instances := <[id := {| e_chart := h; e_id := id; e_created := now (timers w) |}]> (instances f);
         instanceCounter := n;
         angularId := <[h := id]> (angularId f) |}) w
  else w.

(** [createSync(target, options, callback)].  [available] is
    [isJSCAvailable()], [throws] says whether [mergeWithDefaults] or
    [JSC.chart] throws.  On success the engine holds the chart and will call
    back once it has rendered. *)
Definition createSync (cfg : scope) (available throws : bool) (w : world)
    : option handle * world :=
  if negb available then
    (None, logs (Error "JSCharting library is not loaded.") w)
  else if throws then
    (None, logs (Error "Error creating chart:") (engine_does (CreateThrew cfg) w))
  else
    let h := next_handle w in
    (Some h,
     with_awaiting (fun a => a ++ [h]) (fresh_handle (engine_does (Created h cfg) w))).

(** The argument of [jscChartFactory.destroy]. *)
Inductive target : Type :=
  | ById (id : string)
  | ByChart (h : handle)
  | Neither.

Definition forget (id : string) (f : factory) : factory :=
  {| trackInstances := trackInstances f;
     instances := delete id (instances f);
     instanceCounter := instanceCounter f;
     angularId := angularId f |}.

(** [jscChartFactory.destroy(idOrChart)], with its result. *)
Definition factory_destroy (t : target) (w : world) : bool * world :=
  let found : option (handle * option string) :=
    match t with
    | ById id =>
        match instances (fac w) !! id with
        | Some e => Some (e_chart e, Some id)
        | None => None
        end
    | ByChart h => Some (h, angularId (fac w) !! h)
    | Neither => None
    end in
  match found with
  | Some (h, id) =>
      let w1 := engine_does (Destroyed h) w in
      let w2 := if destroy_throws h then logs (Warn "Error destroying chart:") w1 else w1 in
      let w3 :=
        match id with
        | Some i =>
            if negb (String.eqb i "") && bool_decide (is_Some (instances (fac w2) !! i))
            then with_factory (forget i) w2 else w2
        | None => w2
        end in
      (true, w3)
  | None => (false, w)
  end.

(** *** The link function *)

(** [updateChart(newConfig)] *)
Definition updateChart (newConfig : update) (w : world) : world :=
  match chart (vars w) with
  | None => with_vars (set_pendingUpdate (Some newConfig)) w
  | Some h =>
      let w' := engine_does (Options h newConfig) w in
      if options_throws h newConfig then logs (Warn "Error updating chart:") w' else w'
  end.

(** [chart.options(u)] outside any [try]: an exception of the engine goes
    to AngularJS. *)
Definition direct_options (h : handle) (u : update) (w : world) : world :=
  let w' := engine_does (Options h u) w in
  if options_throws h u then logs Uncaught w' else w'.

(** [initChart()] *)
Definition initChart (w : world) : world :=
  if initializationInProgress (vars w) then w
  else
    let config := sc w in
    let w1 := with_vars (set_initializationInProgress true) w in
    let w2 := with_vars (set_lastOptionsHash (computeHash (options (sc w)))) w1 in
    let w3 := with_vars (set_lastSeriesHash (computeHash (series (sc w)))) w2 in
    with_loading (fun l => l ++ [config]) w3.

(** The function [initChart] passes to [then]: the modules are loaded. *)
Definition loaded (config : scope) (available throws : bool) (w : world) : world :=
  if negb (element w) then with_vars (set_initializationInProgress false) w
  else
    let (c, w') := createSync config available throws w in
    with_vars (set_chart c) w'.

(** The function [initChart] passes to [catch]: loading failed. *)
Definition load_failed (w : world) : world :=
  with_vars (set_initializationInProgress false)
    (logs (Error "Failed to load chart modules:") w).

(** The function [initChart] hands to [$timeout] inside the callback it
    gives to [createSync]. *)
Definition ready (chartInstance : handle) (w : world) : world :=
  if bool_decide (chart (vars w) = Some chartInstance) then
    let w1 := with_scope (set_chartInstance (Some chartInstance)) w in
    let w2 := with_vars (set_isInitialized true) w1 in
    let w3 := with_vars (set_initializationInProgress false) w2 in
    let w4 := if onLoad (sc w3) then notifies (Loaded chartInstance) w3 else w3 in
    match pendingUpdate (vars w4) with
    | Some u => with_vars (set_pendingUpdate None) (updateChart u w4)
    | None => w4
    end
  else w.

(** [scheduleUpdate()] *)
Definition scheduleUpdate (w : world) : world :=
  let w1 := with_timers (cancel_if (debounceTimeout (vars w))) w in
  let (promise, w2) := defer ApplyUpdate updateDebounceTime w1 in
  with_vars (set_debounceTimeout (Some promise)) w2.

(** The listener of [scope.$watch('options', ..., true)] *)
Definition watch_options (newVal : jsval) (w : world) : world :=
  if negb (isInitialized (vars w)) then w
  else
    let newHash := computeHash newVal in
    if negb (strict_eq newHash (lastOptionsHash (vars w))) then
      scheduleUpdate (with_vars (set_lastOptionsHash newHash) w)
    else w.

(** The listener of [scope.$watch('series', ..., true)] *)
Definition watch_series (newVal : jsval) (w : world) : world :=
  if negb (isInitialized (vars w)) || negb (bool_decide (is_Some (chart (vars w))))
  then w
  else
    let newHash := computeHash newVal in
    if negb (strict_eq newHash (lastSeriesHash (vars w))) then
      let w1 := with_vars (set_lastSeriesHash newHash) w in
      let w2 := with_timers (cancel_if (debounceTimeout (vars w1))) w1 in
      let (promise, w3) := defer (ApplySeries newVal) updateDebounceTime w2 in
      with_vars (set_debounceTimeout (Some promise)) w3
    else w.

(** The listener of [scope.$watch('type', ...)] *)
Definition watch_type (newVal oldVal : jsval) (w : world) : world :=
  if negb (strict_eq newVal oldVal) && isInitialized (vars w)
     && negb (initializationInProgress (vars w))
  then
    let w1 :=
      match chart (vars w) with
      | Some h =>
          let w' := snd (factory_destroy (ByChart h) w) in
          with_vars (set_isInitialized false)
            (with_scope (set_chartInstance None) (with_vars (set_chart None) w'))
      | None => w
      end in
    initChart w1
  else w.

(** The listeners of [scope.$watch('palette', ...)] and
    [scope.$watch('muted', ...)] *)
Definition watch_palette (newVal oldVal : jsval) (w : world) : world :=
  match chart (vars w) with
  | Some h =>
      if negb (strict_eq newVal oldVal)
      then direct_options h (PaletteOnly newVal) w else w
  | None => w
  end.

Definition watch_muted (newVal oldVal : jsval) (w : world) : world :=
  match chart (vars w) with
  | Some h =>
      if negb (strict_eq newVal oldVal)
      then direct_options h (MutedOnly newVal) w else w
  | None => w
  end.

(** The listener of [scope.$on('$destroy', ...)] *)
Definition destroy (w : world) : world :=
  let w1 := with_timers (cancel_if (debounceTimeout (vars w))) w in
  let w2 :=
    match chart (vars w1) with
    | Some h => with_vars (set_chart None) (snd (factory_destroy (ByChart h) w1))
    | None => w1
    end in
  with_vars (set_isInitialized false) (with_scope (set_chartInstance None) w2).

(** A handler that [wireEvents] stored in the configuration, called by the
    engine with event [e] and receiver [this]: it only defers. *)
Definition handler (cb : callback) (e this : jsval) (w : world) : world :=
  snd (defer (Notify cb e this) 0 w).

(** The function such a handler hands to [$timeout]: it reads the variable
    [chart] when it runs. *)
Definition notify (cb : callback) (e this : jsval) (w : world) : world :=
  notifies
    (Notified cb e (if passes_this cb then Some this else None) (chart (vars w))) w.

(** [jscEventService.wrapCallback(callback, chart, eventType)] returns a
    function of [jscEvent]; [wrapped] is a call of that function, [deliver]
    what it hands to [$timeout]. *)
Definition wrapped (name : string) (c : handle) (eventType : string)
    (jscEvent : jsval) (w : world) : world :=
  snd (defer (Deliver name c eventType jscEvent) 0 w).

Definition deliver (name : string) (c : handle) (eventType : string)
    (jscEvent : jsval) (w : world) : world :=
  notifies (Delivered name jscEvent c eventType (now (timers w))) w.

(** The function in the series watcher's [$timeout]:
    [chart.options({ series: ... })], with no test of [chart] and no
    [try]. *)
Definition apply_series (newVal : jsval) (w : world) : world :=
  match chart (vars w) with
  | Some h => direct_options h (SeriesOnly newVal) w
  | None => logs Uncaught w
  end.

(** *** What the surroundings do *)

(** Running a deferred function. *)
Definition perform (t : task) (w : world) : world :=
  match t with
  | ApplyUpdate => updateChart (Built (sc w)) w
  | ApplySeries v => apply_series v w
  | Track h => snd (defer (Ready h) 0 (track h w))
  | Ready h => ready h w
  | Notify cb e this => notify cb e this w
  | Deliver name c ty e => deliver name c ty e w
  end.

(** Whether the engine was given a configuration, and with it the handlers
    of the bound callbacks. *)
Definition configured (w : world) : bool :=
  existsb (fun c => match c with
                    | Created _ _ | Options _ (Built _) => true
                    | _ => false
                    end) (engine w).

Inductive event : Type :=
  | ModulesLoaded (available throws : bool)  (* the oldest [loadForType] promise resolves *)
  | ModulesFailed                            (* ... or is rejected *)
  | Rendered (h : handle)                    (* the engine calls the callback of [JSC.chart] *)
  | Fire (promise : nat)                     (* [$timeout] runs a function that is due *)
  | Elapse (ms : nat)
  | OptionsChanged (newVal : jsval)
  | SeriesChanged (newVal : jsval)
  | TypeChanged (newVal : jsval)
  | PaletteChanged (newVal : jsval)
  | MutedChanged (newVal : jsval)
  | ScopeDestroyed
  | Emitted (cb : callback) (e this : jsval) (* the engine calls a wired handler *)
  | EmittedWrapped (name : string) (c : handle) (eventType : string) (e : jsval).

Definition step (w : world) (ev : event) : world :=
  match ev with
  | ModulesLoaded available throws =>
      match loading w with
      | config :: rest => loaded config available throws (with_loading (fun _ => rest) w)
      | [] => w
      end
  | ModulesFailed =>
      match loading w with
      | _ :: rest => load_failed (with_loading (fun _ => rest) w)
      | [] => w
      end
  | Rendered h =>
      if bool_decide (h ∈ awaiting w) then
        snd (defer (Track h) 0
               (with_awaiting (List.filter (fun x => negb (Nat.eqb x h))) w))
      else w
  | Fire promise =>
      match pending promise (timers w) with
      | Some t =>
          if Nat.leb (due t) (now (timers w))
          then perform (run_fn t) (with_timers (cancel promise) w)
          else w
      | None => w
      end
  | Elapse ms => with_timers (fun sv => elapse (now sv + ms) sv) w
  | OptionsChanged v => watch_options v (with_scope (set_options v) w)
  | SeriesChanged v => watch_series v (with_scope (set_series v) w)
  | TypeChanged v => watch_type v (type (sc w)) (with_scope (set_type v) w)
  | PaletteChanged v => watch_palette v (palette (sc w)) (with_scope (set_palette v) w)
  | MutedChanged v => watch_muted v (muted (sc w)) (with_scope (set_muted v) w)
  | ScopeDestroyed => destroy w
  | Emitted cb e this =>
      if bound (sc w) cb && configured w then handler cb e this w else w
  | EmittedWrapped name c ty e => wrapped name c ty e w
  end.

Definition run (w : world) (evs : list event) : world := fold_left step evs w.

(** The world when the link function has run for a scope: its variables
    are initialised, the watchers are registered and [initChart()] was
    called. *)
Definition unlinked (s : scope) (track_instances : bool) : world :=
  {| vars := {| chart := None; debounceTimeout := None; isInitialized := false;
                pendingUpdate := None; initializationInProgress := false;
                lastOptionsHash := JNull; lastSeriesHash := JNull |};
     sc := s; element := true;
     fac := {| trackInstances := track_instances; instances := ∅;
               instanceCounter := 0; angularId := ∅ |};
     timers := idle; loading := []; awaiting := []; next_handle := 0;
     engine := []; console := []; notified := [] |}.

Definition mounted (s : scope) (track_instances : bool) : world :=
  initChart (unlinked s track_instances).

Inductive reachable (s : scope) (t : bool) : world -> Prop :=
  | reach_mounted : reachable s t (mounted s t)
  | reach_step w ev : reachable s t w -> reachable s t (step w ev).

(** *** The lifecycle states of the specification, read off the variables *)

Inductive phase : Type := Unmounted | Loading | Creating | IsReady.

(** [initializationInProgress] is the re-entrancy guard of [initChart]: while
    it is set the controller is initialising, with a handle ([Creating]) or
    without one ([Loading]). *)
Definition phase_of (w : world) : phase :=
  match chart (vars w), isInitialized (vars w), initializationInProgress (vars w) with
  | Some _, true, _ => IsReady
  | Some _, false, _ => Creating
  | None, _, true => Loading
  | None, _, false => Unmounted
  end.

End Controller.

(** *** Invariants of the controller *)

(** The part of a world the lifecycle invariant speaks about. *)
Definition core (w : world) :=
  (chart (vars w), isInitialized (vars w), pendingUpdate (vars w),
   initializationInProgress (vars w), chartInstance (sc w), loading w).

(** [initial] is the value of [scope.chartInstance] when the directive is
    linked (what the caller's [jsc-instance] expression holds then). *)
Record consistent (initial : option handle) (w : world) : Prop := {
  ready_has_chart :
    isInitialized (vars w) = true ->
    is_Some (chart (vars w)) /\ pendingUpdate (vars w) = None;
  loading_guard :
    loading w <> [] ->
    isInitialized (vars w) = false /\ chart (vars w) = None /\
    initializationInProgress (vars w) = true /\ length (loading w) = 1;
  no_chart_no_instance :
    chart (vars w) = None ->
    chartInstance (sc w) = None \/ chartInstance (sc w) = initial
}.

Arguments ready_has_chart {initial} w _.
Arguments loading_guard {initial} w _.
Arguments no_chart_no_instance {initial} w _.

(** The deferred functions that apply an update: the debounced ones. *)
Definition is_update (t : task) : bool :=
  match t with
  | ApplyUpdate | ApplySeries _ => true
  | _ => false
  end.

(** The pending timeouts have distinct promises, all handed out already,
    and a pending timeout that applies an update is the one the variable
    [debounceTimeout] holds. *)
Record service_ok (debounce : option nat) (sv : service task) : Prop := {
  ids_fresh : Forall (fun tm => tid tm < next sv) (queue sv);
  ids_distinct : NoDup (map tid (queue sv));
  debounce_fresh : forall id, debounce = Some id -> id < next sv;
  update_is_debounce :
    Forall (fun tm => is_update (run_fn tm) = true -> debounce = Some (tid tm))
           (queue sv)
}.

Definition timers_consistent (w : world) : Prop :=
  service_ok (debounceTimeout (vars w)) (timers w).

(** The part of a world that [timers_consistent] speaks about. *)
Definition timer_core (w : world) := (debounceTimeout (vars w), timers w).

(** The pending timeout that [debounceTimeout] holds, if it is pending. *)
Definition pending_debounce (w : world) : option (timer task) :=
  match debounceTimeout (vars w) with
  | Some promise => pending promise (timers w)
  | None => None
  end.

(** *** A sample element *)

(** An engine that never throws. *)
Definition calm_options : handle -> update -> bool := fun _ _ => false.
Definition calm_destroy : handle -> bool := fun _ => false.

(** [<jsc-chart jsc-options=... jsc-series=... jsc-type="line"
      jsc-palette=... jsc-on-load=... jsc-on-click=...>] *)
Definition sample_scope : scope :=
  {| options := JObject 1 [("legend", JObject 2 [("visible", JBool true)])];
     series := JArray 3 [JObject 4 [("name", JStr "a")]];
     muted := JBool false;
     chartInstance := None;
     type := JStr "line";
     palette := JArray 5 [JStr "#f00"];
     onLoad := true;
     bound := fun cb => match cb with onClick | onPointClick => true | _ => false end |}.

(** The modules load, the engine creates the chart and reports it rendered,
    and the two deferred functions (of the factory, then of the directive)
    run. *)
Definition becomes_ready : list event :=
  [ModulesLoaded true false; Rendered 0; Fire 0; Fire 1].

Definition sample_ready : world :=
  run 100 calm_options calm_destroy (mounted sample_scope true) becomes_ready.

(** The caller hides the legend. *)
Definition new_options : jsval :=
  JObject 1 [("legend", JObject 2 [("visible", JBool false)])].

(** A ready chart whose options change and whose type changes before the
    debounce time is over: the chart is destroyed, the modules load again,
    the timeout of the options runs meanwhile, and the second chart is
    created and rendered.  Its ready function is still to run. *)
Definition before_second_ready : world :=
  run 100 calm_options calm_destroy sample_ready
    [OptionsChanged new_options; TypeChanged (JStr "bar"); Elapse 100; Fire 2;
     ModulesLoaded true false; Rendered 1; Fire 3].



End Lifecycle.

(** * The other utilities of jscPerformance (unnamed/part_005) *)

Module Performance.
Import Fingerprint Scheduler.

(** ** chunk *)

(** [Array.prototype.slice(start, end)] for integer arguments: a negative
    argument counts from the end of the array, and both are clamped to the
    array. *)
Definition relative (len k : Z) : Z :=
  if Z.ltb k 0 then Z.max (len + k) 0 else Z.min k len.

Definition slice {A : Type} (a : list A) (start finish : Z) : list A :=
  let len := Z.of_nat (length a) in
  let k := relative len start in
  let final := relative len finish in
  firstn (Z.to_nat (final - k)) (skipn (Z.to_nat k) a).

(** [jscPerformance.chunk]:
<<
  function chunk(array, size) {
    var chunks = [];
    for (var i = 0; i < array.length; i += size) {
      chunks.push(array.slice(i, i + size));
    }
    return chunks;
  }
>>
    The loop runs as long as its test holds; [fuel] bounds the number of
    tests, and [None] says that the loop has not ended within them.  [size]
    is an integer. *)
Fixpoint chunk_loop {A : Type} (fuel : nat) (array : list A) (size i : Z)
    (chunks : list (list A)) : option (list (list A)) :=
  match fuel with
  | 0 => None
  | S n =>
      if Z.ltb i (Z.of_nat (length array))
      then chunk_loop n array size (i + size) (chunks ++ [slice array i (i + size)])
      else Some chunks
  end.

Definition chunk {A : Type} (fuel : nat) (array : list A) (size : Z)
    : option (list (list A)) :=
  chunk_loop fuel array size 0 [].

(** ** downsample *)

(** The numbers the loop variable of [downsample] takes: an integer, or the
    [Infinity] that a division by zero gives. *)
Inductive number : Type :=
  | Finite (z : Z)
  | Infinity.

Definition plus (a b : number) : number :=
  match a, b with
  | Finite x, Finite y => Finite (x + y)
  | _, _ => Infinity
  end.

(** [Math.ceil(len / maxPoints)] for integers [len >= 0] and [maxPoints],
    not both zero. *)
Definition ceil_ratio (len maxPoints : Z) : number :=
  if Z.eqb maxPoints 0 then Infinity else Finite (- ((- len) / maxPoints)).

(** [data[i]]: an index outside the array reads [undefined]. *)
Definition at_index (data : list jsval) (i : Z) : jsval :=
  if Z.ltb i 0 then JUndefined else nth (Z.to_nat i) data JUndefined.

(** [a[a.length - 1]] *)
Definition last_of (a : list jsval) : jsval := List.last a JUndefined.

(** [for (var i = 0; i < data.length; i += step) result.push(data[i]);] *)
Fixpoint downsample_loop (fuel : nat) (data : list jsval) (step i : number)
    (result : list jsval) : option (list jsval) :=
  match fuel with
  | 0 => None
  | S n =>
      match i with
      | Finite z =>
          if Z.ltb z (Z.of_nat (length data))
          then downsample_loop n data step (plus i step) (result ++ [at_index data z])
          else Some result
      | Infinity => Some result
      end
  end.


(** [jscPerformance.downsample]:
<<
  function downsample(data, maxPoints) {
    if (!data || data.length <= maxPoints) { return data; }
    var step = Math.ceil(data.length / maxPoints);
    var result = [];
    for (var i = 0; i < data.length; i += step) { result.push(data[i]); }
    // Always include the last point
    if (result[result.length - 1] !== data[data.length - 1]) {
      result.push(data[data.length - 1]);
    }
    return result;
  }
>>
    [data] is an array, or [None] for [null] or [undefined]; [maxPoints] is
    an integer.  The outer [option] is the termination of the loop, as for
    [chunk]. *)
Definition downsample (fuel : nat) (data : option (list jsval)) (maxPoints : Z)
    : option (option (list jsval)) :=
  match data with
  | None => Some None
  | Some d =>
      if Z.leb (Z.of_nat (length d)) maxPoints then Some (Some d)
      else
        let step := ceil_ratio (Z.of_nat (length d)) maxPoints in
        result ← downsample_loop fuel d step (Finite 0) [];
        Some (Some (if negb (strict_eq (last_of result) (last_of d))
                    then result ++ [last_of d] else result))
  end.

(** ** throttle
<<
  function throttle(func, limit) {
    var inThrottle = false;
    var lastArgs = null;
    var lastContext = null;
    return function() {
      var context = this; var args = arguments;
      if (!inThrottle) {
        func.apply(context, args);
        inThrottle = true;
        $timeout(function() {
          inThrottle = false;
          if (lastArgs) {
            func.apply(lastContext, lastArgs);
            lastArgs = null; lastContext = null;
          }
        }, limit);
      } else {
        lastArgs = args; lastContext = context;
      }
    };
  }
>> *)

Section Throttle.

(** The receiver and arguments of a call of the throttled function. *)
Context {A : Type}.

(** The one function [throttle] hands to [$timeout]: it closes over the
    variables, not over a call. *)
Inductive expiry := Expire.

(** A throttled function and its surroundings: the closure variables, the
    [$timeout] service, and the calls of [func] made so far, each with the
    time of the call. *)
Record throttled := {
  inThrottle : bool;
  lastArgs : option A;
  t_timers : service expiry;
  t_invoked : list (nat * A)
}.

Variable limit : nat.

Definition t_fresh : throttled :=
  {| inThrottle := false; lastArgs := None; t_timers := idle; t_invoked := [] |}.

(** A call of the throttled function with [args]. *)
Definition t_call (args : A) (d : throttled) : throttled :=
  if negb (inThrottle d) then
    {| inThrottle := true;
       lastArgs := lastArgs d;
       t_timers := snd (timeout Expire limit (t_timers d));
       t_invoked := t_invoked d ++ [(now (t_timers d), args)] |}
  else
    {| inThrottle := inThrottle d;
       lastArgs := Some args;
       t_timers := t_timers d;
       t_invoked := t_invoked d |}.

(** The function handed to [$timeout]. *)
Definition t_expire (d : throttled) : throttled :=
  match lastArgs d with
  | Some args =>
      {| inThrottle := false; lastArgs := None; t_timers := t_timers d;
         t_invoked := t_invoked d ++ [(now (t_timers d), args)] |}
  | None =>
      {| inThrottle := false; lastArgs := None; t_timers := t_timers d;
         t_invoked := t_invoked d |}
  end.

(** The browser runs a timeout that is due. *)
Definition t_fire (t : timer expiry) (d : throttled) : throttled :=
  t_expire {| inThrottle := inThrottle d; lastArgs := lastArgs d;
              t_timers := cancel (tid t) (elapse (due t) (t_timers d));
              t_invoked := t_invoked d |}.

(** Time passes until [t]: every timeout due by then runs, the earliest
    first. *)
Fixpoint t_run_due (fuel : nat) (t : nat) (d : throttled) : throttled :=
  match fuel with
  | 0 => d
  | S n =>
      match earliest (queue (t_timers d)) with
      | Some tm => if Nat.leb (due tm) t then t_run_due n t (t_fire tm d) else d
      | None => d
      end
  end.

Definition t_advance (t : nat) (d : throttled) : throttled :=
  let d' := t_run_due (length (queue (t_timers d))) t d in
  {| inThrottle := inThrottle d'; lastArgs := lastArgs d';
     t_timers := elapse t (t_timers d'); t_invoked := t_invoked d' |}.

(** A call at time [t]. *)
Definition t_call_at (d : throttled) (c : nat * A) : throttled :=
  t_call (snd c) (t_advance (fst c) d).

(** A sequence of timed calls, then the time [finish]. *)
Definition t_run (calls : list (nat * A)) (finish : nat) : throttled :=
  t_advance finish (fold_left t_call_at calls t_fresh).

(** The calls come in the order of their times. *)
Fixpoint in_time (calls : list (nat * A)) : Prop :=
  match calls with
  | [] => True
  | c :: rest =>
      match rest with
      | [] => True
      | c' :: _ => fst c <= fst c'
      end /\ in_time rest
  end.

(** The two states of a throttled function: [calm], before a call or after
    the timeout has run, and [held], between a call that was let through and
    the timeout it started. *)
Definition calm (d : throttled) : Prop :=
  inThrottle d = false /\ lastArgs d = None /\ queue (t_timers d) = [].

Definition held (d : throttled) : Prop :=
  inThrottle d = true /\
  exists tm, queue (t_timers d) = [tm] /\ due tm <= now (t_timers d) + limit.

(** The arguments [func] was called with, and those it is still to be
    called with. *)
Definition delivered (d : throttled) : list A :=
  map snd (t_invoked d) ++ option_list (lastArgs d).

(** The time of the last call. *)
Definition clock (calls : list (nat * A)) : nat :=
  match last calls with Some c => fst c | None => 0 end.

(** What a throttled function has done with the calls made so far. *)
Record tracks (calls : list (nat * A)) (d : throttled) : Prop := {
  tr_state : calm d \/ held d;
  tr_held : held d -> calls <> [];
  tr_sub : sublist (delivered d) (map snd calls);
  tr_last : last (delivered d) = last (map snd calls);
  tr_head : head (t_invoked d) = head calls;
  tr_now : now (t_timers d) = clock calls
}.

End Throttle.

Arguments throttled : clear implicits.

(** ** processInChunks
<<
  function processInChunks(array, processor, chunkSize, delay) {
    delay = delay || 0;
    var chunks = chunk(array, chunkSize);
    var index = 0;
    return new Promise(function(resolve) {
      function processNext() {
        if (index >= chunks.length) { resolve(); return; }
        processor(chunks[index], index);
        index++;
        if (delay > 0) { $timeout(processNext, delay); }
        else { $timeout(processNext, 0); }
      }
      processNext();
    });
  }
>> *)

Section ProcessInChunks.

Context {A : Type}.

(** The function handed to [$timeout] is [processNext]. *)
Inductive continuation := ProcessNext.

(** The variables of a call of [processInChunks] and its surroundings: the
    calls [processor(chunk, index)] made so far, and whether the promise is
    resolved. *)
Record chunked := {
  p_chunks : list (list A);
  p_index : nat;
  p_timers : service continuation;
  p_processed : list (list A * nat);
  p_resolved : bool
}.

(** [delay] is an integer, or 0 for an argument left out; a negative delay
    is replaced by 0. *)
Variable delay : Z.

Definition processNext (s : chunked) : chunked :=
  match p_chunks s !! p_index s with
  | None =>
      {| p_chunks := p_chunks s; p_index := p_index s; p_timers := p_timers s;
         p_processed := p_processed s; p_resolved := true |}
  | Some c =>
      {| p_chunks := p_chunks s; p_index := S (p_index s);
         p_timers := snd (timeout ProcessNext (Z.to_nat delay) (p_timers s));
         p_processed := p_processed s ++ [(c, p_index s)];
         p_resolved := p_resolved s |}
  end.

(** The call itself, in a service [sv]: the executor of the promise runs
    [processNext] at once.  [fuel] is the fuel of [chunk]. *)
Definition processInChunks (fuel : nat) (array : list A) (chunkSize : Z)
    (sv : service continuation) : option chunked :=
  chunks ← chunk fuel array chunkSize;
  Some (processNext {| p_chunks := chunks; p_index := 0; p_timers := sv;
                       p_processed := []; p_resolved := false |}).

(** The browser runs a timeout that is due. *)
Definition p_fire (t : timer continuation) (s : chunked) : chunked :=
  processNext {| p_chunks := p_chunks s; p_index := p_index s;
                 p_timers := cancel (tid t) (elapse (due t) (p_timers s));
                 p_processed := p_processed s; p_resolved := p_resolved s |}.

(** Time passes until [t]: the timeouts due by then run, the earliest first,
    at most [fuel] of them (a timeout that runs starts another). *)
Fixpoint p_run_due (fuel : nat) (t : nat) (s : chunked) : chunked :=
  match fuel with
  | 0 => s
  | S n =>
      match earliest (queue (p_timers s)) with
      | Some tm => if Nat.leb (due tm) t then p_run_due n t (p_fire tm s) else s
      | None => s
      end
  end.

End ProcessInChunks.

Arguments chunked : clear implicits.

End Performance.

(** * The other methods of ConfigBuilder and of the jscConfig provider *)

Module Builder.
Import Config.

(** The values of [Config] are trees.  A method that changes an object in
    place ([addSeries], [yAxisRange], [xAxisLabel], ...) is modelled on a
    configuration that holds that object in one place only; what it does to
    a second holder of the same object is outside this model. *)

(** [angular.extend(dst, src1, src2, ...)] is [baseExtend(dst, objs, false)]
    of AngularJS (its source is quoted at [Config.baseExtend]): every own
    enumerable property of every source that is an object is assigned to
    [dst], a later one over an earlier one, and [dst] keeps its
    [$$hashKey].  A function has no enumerable property of its own.
    Assigning to [__proto__] creates no property. *)
Definition assign (dst : props_t) (p : key * value) : props_t :=
  if key_eqb (fst p) protoKey then dst else set (fst p) (snd p) dst.

Definition assign_all (dst : props_t) (src : value) : props_t :=
  match src with
  | VObj _ sps => fold_left assign sps dst
  | _ => dst
  end.

Definition shallow (dst : props_t) (srcs : list value) : props_t :=
  setHashKey (fold_left assign_all srcs dst) (get hashKey dst).

(** [this.config.k = v; return this;] *)
Definition assigns (k : key) (v : value) (b : ConfigBuilder) : option ConfigBuilder :=
  c ← put k v (config b); Some {| config := c |}.

(** A method that changes [this.config] in place by [f]. *)
Definition changes (f : value -> option value) (b : ConfigBuilder) : option ConfigBuilder :=
  c ← f (config b); Some {| config := c |}.

(** The values that are no objects: writing a property of one of them
    throws ([undefined] and [null] included). *)
Definition is_primitive (v : value) : bool :=
  match v with VFun _ | VObj _ _ => false | _ => true end.

Definition is_string (v : value) : bool :=
  match v with VStr _ => true | _ => false end.

Definition is_number (v : value) : bool :=
  match v with VNum _ => true | _ => false end.

(** [ConfigBuilder.prototype.type], [xAxis], [yAxis], [series],
    [defaultSeries], [defaultPoint], [palette], [smartPalette], [toolbar],
    [export], [margin], [zoom], [annotations], [mapping], [calendar], [grid],
    [events], [template]: each assigns its argument to one field. *)
Definition type := assigns "type".
Definition xAxis := assigns "xAxis".
Definition yAxis := assigns "yAxis".
Definition series := assigns "series".
Definition defaultSeries := assigns "defaultSeries".
Definition defaultPoint := assigns "defaultPoint".
Definition palette := assigns "palette".
Definition smartPalette := assigns "palette".
Definition toolbar := assigns "toolbar".
Definition export := assigns "export".
Definition margin := assigns "margin".
Definition zoom := assigns "axisToZoom".
Definition annotations := assigns "annotations".
Definition mapping := assigns "mapping".
Definition calendar := assigns "calendar".
Definition grid := assigns "grid".
Definition events := assigns "events".
Definition template := assigns "template".

(** [title(text, options)]:
    [this.config.title = angular.extend({ label: { text: text } }, options)] *)
Definition title (text options : value) : ConfigBuilder -> option ConfigBuilder :=
  assigns "title"
    (VObj false (shallow [(KName "label", object [("text", text)])] [options])).

(** [xAxisLabel(text)], [yAxisLabel(text)]:
<<
  this.config.xAxis = this.config.xAxis || {};
  this.config.xAxis.label = { text: text };
>> *)
Definition axisLabel (axis : key) (text : value) : ConfigBuilder -> option ConfigBuilder :=
  changes (fun c =>
    c1 ← ensure axis c;
    within axis (put "label" (object [("text", text)])) c1).

Definition xAxisLabel := axisLabel "xAxis".
Definition yAxisLabel := axisLabel "yAxis".

(** [xAxisCategories(categories)] *)
Definition xAxisCategories (categories : value) : ConfigBuilder -> option ConfigBuilder :=
  changes (fun c =>
    c1 ← ensure "xAxis" c;
    within "xAxis" (put "categories" categories) c1).

(** [yAxisRange(min, max)]:
<<
  this.config.yAxis = this.config.yAxis || {};
  this.config.yAxis.scale = this.config.yAxis.scale || {};
  if (min !== undefined) this.config.yAxis.scale.min = min;
  if (max !== undefined) this.config.yAxis.scale.max = max;
>> *)
Definition yAxisRange (min max : value) : ConfigBuilder -> option ConfigBuilder :=
  changes (fun c =>
    c1 ← ensure "yAxis" c;
    c2 ← within "yAxis" (ensure "scale") c1;
    c3 ← when (defined min) (within "yAxis" (within "scale" (put "min" min))) c2;
    when (defined max) (within "yAxis" (within "scale" (put "max" max))) c3).

(** [a.length] of an array given by its properties: one more than its
    greatest index. *)
Fixpoint array_length (ps : props_t) : nat :=
  match ps with
  | [] => 0
  | (KIdx i, _) :: rest => Nat.max (S i) (array_length rest)
  | _ :: rest => array_length rest
  end.

(** [a.push(x)].  Only an array has [push]: calling it on any other value
    throws (plain configuration data holds no object with a method [push]
    of its own). *)
Definition push (x : value) (a : value) : option value :=
  match a with
  | VObj true ps => Some (VObj true (set (KIdx (array_length ps)) x ps))
  | _ => None
  end.

(** [v || []] *)
Definition or_empty_array (v : value) : value :=
  if truthy v then v else VObj true [].

(** The object [addSeries] makes of its arguments:
    [angular.extend({ name: name, points: points }, options)] *)
Definition series_entry (name points options : value) : value :=
  VObj false (shallow [(KName "name", name); (KName "points", points)] [options]).

(** [addSeries(name, points, options)]:
<<
  this.config.series = this.config.series || [];
  this.config.series.push(angular.extend({ name: name, points: points }, options));
>> *)
Definition addSeries (name points options : value)
    : ConfigBuilder -> option ConfigBuilder :=
  changes (fun c =>
    c1 ← put "series" (or_empty_array (prop "series" c)) c;
    within "series" (push (series_entry name points options)) c1).

(** [addAnnotation(annotation)] *)
Definition addAnnotation (annotation : value) : ConfigBuilder -> option ConfigBuilder :=
  changes (fun c =>
    c1 ← put "annotations" (or_empty_array (prop "annotations" c)) c;
    within "annotations" (push annotation) c1).

(** [legend(options)], [hideLegend()], [tooltip(options)],
    [animation(options)], [noAnimation()] *)
Definition legend (options : value) : ConfigBuilder -> option ConfigBuilder :=
  assigns "legend"
    (if is_string options then object [("position", options)] else options).

Definition hideLegend : ConfigBuilder -> option ConfigBuilder :=
  assigns "legend" (object [("visible", VBool false)]).

Definition tooltip (options : value) : ConfigBuilder -> option ConfigBuilder :=
  assigns "defaultTooltip"
    (if is_string options then object [("label", object [("text", options)])]
     else options).

Definition animation (options : value) : ConfigBuilder -> option ConfigBuilder :=
  assigns "animation"
    (if is_number options then object [("duration", options)] else options).

Definition noAnimation : ConfigBuilder -> option ConfigBuilder :=
  assigns "animation" (object [("duration", VNum 0)]).

(** [debug(enabled)]: [this.config.debug = enabled !== false] *)
Definition debug (enabled : value) : ConfigBuilder -> option ConfigBuilder :=
  assigns "debug"
    (VBool (negb match enabled with VBool false => true | _ => false end)).

(** [size(width, height)]:
    [if (width) this.config.width = width; if (height) this.config.height = height;] *)
Definition size (width height : value) : ConfigBuilder -> option ConfigBuilder :=
  changes (fun c =>
    c1 ← when (truthy width) (put "width" width) c;
    when (truthy height) (put "height" height) c1).

(** [on(eventName, handler)] and [onPointClick(handler)] *)
Definition on (eventName : key) (handler : value) : ConfigBuilder -> option ConfigBuilder :=
  changes (fun c =>
    c1 ← ensure "events" c;
    within "events" (put eventName handler) c1).

Definition onPointClick (handler : value) : ConfigBuilder -> option ConfigBuilder :=
  changes (fun c =>
    c1 ← ensure "defaultPoint" c;
    c2 ← within "defaultPoint" (ensure "events") c1;
    within "defaultPoint" (within "events" (put "click" handler)) c2).

(** A chain of method calls [b.m1(...).m2(...)...]: an exception ends it. *)
Definition chain (methods : list (ConfigBuilder -> option ConfigBuilder))
    (b : ConfigBuilder) : option ConfigBuilder :=
  fold_left (fun acc m => acc ≫= m) methods (Some b).

(** The arguments of a call of [addSeries], and the call. *)
Definition series_call := (value * value * value)%type.

Definition add (call : series_call) : ConfigBuilder -> option ConfigBuilder :=
  addSeries call.1.1 call.1.2 call.2.

Definition entry_of (call : series_call) : value :=
  series_entry call.1.1 call.1.2 call.2.

(** [reset()] *)
Definition reset (b : ConfigBuilder) : ConfigBuilder := create.


End Builder.

Module Provider.
Import Config Builder.

(** The variables of the provider function. *)
Record settings := {
  defaults : props_t;
  eventDebounceTime : value;
  updateDebounceTime : value
}.

Definition initial : settings :=
  {| defaults := initial_defaults;
     eventDebounceTime := VNum 50; updateDebounceTime := VNum 100 |}.

Definition with_defaults (f : props_t -> props_t) (s : settings) : settings :=
  {| defaults := f (defaults s); eventDebounceTime := eventDebounceTime s;
     updateDebounceTime := updateDebounceTime s |}.

(** [setDefaults(config)]: [angular.merge(defaults, config)] *)
Definition setDefaults (cfg : value) : settings -> settings :=
  with_defaults (fun d => baseExtend d cfg).

(** [setDebug(enabled)]: [defaults.debug = !!enabled] *)
Definition setDebug (enabled : value) : settings -> settings :=
  with_defaults (set "debug" (VBool (truthy enabled))).

(** [setAnimation(animation)]:
    [defaults.animation = angular.extend({}, defaults.animation, animation)] *)
Definition setAnimation (animation : value) : settings -> settings :=
  with_defaults (fun d =>
    set "animation" (VObj false (shallow [] [prop "animation" (VObj false d); animation])) d).

(** [setDefaultTooltip], [setDefaultLegend], [setDefaultToolbar] *)
Definition setDefaultTooltip (v : value) := with_defaults (set "defaultTooltip" v).
Definition setDefaultLegend (v : value) := with_defaults (set "legend" v).
Definition setDefaultToolbar (v : value) := with_defaults (set "toolbar" v).

(** [setEventDebounceTime(ms)], [setUpdateDebounceTime(ms)] *)
Definition setEventDebounceTime (ms : value) (s : settings) : settings :=
  {| defaults := defaults s; eventDebounceTime := ms;
     updateDebounceTime := updateDebounceTime s |}.
Definition setUpdateDebounceTime (ms : value) (s : settings) : settings :=
  {| defaults := defaults s; eventDebounceTime := eventDebounceTime s;
     updateDebounceTime := ms |}.

(** [getDefaults()]: [angular.copy(defaults)] *)
Definition getDefaults (s : settings) : value := copy (VObj false (defaults s)).

End Provider.

(** * The rest of jscChartFactory (unnamed/part_004): the registry *)

Module Registry.
Import Fingerprint Scheduler Lifecycle.

Section Factory.

Variable options_throws : handle -> update -> bool.
Variable destroy_throws : handle -> bool.

(** [jscChartFactory.get(id)]: [entry ? entry.chart : null] *)
Definition get (id : string) (w : world) : option handle :=
  e_chart <$> instances (fac w) !! id.

(** [jscChartFactory.getCount()]: [Object.keys(instances).length] *)
Definition getCount (w : world) : nat := size (instances (fac w)).

(** [jscChartFactory.destroyAll()]:
<<
  Object.keys(instances).forEach(function(id) { self.destroy(id); });
>>
    [ids] is the list [Object.keys(instances)] gave. *)
Definition destroyAll (ids : list string) (w : world) : world :=
  fold_left (fun w id => snd (factory_destroy destroy_throws (ById id) w)) ids w.

(** [ids] is what [Object.keys(instances)] gives in [w]: every identifier of
    the registry, once. *)
Definition enumerates (ids : list string) (w : world) : Prop :=
  NoDup ids /\ forall id, id ∈ ids <-> is_Some (instances (fac w) !! id).

(** [jscChartFactory.update(idOrChart, options, updateOptions)], with its
    result:
<<
  if (typeof idOrChart === 'string') { chart = this.get(idOrChart); }
  else { chart = idOrChart; }
  if (chart && typeof chart.options === 'function') {
    try { chart.options(options, updateOptions); return true; }
    catch (e) { console.warn('Error updating chart:', e); }
  }
  return false;
>> *)
Definition update (t : target) (u : Lifecycle.update) (w : world) : bool * world :=
  let found :=
    match t with
    | ById id => get id w
    | ByChart h => Some h
    | Neither => None
    end in
  match found with
  | Some h =>
      let w' := engine_does (Options h u) w in
      if options_throws h u then (false, logs (Warn "Error updating chart:") w')
      else (true, w')
  | None => (false, w)
  end.

End Factory.

(** A registry with the charts of two other elements, under the identifiers
    of their targets. *)
Definition two_charts : world :=
  with_factory (fun f =>
    {| trackInstances := trackInstances f;
       instances := <["chartA" := {| e_chart := 7; e_id := "chartA"; e_created := 10 |}]>
                      (<["chartB" := {| e_chart := 8; e_id := "chartB"; e_created := 20 |}]> ∅);
       instanceCounter := instanceCounter f;
       angularId := <[7 := "chartA"]> (<[8 := "chartB"]> ∅) |})
    (unlinked sample_scope true).

End Registry.

(** * The calls a chart accepts *)

Module Protocol.
Import Fingerprint Scheduler Lifecycle.

(** What a sequence of calls to the engine has left: the chart that was
    created and not destroyed since, and the charts that were destroyed. *)
Record session := { alive : option handle; dead : list handle }.

Definition start : session := {| alive := None; dead := [] |}.

(** One more call, if the engine can take it: a chart is created when no
    other is alive, under a handle not used before; options are set on the
    chart that is alive; the chart that is alive is destroyed. *)
Definition accept (s : session) (c : engine_call) : option session :=
  match c with
  | Created h _ =>
      if bool_decide (alive s = None) && bool_decide (h ∉ dead s)
      then Some {| alive := Some h; dead := dead s |} else None
  | CreateThrew _ =>
      if bool_decide (alive s = None) then Some s else None
  | Options h _ =>
      if bool_decide (alive s = Some h) then Some s else None
  | Destroyed h =>
      if bool_decide (alive s = Some h)
      then Some {| alive := None; dead := h :: dead s |} else None
  end.

Definition follow (calls : list engine_call) (s : session) : option session :=
  fold_left (fun acc c => acc ≫= fun s => accept s c) calls (Some s).

(** The calls made in [w] are calls the engine could take, they leave the
    chart that the variable [chart] holds, and no handle in use is one that
    is still to be given out. *)
Record traced (w : world) : Prop := {
  tr_follow :
    exists d, follow (engine w) start = Some {| alive := chart (vars w); dead := d |}
              /\ Forall (fun h => h < next_handle w) d;
  tr_chart : forall h, chart (vars w) = Some h -> h < next_handle w
}.

(** The part of a world that [traced] speaks about. *)
Definition trace_core (w : world) := (engine w, chart (vars w), next_handle w).

(** Once the controller is initialised, the caller's [jsc-instance] holds
    the chart. *)
Definition instance_bound (w : world) : Prop :=
  isInitialized (vars w) = true -> chartInstance (sc w) = chart (vars w).

(** The part of a world that [instance_bound] speaks about. *)
Definition bound_core (w : world) :=
  (isInitialized (vars w), chartInstance (sc w), chart (vars w)).

End Protocol.

(** * Properties *)

(** ** The configuration merge *)

Module ConfigFacts.
Import Config.

Lemma key_eqb_spec a b : reflect (a = b) (key_eqb a b).
Proof.
  destruct a as [i|s], b as [j|t]; simpl; try (constructor; congruence).
  - destruct (Nat.eqb_spec i j); constructor; congruence.
  - destruct (String.eqb_spec s t); constructor; congruence.
Qed.

Lemma key_eqb_refl a : key_eqb a a = true.
Proof. destruct (key_eqb_spec a a); congruence. Qed.

Lemma key_eqb_neq a b : a <> b -> key_eqb a b = false.
Proof. destruct (key_eqb_spec a b); congruence. Qed.

(** *** Properties of property lists *)


Lemma get_set_same k v ps : get k (set k v ps) = Some v.
Proof.
  induction ps as [|[k' v'] rest IH]; simpl.
  - now rewrite key_eqb_refl.
  - destruct (key_eqb k k') eqn:E; simpl; rewrite E; auto.
Qed.

Lemma get_set_other k k' v ps : k <> k' -> get k (set k' v ps) = get k ps.
Proof.
  intros Hne. induction ps as [|[k0 v0] rest IH]; simpl.
  - now rewrite (key_eqb_neq _ _ Hne).
  - destruct (key_eqb k' k0) eqn:E; simpl.
    + destruct (key_eqb_spec k' k0); [subst|discriminate].
      now rewrite (key_eqb_neq _ _ Hne).
    + now rewrite IH.
Qed.

Lemma get_remove_other k k' ps : k <> k' -> get k (remove k' ps) = get k ps.
Proof.
  intros Hne. induction ps as [|[k0 v0] rest IH]; simpl; auto.
  destruct (key_eqb k' k0) eqn:E; simpl.
  - destruct (key_eqb_spec k' k0); [subst|discriminate].
    now rewrite (key_eqb_neq _ _ Hne).
  - now rewrite IH.
Qed.

Lemma get_setHashKey_other k ps h :
  k <> hashKey -> get k (setHashKey ps h) = get k ps.
Proof.
  intros Hne. unfold setHashKey.
  destruct h as [hv|]; [destruct (truthy hv)|];
    auto using get_set_other, get_remove_other.
Qed.

Lemma get_None_notin k ps : k ∉ keys ps -> get k ps = None.
Proof.
  induction ps as [|[k' v'] rest IH]; simpl; auto.
  intros [Hne Hn]%not_elem_of_cons. rewrite key_eqb_neq by assumption. auto.
Qed.

Lemma remove_absent k ps : k ∉ keys ps -> remove k ps = ps.
Proof.
  induction ps as [|[k' v'] rest IH]; simpl; auto.
  intros [Hne Hn]%not_elem_of_cons. rewrite key_eqb_neq by assumption.
  f_equal. auto.
Qed.



Lemma baseExtend_obj a sps dst :
  baseExtend dst (VObj a sps) =
  setHashKey (fold_left extend_prop sps dst) (get hashKey dst).
Proof.
  simpl. f_equal. revert dst.
  induction sps as [|[k s] rest IH]; intros dst; simpl; auto.
Qed.

Lemma extend_prop_other dst k s k' :
  k' <> k -> get k' (extend_prop dst (k, s)) = get k' dst.
Proof.
  intros Hne. unfold extend_prop.
  destruct s; destruct (key_eqb k protoKey); auto using get_set_other.
  destruct (get k dst) as [[]|]; auto using get_set_other.
Qed.

Lemma fold_extend_other sps dst k :
  k ∉ keys sps -> get k (fold_left extend_prop sps dst) = get k dst.
Proof.
  revert dst. induction sps as [|[k0 s] rest IH]; intros dst Hn; auto.
  cbn [fold_left]. simpl in Hn. apply not_elem_of_cons in Hn as [Hne Hn].
  rewrite IH by assumption. now apply extend_prop_other.
Qed.

(** A property that the source does not have is left as it is in [dst]. *)
Lemma baseExtend_untouched a sps dst k :
  k <> hashKey -> k ∉ keys sps ->
  get k (baseExtend dst (VObj a sps)) = get k dst.
Proof.
  intros Hh Hn. rewrite baseExtend_obj, get_setHashKey_other by assumption.
  now apply fold_extend_other.
Qed.

Lemma baseExtend_key a sps dst k s :
  k <> hashKey -> k <> protoKey -> NoDup (keys sps) -> get k sps = Some s ->
  get k (baseExtend dst (VObj a sps)) = Some (merged_prop (get k dst) s).
Proof.
  intros Hh Hp Hnd Hget.
  rewrite baseExtend_obj, get_setHashKey_other by assumption.
  clear a Hh. revert dst Hnd Hget.
  induction sps as [|[k0 s0] rest IH]; intros dst Hnd Hget; [discriminate|].
  simpl in Hget, Hnd. cbn [fold_left]. apply NoDup_cons in Hnd as [Hnotin Hnd].
  destruct (key_eqb_spec k k0) as [->|Hne].
  - injection Hget as ->.
    rewrite fold_extend_other by assumption.
    unfold extend_prop, merged_prop. rewrite (key_eqb_neq _ _ Hp).
    destruct s; try apply get_set_same.
    destruct (get k0 dst) as [[]|]; apply get_set_same.
  - rewrite IH by assumption.
    now rewrite extend_prop_other by assumption.
Qed.

(** *** Merging an array into an array *)



Lemma set_index_from_end m pre v :
  set (KIdx (m + length pre)) v (index_from m pre) = index_from m (pre ++ [v]).
Proof.
  revert m. induction pre as [|p pre IH]; intros m; simpl.
  - now rewrite Nat.add_0_r.
  - replace (m + S (length pre)) with (S m + length pre) by lia.
    destruct (Nat.eqb_spec (S m + length pre) m); [lia|].
    now rewrite IH.
Qed.

Lemma index_from_app m l1 l2 :
  index_from m (l1 ++ l2) = index_from m l1 ++ index_from (m + length l1) l2.
Proof.
  revert m. induction l1 as [|x l1 IH]; intros m; simpl.
  - now rewrite Nat.add_0_r.
  - rewrite IH. do 3 f_equal. lia.
Qed.





Lemma copy_obj a ps :
  copy (VObj a ps) = VObj a (remove hashKey (map (fun p => (fst p, copy (snd p))) ps)).
Proof.
  simpl. do 2 f_equal. induction ps as [|[k x] rest IH]; simpl; auto.
  now rewrite IH.
Qed.


(** A small run: the scenario P5 of the specification. *)
Example merge_P5 :
  merge (object [("a", VNum 1); ("b", object [("x", VNum 1)])])
        (object [("b", object [("x", VNum 2); ("y", VNum 3)])])
  = Some (object [("a", VNum 1); ("b", object [("x", VNum 2); ("y", VNum 3)])]).
Proof. reflexivity. Qed.

Lemma get_map_copy k ps :
  get k (map (fun p => (fst p, copy (snd p))) ps) = copy <$> get k ps.
Proof.
  induction ps as [|[k' x] rest IH]; simpl; auto.
  destruct (key_eqb k k'); auto.
Qed.

#[local] Arguments baseExtend : simpl never.





End ConfigFacts.

(** ** The chart type of the specialised directives *)

Module DirectiveFacts.
Import Config DirectiveSamples.

Lemma typed_put t k x c c' :
  k <> KName "type" -> typed t c -> put k x c = Some c' -> typed t c'.
Proof.
  intros Hk [Hobj Ht] Hput. destruct c; try discriminate.
  injection Hput as <-. split; [reflexivity|].
  simpl in *. rewrite ConfigFacts.get_set_other; auto.
Qed.

Lemma put_type t c c' : put "type" (VStr t) c = Some c' -> typed t c'.
Proof.
  destruct c; try discriminate. intros [= <-]. split; [reflexivity|].
  simpl. now rewrite ConfigFacts.get_set_same.
Qed.

Lemma keeps_put k x : k <> KName "type" -> keeps_type (put k x).
Proof. intros Hk t c c'. now apply typed_put. Qed.

Lemma keeps_ensure k : k <> KName "type" -> keeps_type (ensure k).
Proof. intros Hk t c c'. unfold ensure. now apply typed_put. Qed.

(** Whatever is done inside the child [c.k], for [k] other than [type]. *)
Lemma keeps_within k f : k <> KName "type" -> keeps_type (within k f).
Proof.
  intros Hk t c c' Hc H. unfold within in H.
  apply bind_Some in H as (x & _ & H). eapply typed_put; eauto.
Qed.

Lemma keeps_when b f : keeps_type f -> keeps_type (when b f).
Proof.
  intros Hf t c c' Hc H. unfold when in H.
  destruct b; [eauto|]. now injection H as <-.
Qed.

Lemma keeps_bind f g :
  keeps_type f -> keeps_type g -> keeps_type (fun c => x ← f c; g x).
Proof.
  intros Hf Hg t c c' Hc H. apply bind_Some in H as (x & Hx & H). eauto.
Qed.

Create HintDb keeps discriminated.
#[local] Hint Resolve keeps_put keeps_ensure keeps_within keeps_when keeps_bind : keeps.
#[local] Hint Extern 1 (_ <> KName "type") => discriminate : keeps.

Lemma keeps_set_title title : keeps_type (set_title title).
Proof. unfold set_title. auto 10 with keeps. Qed.

Lemma keeps_wirePointEvents a b c : keeps_type (wirePointEvents a b c).
Proof. unfold wirePointEvents. auto 20 with keeps. Qed.

#[local] Hint Resolve keeps_set_title keeps_wirePointEvents : keeps.

(** A chain of steps after [config.type = t]. *)
Lemma typed_after t (f : value -> option value) c c' :
  keeps_type f -> (x ← put "type" (VStr t) c; f x) = Some c' -> typed t c'.
Proof.
  intros Hf H. apply bind_Some in H as (x & Hx & H).
  eapply Hf; eauto using put_type.
Qed.

Lemma keeps_if (b : bool) f g :
  keeps_type f -> keeps_type g -> keeps_type (fun c => if b then f c else g c).
Proof. intros Hf Hg t c c' Hc H. destruct b; eauto. Qed.

Ltac keeps_chain :=
  repeat first [ simple apply keeps_within | simple apply keeps_when
               | simple apply keeps_put | simple apply keeps_ensure
               | simple apply keeps_set_title
               | simple apply keeps_wirePointEvents
               | simple apply keeps_bind | simple apply keeps_if
               | discriminate ].

Lemma gantt_type sc c : Gantt.buildConfig sc = Some c -> typed "gantt" c.
Proof.
  unfold Gantt.buildConfig, Gantt.wireEvents. intros H.
  eapply typed_after; [|exact H]. keeps_chain.
Qed.

Lemma org_chart_type sc c :
  OrgChart.buildConfig sc = Some c -> typed (OrgChart.chart_type sc) c.
Proof.
  unfold OrgChart.buildConfig, OrgChart.wireEvents. intros H.
  eapply typed_after; [|exact H]. keeps_chain.
Qed.

Lemma calendar_type sc c :
  Calendar.buildConfig sc = Some c -> typed (Calendar.chart_type sc) c.
Proof.
  unfold Calendar.buildConfig, Calendar.wireEvents. intros H.
  eapply typed_after; [|exact H]. keeps_chain.
Qed.

Lemma map_type sc c : MapChart.buildConfig sc = Some c -> typed "map" c.
Proof.
  unfold MapChart.buildConfig, MapChart.wireEvents. intros H.
  eapply typed_after; [|exact H]. keeps_chain.
Qed.


Example gantt_run :
  Gantt.buildConfig gantt_scope =
  Some (VObj false
    [(KName "type", VStr "gantt");
     (KName "xAxis", object [("scale", VStr "time"); ("type", VStr "pie")]);
     (KName "series", array [object [("name", VStr "Tasks")]]);
     (KName "title", object [("label", object [("text", VStr "Plan")])]);
     (KName "yAxis", object []);
     (KName "defaultPoint",
        object [("connectorLine", object [("visible", VBool true)]);
                ("events", object [("click", VFun "onPointClick")])]);
     (KName "events", object [("zoomed", VFun "onZoomed")])]).
Proof. reflexivity. Qed.

(** Options that are a number: [config.type = 'gantt'] throws. *)
Example gantt_throws :
  Gantt.buildConfig
    {| Gantt.series := VUndefined; Gantt.options := VNum 5;
       Gantt.showDependencies := VUndefined; Gantt.criticalPath := VUndefined;
       Gantt.palette := VUndefined; Gantt.title := VUndefined;
       Gantt.debug := VUndefined; Gantt.dateFormat := VUndefined;
       Gantt.xAxisConfig := VUndefined; Gantt.yAxisConfig := VUndefined;
       Gantt.onLoad := false; Gantt.onPointClick := false;
       Gantt.onPointMouseOver := false; Gantt.onPointMouseOut := false;
       Gantt.onZoomed := false |} = None.
Proof. reflexivity. Qed.

(** C10.  Every configuration that the [buildConfig] of a specialised
    directive returns has [type] equal to the directive's own chart type:
    ['gantt'] for jsc-gantt, ['organizational'] or ['organizational
    horizontal'] for jsc-org-chart, ['calendar'] or ['calendar horizontal']
    for jsc-calendar, ['map'] for jsc-map, whatever [type] the caller's
    options hold.  [buildConfig] is the function both the initial creation
    and every rebuilt configuration go through. *)
Theorem specialised_type_is_forced :
  (forall sc c, Gantt.buildConfig sc = Some c -> prop "type" c = VStr "gantt")
  /\ (forall sc c, OrgChart.buildConfig sc = Some c ->
        prop "type" c =
        VStr (if OrgChart.horizontal (OrgChart.orientation sc)
              then "organizational horizontal" else "organizational"))
  /\ (forall sc c, Calendar.buildConfig sc = Some c ->
        prop "type" c =
        VStr (if OrgChart.horizontal (Calendar.orientation sc)
              then "calendar horizontal" else "calendar"))
  /\ (forall sc c, MapChart.buildConfig sc = Some c -> prop "type" c = VStr "map").
Proof.
  repeat split; intros sc c H.
  - now apply gantt_type in H as [_ H].
  - apply org_chart_type in H as [_ H]. rewrite H. unfold OrgChart.chart_type.
    now destruct (OrgChart.horizontal _).
  - apply calendar_type in H as [_ H]. rewrite H. unfold Calendar.chart_type.
    now destruct (OrgChart.horizontal _).
  - now apply map_type in H as [_ H].
Qed.

(** The theorem at the four scopes above, whose options ask for a pie. *)
Lemma specialised_type_is_forced_witness :
  (exists c, Gantt.buildConfig gantt_scope = Some c /\ prop "type" c = VStr "gantt")
  /\ (exists c, OrgChart.buildConfig org_scope = Some c
                /\ prop "type" c = VStr "organizational horizontal")
  /\ (exists c, Calendar.buildConfig calendar_scope = Some c
                /\ prop "type" c = VStr "calendar")
  /\ (exists c, MapChart.buildConfig map_scope = Some c /\ prop "type" c = VStr "map").
Proof.
  destruct specialised_type_is_forced as (Hg & Ho & Hc & Hm).
  repeat split; eexists; (split; [reflexivity|]).
  - exact (Hg gantt_scope _ eq_refl).
  - exact (Ho org_scope _ eq_refl).
  - exact (Hc calendar_scope _ eq_refl).
  - exact (Hm map_scope _ eq_refl).
Defined.

End DirectiveFacts.

(** ** Fingerprints *)

Module FingerprintFacts.
Import Fingerprint.


Example hash_object :
  computeHash (JObject 1 [("a", JNum 1); ("f", JFun 3 "return 1");
                          ("b", JArray 2 [JStr "x"; JUndefined; JBool true])])
  = JStr ("{" +:+ quote "a" +:+ ":1," +:+ quote "b" +:+ ":[" +:+ quote "x"
          +:+ ",null,true]}").
Proof. reflexivity. Qed.

Example hash_number : computeHash (JNum (-42)) = JStr "-42".
Proof. reflexivity. Qed.



Lemma to_string_array a es :
  to_string (JArray a es) = join (map element_text es).
Proof.
  reflexivity.
Qed.

#[local] Arguments stringify : simpl never.
#[local] Arguments to_string : simpl never.

(** *** No fingerprint but that of the text ['null'] is ['null'] *)








(** *** Values that [JSON.stringify] cannot serialise *)







End FingerprintFacts.

(** ** Debouncing *)

Module SchedulerFacts.
Import Scheduler.

Section Coalescing.

Context {A : Type}.
Variable wait : nat.
Variable immediate : bool.

#[local] Abbreviation armed := (@Scheduler.armed A wait).

Lemma first_call_armed t a :
  armed (if immediate then [a] else []) t a (call_at wait immediate fresh (t, a)).
Proof.
  unfold call_at, advance, call. simpl. split.
  - now destruct immediate.
  - eexists. repeat split; simpl; try lia; try (f_equal; lia).
Qed.

Lemma next_call_armed done t a t' a' d :
  armed done t a d -> t <= t' -> t' < t + wait ->
  armed done t' a' (call_at wait immediate d (t', a')).
Proof.
  intros (Hinv & id & Hvar & Hq & Hnow) Hle Hlt.
  unfold call_at, advance. simpl. rewrite Hq. simpl. rewrite Hq. simpl.
  destruct (Nat.leb_spec (t + wait) t') as [Hdue|_]; [lia|].
  unfold armed, call. simpl. rewrite Hvar. simpl. rewrite Hq, Hnow. simpl.
  rewrite Nat.eqb_refl. simpl. split.
  - rewrite andb_false_r. exact Hinv.
  - eexists. repeat split; simpl; try lia; try (repeat f_equal; lia).
Qed.

Lemma burst_armed calls : forall done t a d,
  armed done t a d -> burst wait ((t, a) :: calls) ->
  armed done (fst (List.last calls (t, a))) (snd (List.last calls (t, a)))
        (fold_left (call_at wait immediate) calls d).
Proof.
  induction calls as [|[t' a'] rest IH]; intros done t a d Harmed Hburst.
  - exact Harmed.
  - destruct Hburst as [[Hle Hlt] Hrest]. simpl in Hle, Hlt.
    cbn [fold_left].
    replace (List.last ((t', a') :: rest) (t, a)) with (List.last rest (t', a'))
      by (clear; revert t' a'; induction rest as [|c rest IHr]; intros; simpl; auto;
          destruct rest; auto).
    apply IH; [|exact Hrest].
    eapply next_call_armed; eauto.
Qed.

Lemma armed_fires done t a d finish :
  armed done t a d -> t + wait <= finish ->
  invoked (advance immediate finish d) = (if immediate then done else done ++ [a])
  /\ queue (timers (advance immediate finish d)) = [].
Proof.
  intros (Hinv & id & Hvar & Hq & Hnow) Hdue.
  unfold advance. rewrite Hq. simpl. rewrite Hq. simpl.
  destruct (Nat.leb_spec (t + wait) finish) as [_|Hlt]; [|lia].
  unfold fire, later. simpl. rewrite Hq. simpl. rewrite Nat.eqb_refl. simpl.
  rewrite Hinv. now destruct immediate.
Qed.




End Coalescing.

Example burst_of_three :
  invoked (run 100 false [(0, "a"); (40, "b"); (90, "c")] 190) = ["c"]
  /\ invoked (run 100 false [(0, "a"); (40, "b"); (90, "c")] 189) = []
  /\ invoked (run 100 false [(0, "a"); (100, "b")] 200) = ["a"; "b"].
Proof. repeat split. Qed.

End SchedulerFacts.

(** ** The lifecycle controller *)

Module LifecycleFacts.
Import Fingerprint Scheduler Lifecycle.

Section Controller.

Variable updateDebounceTime : nat.
Variable options_throws : handle -> update -> bool.
Variable destroy_throws : handle -> bool.
(** The value of [scope.chartInstance] when the directive is linked. *)
Variable i0 : option handle.

#[local] Abbreviation step := (Lifecycle.step updateDebounceTime options_throws destroy_throws).
#[local] Abbreviation run := (Lifecycle.run updateDebounceTime options_throws destroy_throws).
#[local] Abbreviation reachable := (Lifecycle.reachable updateDebounceTime options_throws destroy_throws).
#[local] Abbreviation destroy := (Lifecycle.destroy destroy_throws).
#[local] Abbreviation factory_destroy := (Lifecycle.factory_destroy destroy_throws).
#[local] Abbreviation updateChart := (Lifecycle.updateChart options_throws).
#[local] Abbreviation ready := (Lifecycle.ready options_throws).
#[local] Abbreviation perform := (Lifecycle.perform options_throws).
#[local] Abbreviation scheduleUpdate := (Lifecycle.scheduleUpdate updateDebounceTime).
#[local] Abbreviation watch_options := (Lifecycle.watch_options updateDebounceTime).
#[local] Abbreviation watch_series := (Lifecycle.watch_series updateDebounceTime).
#[local] Abbreviation watch_type := (Lifecycle.watch_type destroy_throws).
#[local] Abbreviation watch_palette := (Lifecycle.watch_palette options_throws).
#[local] Abbreviation watch_muted := (Lifecycle.watch_muted options_throws).

(** *** What each operation leaves alone *)

Lemma factory_destroy_frame t w :
  let w' := snd (factory_destroy t w) in
  vars w' = vars w /\ sc w' = sc w /\ timers w' = timers w /\
  loading w' = loading w /\ awaiting w' = awaiting w /\
  element w' = element w /\ notified w' = notified w.
Proof using Type.
  unfold Lifecycle.factory_destroy.
  destruct t as [id|h|]; simpl.
  - destruct (instances (fac w) !! id); simpl; [|repeat split].
    destruct (destroy_throws _); simpl;
      destruct (negb (id =? "")%string && _); simpl; repeat split.
  - destruct (angularId (fac w) !! h) as [i|]; simpl;
      destruct (destroy_throws h); simpl; try (repeat split; fail);
      destruct (negb (i =? "")%string && _); simpl; repeat split.
  - repeat split.
Qed.

Lemma factory_destroy_chart h w :
  engine (snd (factory_destroy (ByChart h) w)) = engine w ++ [Destroyed h].
Proof.
  unfold Lifecycle.factory_destroy. simpl.
  destruct (angularId (fac w) !! h) as [i|]; simpl;
    destruct (destroy_throws h); simpl; try reflexivity;
    destruct (negb (i =? "")%string && _); reflexivity.
Qed.

#[local] Opaque Lifecycle.factory_destroy.

Lemma createSync_frame cfg available throws w :
  let w' := snd (createSync cfg available throws w) in
  vars w' = vars w /\ sc w' = sc w /\ timers w' = timers w /\
  loading w' = loading w /\ fac w' = fac w /\ notified w' = notified w.
Proof using Type.
  unfold createSync. destruct available, throws; simpl; repeat split.
Qed.

Lemma createSync_handle cfg available throws w :
  fst (createSync cfg available throws w) =
  if available && negb throws then Some (next_handle w) else None.
Proof. unfold createSync. now destruct available, throws. Qed.

(** *** The lifecycle invariant *)

Lemma consistent_core w w' : core w' = core w -> consistent i0 w -> consistent i0 w'.
Proof.
  unfold core. intros [= Hc Hi Hp Hg Hs Hl] [Hready Hload Hinst].
  constructor; rewrite ?Hc, ?Hi, ?Hp, ?Hg, ?Hs, ?Hl; assumption.
Qed.

Lemma consistent_loading_empty w :
  consistent i0 w -> initializationInProgress (vars w) = false -> loading w = [].
Proof.
  intros [_ Hload _] Hg. destruct (loading w) as [|c rest] eqn:E; auto.
  destruct Hload as (_ & _ & Hin & _); [discriminate|congruence].
Qed.

Lemma consistent_unlinked s t :
  chartInstance s = i0 -> consistent i0 (unlinked s t).
Proof.
  intros Hs. constructor; simpl; [discriminate | intros E; now destruct E | auto].
Qed.

Lemma consistent_initChart w :
  consistent i0 w -> isInitialized (vars w) = false -> chart (vars w) = None ->
  consistent i0 (initChart w).
Proof.
  intros Hw Hi Hc. unfold initChart.
  destruct (initializationInProgress (vars w)) eqn:Hg; [assumption|].
  pose proof (consistent_loading_empty w Hw Hg) as Hl.
  destruct Hw as [Hready Hload Hinst].
  constructor; simpl; rewrite ?Hl; simpl; auto.
Qed.

Lemma consistent_updateChart u w : consistent i0 w -> consistent i0 (updateChart u w).
Proof.
  intros Hw. unfold Lifecycle.updateChart.
  destruct (chart (vars w)) as [h|] eqn:Hc.
  - apply (consistent_core w); [|exact Hw]. unfold core.
    destruct (options_throws h u); reflexivity.
  - destruct Hw as [Hready Hload Hinst]. constructor; simpl; auto.
    intros Hi. apply Hready in Hi as [[h Hh] _]. congruence.
Qed.

Lemma consistent_ready h w : consistent i0 w -> consistent i0 (ready h w).
Proof.
  intros Hw. unfold Lifecycle.ready.
  destruct (bool_decide _) eqn:Hd; [|assumption].
  apply bool_decide_eq_true in Hd.
  assert (Hl : loading w = []).
  { destruct (loading w) eqn:E; auto.
    destruct (loading_guard w Hw) as (_ & Hc & _); [rewrite E; discriminate|congruence]. }
  simpl.
  assert (Hbase : forall w4, core w4 =
            (Some h, true, pendingUpdate (vars w), false, Some h, []) ->
            consistent i0 (match pendingUpdate (vars w4) with
                        | Some u => with_vars (set_pendingUpdate None) (updateChart u w4)
                        | None => w4
                        end)).
  { intros w4 [= Hc4 Hi4 Hp4 Hg4 Hs4 Hl4].
    destruct (pendingUpdate (vars w4)) as [u|] eqn:Hp.
    - unfold Lifecycle.updateChart. rewrite Hc4.
      constructor; destruct (options_throws h u); simpl;
        rewrite ?Hc4, ?Hl4, ?Hs4; eauto; congruence.
    - constructor; rewrite ?Hc4, ?Hl4, ?Hs4, ?Hp; eauto; congruence. }
  destruct (onLoad (sc w)); apply Hbase; unfold core; simpl;
    rewrite Hd, Hl; reflexivity.
Qed.

Lemma consistent_destroy w : consistent i0 w -> consistent i0 (destroy w).
Proof.
  intros [Hready Hload Hinst]. unfold Lifecycle.destroy. simpl.
  destruct (chart (vars w)) as [h|] eqn:Hc; simpl.
  - destruct (factory_destroy_frame (ByChart h)
                (with_timers (cancel_if (debounceTimeout (vars w))) w))
      as (Hv & Hs & _ & Hl & _).
    simpl in Hv, Hs, Hl.
    constructor; simpl; rewrite ?Hv, ?Hl; try discriminate; auto.
    intros Hne. apply Hload in Hne as (_ & Hne & _). congruence.
  - constructor; simpl; rewrite ?Hc; try discriminate; auto.
    intros Hne. apply Hload in Hne. tauto.
Qed.

Lemma consistent_watch_type newVal oldVal w :
  consistent i0 w -> consistent i0 (watch_type newVal oldVal w).
Proof.
  intros Hw. unfold Lifecycle.watch_type.
  destruct (negb (strict_eq newVal oldVal) && isInitialized (vars w)
            && negb (initializationInProgress (vars w))) eqn:Hcond; [|assumption].
  apply andb_prop in Hcond as [Hcond Hg]. apply andb_prop in Hcond as [_ Hi].
  apply negb_true_iff in Hg.
  pose proof (consistent_loading_empty w Hw Hg) as Hl.
  destruct (ready_has_chart w Hw Hi) as [[h Hc] Hp]. rewrite Hc.
  destruct (factory_destroy_frame (ByChart h) w) as (Hv & Hs & _ & Hl' & _).
  apply consistent_initChart; simpl; auto.
  constructor; simpl; rewrite ?Hv, ?Hl', ?Hl;
    [discriminate | intros E; now destruct E | auto].
Qed.

Ltac same_core Hw :=
  match type of Hw with
  | consistent _ ?w0 => apply (consistent_core w0); [|exact Hw]
  end;
  unfold core; simpl;
  repeat match goal with
         | |- context [match ?x with _ => _ end] => destruct x eqn:?; simpl
         end; congruence.

Lemma consistent_perform t w : consistent i0 w -> consistent i0 (perform t w).
Proof.
  intros Hw. destruct t as [|v|h|h|cb e this|name c ty e]; simpl.
  - now apply consistent_updateChart.
  - unfold apply_series, direct_options. same_core Hw.
  - unfold track, defer. same_core Hw.
  - now apply consistent_ready.
  - unfold notify. same_core Hw.
  - unfold deliver. same_core Hw.
Qed.

Lemma consistent_step w ev : consistent i0 w -> consistent i0 (step w ev).
Proof.
  intros Hw. destruct ev as [available throws| |h|promise|ms|v|v|v|v|v| |cb e this|name c ty e];
    cbn [Lifecycle.step].
  - (* the modules are loaded *)
    destruct (loading w) as [|config rest] eqn:Hl; [assumption|].
    destruct (loading_guard w Hw) as (Hi & Hc & Hg & Hlen); [rewrite Hl; discriminate|].
    rewrite Hl in Hlen. destruct rest; [|discriminate].
    pose proof (no_chart_no_instance w Hw Hc) as Hinst.
    unfold loaded. simpl. destruct (element w); simpl.
    + destruct (createSync config available throws _) as [c w'] eqn:Hcs.
      pose proof (createSync_frame config available throws
                    (with_loading (fun _ => []) w)) as Hf.
      rewrite Hcs in Hf. simpl in Hf. destruct Hf as (Hv & Hs & _ & Hl' & _).
      constructor; simpl; rewrite ?Hv, ?Hs, ?Hl'; try congruence.
    + constructor; simpl; try congruence; intros E; now rewrite Hi in E.
  - (* loading failed *)
    destruct (loading w) as [|config rest] eqn:Hl; [assumption|].
    destruct (loading_guard w Hw) as (Hi & Hc & Hg & Hlen); [rewrite Hl; discriminate|].
    rewrite Hl in Hlen. destruct rest; [|discriminate].
    pose proof (no_chart_no_instance w Hw Hc) as Hinst.
    unfold load_failed. constructor; simpl; try congruence;
      intros E; now rewrite Hi in E.
  - destruct (bool_decide _); [|assumption]. unfold defer. same_core Hw.
  - destruct (pending promise (timers w)) as [t|]; [|assumption].
    destruct (due t <=? now (timers w))%nat; [|assumption].
    apply consistent_perform. same_core Hw.
  - same_core Hw.
  - unfold Lifecycle.watch_options, Lifecycle.scheduleUpdate, defer. same_core Hw.
  - unfold Lifecycle.watch_series, defer. same_core Hw.
  - apply consistent_watch_type. same_core Hw.
  - unfold Lifecycle.watch_palette, direct_options. same_core Hw.
  - unfold Lifecycle.watch_muted, direct_options. same_core Hw.
  - now apply consistent_destroy.
  - destruct (bound (sc w) cb && configured w); [|assumption].
    unfold handler, defer. same_core Hw.
  - unfold wrapped, defer. same_core Hw.
Qed.

(** In every state the controller reaches: when it is initialised it has a
    chart and no pending update; while modules load it has no chart, is not
    initialised and guards against a second [initChart]. *)
Lemma reachable_consistent s t w :
  chartInstance s = i0 -> reachable s t w -> consistent i0 w.
Proof.
  intros Hs. induction 1 as [|w ev _ IH].
  - apply consistent_initChart; auto using consistent_unlinked.
  - now apply consistent_step.
Qed.

(** *** The invariant of the pending timeouts *)

Lemma service_ok_timeout d sv fn delay :
  service_ok d sv -> is_update fn = false ->
  service_ok d (snd (timeout fn delay sv)).
Proof.
  intros [Hfresh Hdist Hdeb Hupd] Hfn. constructor; simpl.
  - apply Forall_app. split.
    + eapply Forall_impl; [exact Hfresh|]. simpl. intros; lia.
    + constructor; [simpl; lia | constructor].
  - rewrite map_app. simpl. apply NoDup_app. split; [assumption|]. split.
    + intros x Hx Hx2. apply elem_of_cons in Hx2 as [->|Hx2]; [|inversion Hx2].
      apply list_elem_of_fmap in Hx as (tm & Heq & Htm).
      rewrite Forall_forall in Hfresh. specialize (Hfresh tm Htm).
      simpl in Heq. lia.
    + apply NoDup_singleton.
  - intros id Hid. specialize (Hdeb id Hid). lia.
  - apply Forall_app. split; [assumption|].
    constructor; [simpl; congruence | constructor].
Qed.

Lemma service_ok_cancel d sv id : service_ok d sv -> service_ok d (cancel id sv).
Proof.
  intros [Hfresh Hdist Hdeb Hupd]. constructor; simpl; auto.
  - rewrite Forall_forall in *.
    intros tm [Htm _]%list_elem_of_In%filter_In. apply list_elem_of_In in Htm. auto.
  - clear -Hdist. induction (queue sv) as [|tm q IH]; simpl; auto.
    simpl in Hdist. apply NoDup_cons in Hdist as [Hnotin Hdist].
    destruct (negb (Nat.eqb (tid tm) id)); simpl; auto.
    apply NoDup_cons. split; auto.
    intros Hin. apply Hnotin.
    apply list_elem_of_fmap in Hin as (tm' & -> & Htm').
    apply list_elem_of_fmap. exists tm'. split; auto.
    apply list_elem_of_In in Htm'. apply filter_In in Htm' as [Htm' _].
    now apply list_elem_of_In.
  - rewrite Forall_forall in *.
    intros tm [Htm _]%list_elem_of_In%filter_In. apply list_elem_of_In in Htm. auto.
Qed.

Lemma service_ok_elapse d sv t : service_ok d sv -> service_ok d (elapse t sv).
Proof. intros [Hfresh Hdist Hdeb Hupd]. now constructor. Qed.

(** Cancelling what [debounceTimeout] holds leaves no pending update; the
    timeout started next is the only one. *)
Lemma service_ok_debounce d sv fn delay :
  service_ok d sv ->
  service_ok (Some (fst (timeout fn delay (cancel_if d sv))))
             (snd (timeout fn delay (cancel_if d sv)))
  /\ Forall (fun tm => is_update (run_fn tm) = false) (queue (cancel_if d sv)).
Proof.
  intros Hok.
  assert (Hnone : Forall (fun tm => is_update (run_fn tm) = false)
                         (queue (cancel_if d sv))).
  { destruct Hok as [_ _ _ Hupd]. rewrite Forall_forall in *.
    destruct d as [id|]; simpl.
    - intros tm [Htm Hne]%list_elem_of_In%filter_In.
      apply list_elem_of_In in Htm. specialize (Hupd tm Htm).
      destruct (is_update (run_fn tm)); auto.
      specialize (Hupd eq_refl). injection Hupd as ->.
      now rewrite Nat.eqb_refl in Hne.
    - intros tm Htm. specialize (Hupd tm Htm).
      destruct (is_update (run_fn tm)); auto. now specialize (Hupd eq_refl). }
  split; [|exact Hnone].
  assert (Hok' : service_ok d (cancel_if d sv)).
  { destruct d; simpl; auto using service_ok_cancel. }
  destruct Hok' as [Hfresh Hdist Hdeb Hupd]. constructor; simpl.
  - apply Forall_app. split.
    + eapply Forall_impl; [exact Hfresh|]. simpl. intros; lia.
    + constructor; [simpl; lia | constructor].
  - rewrite map_app. simpl. apply NoDup_app. split; [assumption|]. split.
    + intros x Hx Hx2. apply elem_of_cons in Hx2 as [->|Hx2]; [|inversion Hx2].
      apply list_elem_of_fmap in Hx as (tm & Heq & Htm).
      rewrite Forall_forall in Hfresh. specialize (Hfresh tm Htm).
      simpl in Heq. lia.
    + apply NoDup_singleton.
  - intros id [= <-]. lia.
  - apply Forall_app. split.
    + eapply Forall_impl; [exact Hnone|]. simpl. intros tm E1 E2. congruence.
    + constructor; [reflexivity | constructor].
Qed.

Lemma timers_consistent_core w w' :
  timer_core w' = timer_core w -> timers_consistent w -> timers_consistent w'.
Proof.
  unfold timer_core, timers_consistent. intros [= -> ->]. auto.
Qed.

Ltac same_timers Hw :=
  match type of Hw with
  | timers_consistent ?w0 => apply (timers_consistent_core w0); [|exact Hw]
  end;
  unfold timer_core; simpl;
  repeat match goal with
         | |- context [match ?x with _ => _ end] => destruct x eqn:?; simpl
         end; congruence.

Lemma timers_consistent_defer fn delay w :
  timers_consistent w -> is_update fn = false ->
  timers_consistent (snd (defer fn delay w)).
Proof.
  unfold timers_consistent, defer. simpl. intros Hw Hfn.
  now apply service_ok_timeout.
Qed.

Lemma timers_consistent_cancel id w :
  timers_consistent w -> timers_consistent (with_timers (cancel id) w).
Proof. unfold timers_consistent. simpl. apply service_ok_cancel. Qed.

Lemma timers_consistent_debounce fn w :
  timers_consistent w ->
  timers_consistent
    (let w1 := with_timers (cancel_if (debounceTimeout (vars w))) w in
     let (promise, w2) := defer fn updateDebounceTime w1 in
     with_vars (set_debounceTimeout (Some promise)) w2).
Proof.
  unfold timers_consistent, defer. simpl. intros Hw.
  now apply service_ok_debounce.
Qed.

Lemma timers_consistent_updateChart u w :
  timers_consistent w -> timers_consistent (updateChart u w).
Proof. intros Hw. unfold Lifecycle.updateChart. same_timers Hw. Qed.

Lemma timers_consistent_ready h w :
  timers_consistent w -> timers_consistent (ready h w).
Proof.
  intros Hw. unfold Lifecycle.ready, Lifecycle.updateChart. same_timers Hw.
Qed.

Lemma timers_consistent_perform t w :
  timers_consistent w -> timers_consistent (perform t w).
Proof.
  intros Hw. destruct t as [|v|h|h|cb e this|name c ty e]; simpl.
  - now apply timers_consistent_updateChart.
  - unfold apply_series, direct_options. same_timers Hw.
  - apply timers_consistent_defer; [|reflexivity]. unfold track. same_timers Hw.
  - now apply timers_consistent_ready.
  - unfold notify. same_timers Hw.
  - unfold deliver. same_timers Hw.
Qed.

Lemma timers_consistent_step w ev :
  timers_consistent w -> timers_consistent (step w ev).
Proof.
  intros Hw. destruct ev as [available throws| |h|promise|ms|v|v|v|v|v| |cb e this|name c ty e];
    cbn [Lifecycle.step].
  - destruct (loading w) as [|config rest]; [assumption|].
    unfold loaded. simpl. destruct (element w); simpl; [|same_timers Hw].
    destruct (createSync_frame config available throws
                (with_loading (fun _ => rest) w)) as (Hv & _ & Ht & _).
    destruct (createSync config available throws _) as [c w'].
    simpl in Hv, Ht. apply (timers_consistent_core w); [|exact Hw].
    unfold timer_core. simpl. now rewrite Hv, Ht.
  - destruct (loading w) as [|config rest]; [assumption|].
    unfold load_failed. same_timers Hw.
  - destruct (bool_decide _); [|assumption].
    apply timers_consistent_defer; [|reflexivity]. same_timers Hw.
  - destruct (pending promise (timers w)) as [t|]; [|assumption].
    destruct (due t <=? now (timers w))%nat; [|assumption].
    now apply timers_consistent_perform, timers_consistent_cancel.
  - unfold timers_consistent. simpl. now apply service_ok_elapse.
  - unfold Lifecycle.watch_options. simpl.
    destruct (isInitialized (vars w)); simpl; [|same_timers Hw].
    destruct (strict_eq _ _); simpl; [same_timers Hw|].
    apply (timers_consistent_debounce ApplyUpdate
             (with_vars (set_lastOptionsHash (computeHash v))
                (with_scope (set_options v) w))).
    same_timers Hw.
  - unfold Lifecycle.watch_series. simpl.
    destruct (negb (isInitialized (vars w)) || _); simpl; [same_timers Hw|].
    destruct (strict_eq _ _); simpl; [same_timers Hw|].
    apply (timers_consistent_debounce (ApplySeries v)
             (with_vars (set_lastSeriesHash (computeHash v))
                (with_scope (set_series v) w))).
    same_timers Hw.
  - unfold Lifecycle.watch_type. simpl.
    destruct (negb _ && _ && _); [|same_timers Hw].
    destruct (chart (vars w)) as [h|].
    + destruct (factory_destroy_frame (ByChart h) (with_scope (set_type v) w))
        as (Hv & _ & Ht & _). simpl in Hv, Ht.
      apply (timers_consistent_core w); [|exact Hw].
      unfold timer_core, initChart. simpl.
      destruct (initializationInProgress _); simpl; now rewrite Hv, Ht.
    + unfold initChart. same_timers Hw.
  - unfold Lifecycle.watch_palette, direct_options. same_timers Hw.
  - unfold Lifecycle.watch_muted, direct_options. same_timers Hw.
  - unfold Lifecycle.destroy. simpl.
    assert (Hc : timers_consistent
                   (with_timers (cancel_if (debounceTimeout (vars w))) w)).
    { unfold timers_consistent in *. simpl.
      destruct (debounceTimeout (vars w)); simpl; auto.
      now apply service_ok_cancel. }
    destruct (chart (vars w)) as [h|]; simpl.
    + destruct (factory_destroy_frame (ByChart h)
                  (with_timers (cancel_if (debounceTimeout (vars w))) w))
        as (Hv & _ & Ht & _). simpl in Hv, Ht.
      eapply timers_consistent_core; [|exact Hc].
      unfold timer_core. simpl. now rewrite Hv, Ht.
    + eapply timers_consistent_core; [|exact Hc]. reflexivity.
  - destruct (bound (sc w) cb && configured w); [|assumption].
    now apply timers_consistent_defer.
  - now apply timers_consistent_defer.
Qed.

Lemma reachable_run s t w evs : reachable s t w -> reachable s t (run w evs).
Proof.
  revert w. induction evs as [|ev evs IH]; intros w Hw; simpl; auto.
  apply IH. now constructor.
Qed.

Lemma reachable_timers s t w : reachable s t w -> timers_consistent w.
Proof.
  induction 1 as [|w ev _ IH].
  - repeat constructor; simpl; discriminate.
  - now apply timers_consistent_step.
Qed.

End Controller.

Section Claims.

Variable updateDebounceTime : nat.
Variable options_throws : handle -> update -> bool.
Variable destroy_throws : handle -> bool.

#[local] Abbreviation step := (Lifecycle.step updateDebounceTime options_throws destroy_throws).
#[local] Abbreviation run := (Lifecycle.run updateDebounceTime options_throws destroy_throws).
#[local] Abbreviation reachable := (Lifecycle.reachable updateDebounceTime options_throws destroy_throws).
#[local] Abbreviation destroy := (Lifecycle.destroy destroy_throws).
#[local] Abbreviation factory_destroy := (Lifecycle.factory_destroy destroy_throws).
#[local] Abbreviation updateChart := (Lifecycle.updateChart options_throws).
#[local] Abbreviation ready := (Lifecycle.ready options_throws).
#[local] Abbreviation perform := (Lifecycle.perform options_throws).
#[local] Abbreviation scheduleUpdate := (Lifecycle.scheduleUpdate updateDebounceTime).
#[local] Abbreviation watch_options := (Lifecycle.watch_options updateDebounceTime).
#[local] Abbreviation watch_series := (Lifecycle.watch_series updateDebounceTime).
#[local] Abbreviation watch_type := (Lifecycle.watch_type destroy_throws).
#[local] Abbreviation watch_palette := (Lifecycle.watch_palette options_throws).
#[local] Abbreviation watch_muted := (Lifecycle.watch_muted options_throws).

(** *** Teardown *)

Lemma factory_destroy_nothing w :
  factory_destroy Neither w = (false, w)
  /\ forall id, instances (fac w) !! id = None ->
                factory_destroy (ById id) w = (false, w).
Proof.
  split; [reflexivity|].
  intros id Hid. unfold Lifecycle.factory_destroy. now rewrite Hid.
Qed.

#[local] Opaque Lifecycle.factory_destroy.


Lemma cancel_cancel id (sv : service task) : cancel id (cancel id sv) = cancel id sv.
Proof.
  unfold cancel. simpl. f_equal.
  induction (queue sv) as [|tm q IH]; simpl; auto.
  destruct (negb (Nat.eqb (tid tm) id)) eqn:E; simpl; rewrite ?E, IH; auto.
Qed.

Lemma cancel_if_twice d (sv : service task) :
  cancel_if d (cancel_if d sv) = cancel_if d sv.
Proof. destruct d; simpl; auto using cancel_cancel. Qed.

Lemma world_eq w w' :
  vars w = vars w' -> sc w = sc w' -> element w = element w' -> fac w = fac w' ->
  timers w = timers w' -> loading w = loading w' -> awaiting w = awaiting w' ->
  next_handle w = next_handle w' -> engine w = engine w' ->
  console w = console w' -> notified w = notified w' -> w = w'.
Proof. destruct w, w'; simpl; intros; subst; reflexivity. Qed.

Lemma destroy_no_chart w :
  chart (vars w) = None ->
  destroy w =
  with_vars (set_isInitialized false)
    (with_scope (set_chartInstance None)
       (with_timers (cancel_if (debounceTimeout (vars w))) w)).
Proof. intros Hc. unfold Lifecycle.destroy. simpl. now rewrite Hc. Qed.

Lemma destroy_chart_gone w : chart (vars (destroy w)) = None.
Proof.
  unfold Lifecycle.destroy. simpl. destruct (chart (vars w)) eqn:Hc; simpl; auto.
Qed.

Lemma destroy_twice w : destroy (destroy w) = destroy w.
Proof.
  rewrite (destroy_no_chart (destroy w)) by apply destroy_chart_gone.
  unfold Lifecycle.destroy. simpl.
  destruct (chart (vars w)) as [h|] eqn:Hc; simpl.
  - destruct (factory_destroy_frame destroy_throws (ByChart h)
                (with_timers (cancel_if (debounceTimeout (vars w))) w))
      as (Hv & Hs & Ht & _). simpl in Hv, Hs, Ht.
    apply world_eq; simpl; rewrite ?Hv, ?Ht; simpl; auto using cancel_if_twice.
  - apply world_eq; simpl; auto using cancel_if_twice.
Qed.

(** C2.  For every mount point (every state [w] of the controller):
    - teardown twice in succession ends in the state teardown once ends in,
      and the second teardown makes no call to the engine (and logs
      nothing);
    - the first teardown of a controller that holds a chart calls the
      chart's [destroy] once, through [jscChartFactory.destroy];
    - teardown without an instance handle makes no call to the engine, logs
      nothing and leaves the registry as it is; in a state the controller
      can reach it also leaves the controller's variables and the scope as
      they are, and its one effect is the cancellation of the debounce
      timeout ([$timeout.cancel] of a timeout that is not pending does
      nothing);
    - [jscChartFactory.destroy] of nothing, or of an identifier that is not
      registered, does nothing and returns [false]. *)
Theorem teardown_is_idempotent (w : world) :
  (destroy (destroy w) = destroy w
   /\ engine (destroy (destroy w)) = engine (destroy w)
   /\ console (destroy (destroy w)) = console (destroy w))
  /\ (forall h, chart (vars w) = Some h ->
        engine (destroy w) = engine w ++ [Destroyed h])
  /\ (chart (vars w) = None ->
        engine (destroy w) = engine w /\ console (destroy w) = console w
        /\ fac (destroy w) = fac w /\ phase_of (destroy w) = phase_of w)
  /\ (forall s t, chartInstance s = None -> reachable s t w ->
        chart (vars w) = None ->
        vars (destroy w) = vars w /\ sc (destroy w) = sc w
        /\ timers (destroy w) = cancel_if (debounceTimeout (vars w)) (timers w)
        /\ (pending_debounce w = None -> destroy w = w))
  /\ (factory_destroy Neither w = (false, w)
      /\ forall id, instances (fac w) !! id = None ->
                    factory_destroy (ById id) w = (false, w)).
Proof.
  split; [|split; [|split; [|split]]].
  - rewrite destroy_twice. auto.
  - intros h Hc. unfold Lifecycle.destroy. simpl. rewrite Hc. simpl.
    now rewrite (factory_destroy_chart destroy_throws).
  - intros Hc. rewrite destroy_no_chart by assumption.
    split; [|split; [|split]]; try reflexivity.
    unfold phase_of. simpl. now rewrite Hc.
  - intros s t Hs Hreach Hc.
    pose proof (reachable_consistent _ _ _ None s t w Hs Hreach) as Hw.
    assert (Hi : isInitialized (vars w) = false).
    { destruct (isInitialized (vars w)) eqn:Hi; auto.
      destruct (ready_has_chart w Hw Hi) as [[h Hh] _]. congruence. }
    assert (Hinst : chartInstance (sc w) = None).
    { destruct (no_chart_no_instance w Hw Hc); congruence. }
    rewrite destroy_no_chart by assumption. simpl.
    assert (Hv : set_isInitialized false (vars w) = vars w).
    { clear -Hi. destruct (vars w); simpl in *. now subst. }
    assert (Hsc : set_chartInstance None (sc w) = sc w).
    { clear -Hinst. destruct (sc w); simpl in *. now subst. }
    split; [|split; [|split]]; auto.
    intros Hp. apply world_eq; simpl; auto.
    unfold pending_debounce in Hp.
    destruct (debounceTimeout (vars w)) as [promise|]; simpl; auto.
    unfold pending in Hp. unfold cancel.
    destruct (timers w) as [n q nx]. simpl in *. f_equal.
    induction q as [|tm q IH]; simpl in *; auto.
    destruct (Nat.eqb (tid tm) promise); [discriminate|]. simpl.
    f_equal. auto.
  - apply factory_destroy_nothing.
Qed.

(** *** Pending updates *)

Lemma updateChart_pending u w :
  chart (vars w) = None ->
  updateChart u w = with_vars (set_pendingUpdate (Some u)) w.
Proof. intros Hc. unfold Lifecycle.updateChart. now rewrite Hc. Qed.

Lemma updateChart_direct h u w :
  chart (vars w) = Some h ->
  engine (updateChart u w) = engine w ++ [Options h u]
  /\ vars (updateChart u w) = vars w.
Proof.
  intros Hc. unfold Lifecycle.updateChart. rewrite Hc.
  now destruct (options_throws h u).
Qed.

Lemma ready_consumes h u w :
  chart (vars w) = Some h -> pendingUpdate (vars w) = Some u ->
  isInitialized (vars (ready h w)) = true
  /\ pendingUpdate (vars (ready h w)) = None
  /\ engine (ready h w) = engine w ++ [Options h u].
Proof.
  intros Hc Hp. unfold Lifecycle.ready. rewrite Hc, bool_decide_eq_true_2 by reflexivity.
  simpl. unfold Lifecycle.updateChart.
  destruct (onLoad (sc w)); simpl; rewrite Hp, Hc; simpl;
    destruct (options_throws h u); simpl; auto.
Qed.

Lemma ready_nothing_pending h w :
  pendingUpdate (vars w) = None -> engine (ready h w) = engine w.
Proof.
  intros Hp. unfold Lifecycle.ready. destruct (bool_decide _); [|reflexivity].
  simpl. destruct (onLoad (sc w)); simpl; now rewrite Hp.
Qed.

(** C1, as amended.
    - An update that reaches [updateChart] while there is no chart is stored
      as the one [pendingUpdate], in place of an earlier one; no call is
      made to the engine.
    - When the function that the ready callback defers runs for the current
      chart, it marks the controller initialised, passes the pending update
      to [chart.options] once, and clears it.  With none pending it makes no
      call.
    - In every state the controller reaches, being initialised implies that
      no update is pending: a consumed update is not applied again.
    - A change of [options] or [series] notified while the controller is
      not initialised (while the modules load or the chart is created) does
      nothing: it is not recorded as pending.
    - An update that reaches [updateChart] while a chart exists, also before
      its ready callback, goes to [chart.options] at once. *)
Theorem pending_update_is_applied_once :
  (forall w u, chart (vars w) = None ->
      updateChart u w = with_vars (set_pendingUpdate (Some u)) w)
  /\ (forall w h u, chart (vars w) = Some h -> pendingUpdate (vars w) = Some u ->
        isInitialized (vars (ready h w)) = true
        /\ pendingUpdate (vars (ready h w)) = None
        /\ engine (ready h w) = engine w ++ [Options h u])
  /\ (forall w h, pendingUpdate (vars w) = None -> engine (ready h w) = engine w)
  /\ (forall s t w, reachable s t w ->
        isInitialized (vars w) = true -> pendingUpdate (vars w) = None)
  /\ (forall w v, isInitialized (vars w) = false ->
        watch_options v w = w /\ watch_series v w = w)
  /\ (forall w h u, chart (vars w) = Some h ->
        engine (updateChart u w) = engine w ++ [Options h u]
        /\ vars (updateChart u w) = vars w).
Proof.
  split; [|split; [|split; [|split; [|split]]]].
  - intros w u. apply updateChart_pending.
  - intros w h u. apply ready_consumes.
  - intros w h. apply ready_nothing_pending.
  - intros s t w Hreach Hi.
    pose proof (reachable_consistent _ _ _ _ s t w eq_refl Hreach) as Hw.
    now destruct (ready_has_chart w Hw Hi).
  - intros w v Hi. unfold Lifecycle.watch_options, Lifecycle.watch_series.
    now rewrite Hi.
  - intros w h u. apply updateChart_direct.
Qed.

(** *** Event handlers *)

Lemma pending_new (sv : service task) fn delay :
  Forall (fun tm => tid tm < next sv) (queue sv) ->
  pending (next sv) (snd (timeout fn delay sv))
  = Some {| tid := next sv; due := now sv + delay; run_fn := fn |}.
Proof.
  intros Hfresh. unfold pending, timeout. simpl.
  induction (queue sv) as [|tm q IH]; simpl.
  - now rewrite Nat.eqb_refl.
  - apply Forall_cons in Hfresh as [Htm Hq].
    destruct (Nat.eqb_spec (tid tm) (next sv)); [lia|auto].
Qed.


(** A deferred function scheduled without delay can run at once. *)
Lemma fire_deferred fn w :
  timers_consistent w ->
  step (snd (defer fn 0 w)) (Fire (next (timers w)))
  = perform fn (with_timers (cancel (next (timers w))) (snd (defer fn 0 w))).
Proof.
  intros [Hfresh _ _ _]. cbn [Lifecycle.step].
  assert (Ht : timers (snd (defer fn 0 w)) = snd (timeout fn 0 (timers w)))
    by reflexivity.
  rewrite Ht, (pending_new (timers w) fn 0 Hfresh). cbn [due run_fn].
  rewrite <- Ht. replace (now (timers (snd (defer fn 0 w)))) with (now (timers w))
    by reflexivity.
  now rewrite Nat.add_0_r, Nat.leb_refl.
Qed.

(** C7, as amended.  A handler that [wireEvents] registered, and a function
    made by [jscEventService.wrapCallback], make no test of the lifecycle:
    in every state the controller reaches, also once teardown has begun or
    is over, a call by the engine defers the scope callback, and when the
    deferred function runs the callback is called once.  The handlers of
    [wireEvents] pass the value the variable [chart] has at that time
    ([null] after teardown); [wrapCallback] passes the chart it was given,
    destroyed or not. *)
Theorem handler_makes_no_lifecycle_test :
  (forall s t w cb e this,
      reachable s t w -> bound (sc w) cb = true -> configured w = true ->
      notified (run w [Emitted cb e this; Fire (next (timers w))])
      = notified w ++
        [Notified cb e (if passes_this cb then Some this else None) (chart (vars w))])
  /\ (forall s t w name c eventType e,
      reachable s t w ->
      notified (run w [EmittedWrapped name c eventType e; Fire (next (timers w))])
      = notified w ++ [Delivered name e c eventType (now (timers w))]).
Proof.
  split.
  - intros s t w cb e this Hreach Hb Hc.
    pose proof (reachable_timers _ _ _ s t w Hreach) as Hw.
    assert (Hin : step w (Emitted cb e this) = handler cb e this w).
    { cbn [Lifecycle.step]. now rewrite Hb, Hc. }
    unfold Lifecycle.run. cbn [fold_left]. rewrite Hin. unfold handler.
    rewrite (fire_deferred _ w Hw). reflexivity.
  - intros s t w name c ty e Hreach.
    pose proof (reachable_timers _ _ _ s t w Hreach) as Hw.
    assert (Hin : step w (EmittedWrapped name c ty e) = wrapped name c ty e w)
      by reflexivity.
    unfold Lifecycle.run. cbn [fold_left]. rewrite Hin. unfold wrapped.
    rewrite (fire_deferred _ w Hw). reflexivity.
Qed.

(** *** Failure of the initialisation *)



(** *** Fingerprints in the watchers *)

(** C9, as amended.  The listeners of [options] and [series] recompute the
    fingerprint of the new value (once the controller is initialised) and
    compare it with the cached one before anything else: with an equal
    fingerprint nothing is scheduled and no call reaches the engine.  The
    listeners of [palette] and [muted] compute no fingerprint: they compare
    the new and the old value by identity ([!==]), and when they differ and
    a chart exists they call [chart.options] at once; when they are
    identical they make no call. *)
Theorem fingerprint_gates_options_and_series :
  (forall w v,
      strict_eq (computeHash v) (lastOptionsHash (vars w)) = true ->
      step w (OptionsChanged v) = with_scope (set_options v) w)
  /\ (forall w v,
      strict_eq (computeHash v) (lastSeriesHash (vars w)) = true ->
      step w (SeriesChanged v) = with_scope (set_series v) w)
  /\ (forall w v h,
      chart (vars w) = Some h ->
      engine (step w (PaletteChanged v)) =
      if strict_eq v (palette (sc w)) then engine w
      else engine w ++ [Options h (PaletteOnly v)])
  /\ (forall w v h,
      chart (vars w) = Some h ->
      engine (step w (MutedChanged v)) =
      if strict_eq v (muted (sc w)) then engine w
      else engine w ++ [Options h (MutedOnly v)]).
Proof.
  split; [|split; [|split]].
  - intros w v Hh. cbn [Lifecycle.step]. unfold Lifecycle.watch_options. simpl.
    rewrite Hh. simpl. now destruct (isInitialized (vars w)).
  - intros w v Hh. cbn [Lifecycle.step]. unfold Lifecycle.watch_series. simpl.
    rewrite Hh. simpl. now destruct (negb (isInitialized (vars w)) || _).
  - intros w v h Hc. cbn [Lifecycle.step]. unfold Lifecycle.watch_palette. simpl.
    rewrite Hc. destruct (strict_eq v (palette (sc w))); simpl; auto.
    unfold direct_options. now destruct (options_throws _ _).
  - intros w v h Hc. cbn [Lifecycle.step]. unfold Lifecycle.watch_muted. simpl.
    rewrite Hc. destruct (strict_eq v (muted (sc w))); simpl; auto.
    unfold direct_options. now destruct (options_throws _ _).
Qed.

(** *** Debounced updates of the directive *)



End Claims.

(** *** The theorems at the sample element *)

#[local] Abbreviation step := (Lifecycle.step 100 calm_options calm_destroy).
#[local] Abbreviation run := (Lifecycle.run 100 calm_options calm_destroy).
#[local] Abbreviation reachable := (Lifecycle.reachable 100 calm_options calm_destroy).

Lemma sample_ready_reachable : reachable sample_scope true sample_ready.
Proof. apply reachable_run. constructor. Qed.

Lemma before_second_ready_reachable :
  reachable sample_scope true before_second_ready.
Proof. apply reachable_run, sample_ready_reachable. Qed.

Example sample_is_ready :
  phase_of sample_ready = IsReady /\ engine sample_ready = [Created 0 sample_scope]
  /\ notified sample_ready = [Loaded 0].
Proof. vm_compute. repeat split. Qed.

(** C1, counterexample.  The options change while the modules load, and
    (in a second run) while the chart is being created.  The watcher returns
    at once because the controller is not initialised: no pending update is
    recorded, and when the controller is ready the engine has received the
    creation with the old options and nothing else, with no timeout left to
    run.  The update requested while loading is never applied. *)
Lemma update_before_ready_is_dropped :
  let loading := mounted sample_scope true in
  let w1 := step loading (OptionsChanged new_options) in
  let w2 := run w1 becomes_ready in
  let creating := step loading (ModulesLoaded true false) in
  let w3 := step creating (OptionsChanged new_options) in
  let w4 := run w3 [Rendered 0; Fire 0; Fire 1] in
  (phase_of loading = Loading /\ pendingUpdate (vars w1) = None
   /\ phase_of w2 = IsReady /\ options (sc w2) = new_options
   /\ engine w2 = [Created 0 sample_scope]
   /\ queue (timers w2) = [] /\ pendingUpdate (vars w2) = None)
  /\ (phase_of creating = Creating /\ pendingUpdate (vars w3) = None
      /\ phase_of w4 = IsReady /\ options (sc w4) = new_options
      /\ engine w4 = [Created 0 sample_scope]
      /\ queue (timers w4) = [] /\ pendingUpdate (vars w4) = None).
Proof. vm_compute. repeat split. Qed.

(** The theorem at the sample element: nothing is pending once it is ready,
    and the update that became pending while the second chart loaded is
    passed to that chart once when its ready function runs. *)
Lemma pending_update_is_applied_once_witness :
  pendingUpdate (vars sample_ready) = None
  /\ engine (Lifecycle.ready calm_options 1 before_second_ready)
     = engine before_second_ready
       ++ [Options 1 (Built (set_type (JStr "bar")
                               (set_options new_options sample_scope)))].
Proof.
  split.
  - refine (proj1 (proj2 (proj2 (proj2
              (pending_update_is_applied_once 100 calm_options calm_destroy))))
              sample_scope true sample_ready sample_ready_reachable _).
    vm_compute. reflexivity.
  - refine (proj2 (proj2 (proj1 (proj2
              (pending_update_is_applied_once 100 calm_options calm_destroy))
              before_second_ready 1
              (Built (set_type (JStr "bar") (set_options new_options sample_scope)))
              _ _))).
    + vm_compute. reflexivity.
    + vm_compute. reflexivity.
Defined.

(** The theorem at the sample element, torn down once it is ready. *)
Lemma teardown_is_idempotent_witness :
  engine (Lifecycle.destroy calm_destroy sample_ready)
  = engine sample_ready ++ [Destroyed 0]
  /\ engine (Lifecycle.destroy calm_destroy (Lifecycle.destroy calm_destroy sample_ready))
     = engine (Lifecycle.destroy calm_destroy sample_ready)
  /\ engine (Lifecycle.destroy calm_destroy (mounted sample_scope true))
     = engine (mounted sample_scope true).
Proof.
  split; [|split].
  - refine (proj1 (proj2
              (teardown_is_idempotent 100 calm_options calm_destroy sample_ready))
              0 _).
    vm_compute. reflexivity.
  - exact (proj1 (proj2 (proj1
             (teardown_is_idempotent 100 calm_options calm_destroy sample_ready)))).
  - refine (proj1 (proj1 (proj2 (proj2
              (teardown_is_idempotent 100 calm_options calm_destroy
                 (mounted sample_scope true)))) _)).
    vm_compute. reflexivity.
Defined.


(** C7, counterexample.  The chart is ready, the scope is destroyed (the
    chart's [destroy] was called and the controller is in [Unmounted]), and
    then the engine calls the click handler it was given: the scope callback
    [onClick] is called all the same, with [chart: null].  A function made by
    [wrapCallback] for that chart calls its callback with the destroyed
    chart. *)
Lemma event_after_teardown_reaches_the_callback :
  let torn_down := step sample_ready ScopeDestroyed in
  let w := run torn_down [Emitted onClick (JStr "click") JUndefined; Fire 2] in
  let w' := run torn_down [EmittedWrapped "callback" 0 "click" (JStr "click"); Fire 2] in
  phase_of torn_down = Unmounted
  /\ engine torn_down = [Created 0 sample_scope; Destroyed 0]
  /\ notified torn_down = [Loaded 0]
  /\ notified w = [Loaded 0; Notified onClick (JStr "click") None None]
  /\ notified w' = [Loaded 0; Delivered "callback" (JStr "click") 0 "click" 0].
Proof. vm_compute. repeat split. Qed.

(** The theorem at the sample element after its teardown. *)
Lemma handler_makes_no_lifecycle_test_witness :
  notified
    (run (step sample_ready ScopeDestroyed)
         [Emitted onClick (JStr "click") JUndefined;
          Fire (next (timers (step sample_ready ScopeDestroyed)))])
  = notified (step sample_ready ScopeDestroyed)
    ++ [Notified onClick (JStr "click")
          (if passes_this onClick then Some JUndefined else None)
          (chart (vars (step sample_ready ScopeDestroyed)))].
Proof.
  refine (proj1 (handler_makes_no_lifecycle_test 100 calm_options calm_destroy)
            sample_scope true (step sample_ready ScopeDestroyed) onClick
            (JStr "click") JUndefined _ _ _).
  - constructor. apply sample_ready_reachable.
  - vm_compute. reflexivity.
  - vm_compute. reflexivity.
Defined.

(** C9, counterexample.  The palette of a ready chart is replaced by a new
    array with the same colour.  Both have the fingerprint [["#f00"]], and
    the palette watcher calls [chart.options] all the same. *)
Lemma equal_fingerprint_palette_is_sent :
  let p := JArray 9 [JStr "#f00"] in
  computeHash p = computeHash (palette (sc sample_ready))
  /\ engine (step sample_ready (PaletteChanged p))
     = engine sample_ready ++ [Options 0 (PaletteOnly p)]
  /\ engine (step sample_ready (PaletteChanged p)) <> engine sample_ready.
Proof. vm_compute. repeat split. discriminate. Qed.

(** The theorem at the sample element: the same options do nothing, a new
    palette array is sent. *)
Lemma fingerprint_gates_options_and_series_witness :
  step sample_ready (OptionsChanged (options sample_scope))
  = with_scope (set_options (options sample_scope)) sample_ready.
Proof.
  refine (proj1 (fingerprint_gates_options_and_series 100 calm_options calm_destroy)
            sample_ready (options sample_scope) _).
  vm_compute. reflexivity.
Defined.

(** *** Debouncing, in the service and in the directive *)



End LifecycleFacts.

(** ** The utilities of jscPerformance *)

Module PerformanceFacts.
Import Fingerprint Scheduler Performance.

(** *** chunk *)

Section Chunk.

Context {A : Type}.

Lemma slice_inside (a : list A) (i size : Z) :
  (0 <= i <= Z.of_nat (length a))%Z -> (0 <= size)%Z ->
  slice a i (i + size)%Z = firstn (Z.to_nat size) (skipn (Z.to_nat i) a).
Proof.
  intros Hi Hsize. unfold slice, relative.
  destruct (Z.ltb_spec i 0); [lia|].
  destruct (Z.ltb_spec (i + size)%Z 0); [lia|].
  rewrite (Z.min_l i) by lia.
  destruct (Z.le_ge_cases (i + size)%Z (Z.of_nat (length a))) as [Hle|Hge].
  - rewrite Z.min_l by lia. f_equal. lia.
  - rewrite Z.min_r by lia.
    rewrite !firstn_all2; auto; rewrite length_skipn; lia.
Qed.

Lemma chunk_loop_done fuel (a : list A) size i acc :
  (Z.of_nat (length a) <= i)%Z -> chunk_loop (S fuel) a size i acc = Some acc.
Proof.
  intros Hi. simpl. destruct (Z.ltb_spec i (Z.of_nat (length a))); [lia|reflexivity].
Qed.

Lemma chunk_loop_rest (a : list A) (size : Z) :
  (1 <= size)%Z ->
  forall fuel pre rest acc,
    a = pre ++ rest -> length rest < fuel ->
    exists cs,
      chunk_loop fuel a size (Z.of_nat (length pre)) acc = Some (acc ++ cs)
      /\ concat cs = rest
      /\ Forall (fun c => length c = Z.to_nat size) (removelast cs)
      /\ Forall (fun c => 0 < length c <= Z.to_nat size) cs
      /\ Z.of_nat (length cs) = ((Z.of_nat (length rest) + size - 1) / size)%Z.
Proof.
  intros Hsize. induction fuel as [|fuel IH]; intros pre rest acc Ha Hfuel; [lia|].
  destruct rest as [|x rest'].
  - exists []. rewrite chunk_loop_done by (subst a; rewrite length_app; simpl; lia).
    rewrite app_nil_r. repeat split; auto.
    simpl. symmetry. apply Z.div_small. lia.
  - set (rest := x :: rest') in *.
    assert (Hlen : length a = length pre + length rest)
      by (subst a; now rewrite length_app).
    cbn [chunk_loop].
    destruct (Z.ltb_spec (Z.of_nat (length pre)) (Z.of_nat (length a)));
      [|subst rest; simpl in *; lia].
    rewrite slice_inside by lia.
    rewrite Nat2Z.id. replace (skipn (length pre) a) with rest
      by (subst a; rewrite skipn_app, skipn_all, Nat.sub_diag; reflexivity).
    destruct (Nat.le_gt_cases (length rest) (Z.to_nat size)) as [Hshort|Hlong].
    + exists [rest]. rewrite firstn_all2 by assumption.
      destruct fuel as [|fuel]; [subst rest; simpl in *; lia|].
      rewrite chunk_loop_done by lia.
      split; [reflexivity|]. split; [simpl; now rewrite app_nil_r|].
      split; [constructor|]. split.
      * constructor; [|constructor]. subst rest. simpl in *. lia.
      * subst rest. simpl length in *.
        apply Z.div_unique with (r := Z.of_nat (length rest')); lia.
    + pose proof (firstn_skipn (Z.to_nat size) rest) as Hsplit.
      set (c := firstn (Z.to_nat size) rest) in *.
      set (more := skipn (Z.to_nat size) rest) in *.
      assert (Hc : length c = Z.to_nat size)
        by (subst c; rewrite length_firstn; lia).
      assert (Hmore : length more = length rest - Z.to_nat size)
        by (subst more; now rewrite length_skipn).
      destruct (IH (pre ++ c) more (acc ++ [c])) as (cs & Hrun & Hcat & Hfull & Hall & Hcount).
      { rewrite <- app_assoc, Hsplit. exact Ha. }
      { lia. }
      exists (c :: cs).
      replace (Z.of_nat (length pre) + size)%Z with (Z.of_nat (length (pre ++ c)))
        by (rewrite length_app; lia).
      rewrite Hrun, <- app_assoc. split; [reflexivity|].
      split; [simpl; now rewrite Hcat|].
      assert (Hcs : cs <> []).
      { intros ->. simpl in Hcat. apply (f_equal (@length A)) in Hcat.
        simpl in Hcat. lia. }
      split.
      { destruct cs as [|c' cs']; [congruence|].
        change (removelast (c :: c' :: cs')) with (c :: removelast (c' :: cs')).
        constructor; assumption. }
      split; [constructor; [lia|assumption]|].
      change (length (c :: cs)) with (S (length cs)).
      rewrite Nat2Z.inj_succ, Hcount, Hmore.
      replace (Z.of_nat (length rest) + size - 1)%Z
        with (Z.of_nat (length rest - Z.to_nat size) + size - 1 + 1 * size)%Z by lia.
      rewrite Z.div_add by lia. lia.
Qed.

(** X1.  [chunk(array, size)] for [size >= 1] ends, and its chunks are the
    array cut into pieces: joined in order they give the array back, every
    chunk but the last has [size] elements, the last has between one and
    [size], and there are [ceil(length / size)] of them (none for an empty
    array). *)
Theorem chunk_cuts_the_array (a : list A) (size : Z) (fuel : nat) :
  (1 <= size)%Z -> length a < fuel ->
  exists cs,
    chunk fuel a size = Some cs
    /\ concat cs = a
    /\ Forall (fun c => length c = Z.to_nat size) (removelast cs)
    /\ Forall (fun c => 0 < length c <= Z.to_nat size) cs
    /\ Z.of_nat (length cs) = ((Z.of_nat (length a) + size - 1) / size)%Z.
Proof.
  intros Hsize Hfuel.
  destruct (chunk_loop_rest a size Hsize fuel [] a [] eq_refl Hfuel)
    as (cs & Hrun & Hrest).
  exists cs. split; [exact Hrun|exact Hrest].
Qed.

Lemma chunk_loop_stuck (a : list A) (size : Z) :
  (size <= 0)%Z -> a <> [] ->
  forall fuel i acc, (i <= 0)%Z -> chunk_loop fuel a size i acc = None.
Proof.
  intros Hsize Ha. induction fuel as [|fuel IH]; intros i acc Hi; [reflexivity|].
  simpl. destruct (Z.ltb_spec i (Z.of_nat (length a))) as [_|Hge].
  - apply IH. lia.
  - destruct a; [congruence|]. simpl in Hge. lia.
Qed.

(** X2.  [chunk(array, size)] with [size <= 0] on an array that is not
    empty never returns: the loop variable never reaches the length of the
    array, however many times the loop runs.  On the empty array it returns
    the empty list of chunks whatever [size] is. *)
Theorem chunk_needs_a_positive_size (a : list A) (size : Z) :
  ((size <= 0)%Z -> a <> [] -> forall fuel, chunk fuel a size = None)
  /\ (forall fuel, chunk (S fuel) ([] : list A) size = Some []).
Proof.
  split.
  - intros Hsize Ha fuel. now apply chunk_loop_stuck.
  - intros fuel. reflexivity.
Qed.

End Chunk.

Lemma chunk_cuts_the_array_witness :
  exists cs, chunk 6 [1; 2; 3; 4; 5]%Z 2 = Some cs /\ concat cs = [1; 2; 3; 4; 5]%Z.
Proof.
  destruct (chunk_cuts_the_array [1; 2; 3; 4; 5]%Z 2 6) as (cs & Hrun & Hcat & _).
  - lia.
  - simpl. lia.
  - exists cs. split; assumption.
Defined.

Lemma chunk_needs_a_positive_size_witness :
  chunk 1000 [1; 2; 3]%Z 0 = None.
Proof.
  apply (proj1 (chunk_needs_a_positive_size [1; 2; 3]%Z 0)).
  - lia.
  - discriminate.
Defined.

(** *** downsample *)








Lemma downsample_loop_stuck (d : list jsval) (step : Z) :
  (step <= 0)%Z -> d <> [] ->
  forall fuel i acc, (i <= 0)%Z ->
    downsample_loop fuel d (Finite step) (Finite i) acc = None.
Proof.
  intros Hstep Hd. induction fuel as [|fuel IH]; intros i acc Hi; [reflexivity|].
  cbn [downsample_loop plus].
  destruct (Z.ltb_spec i (Z.of_nat (length d))) as [_|Hge].
  - apply IH. lia.
  - destruct d; [congruence|]. simpl in Hge. lia.
Qed.

(** X4.  [downsample] with a limit that is not positive, on data that is
    not empty: with [maxPoints = 0] the division gives [Infinity], the loop
    keeps the first point only, and the result is the first point followed
    by the last one unless the two are identical; with a negative
    [maxPoints] the step is zero or negative and the loop never ends. *)
Theorem downsample_without_a_positive_limit (x : jsval) (rest : list jsval) :
  (forall fuel,
      downsample (S (S fuel)) (Some (x :: rest)) 0
      = Some (Some (if strict_eq x (last_of (x :: rest)) then [x]
                    else [x; last_of (x :: rest)])))
  /\ (forall maxPoints fuel,
      (maxPoints < 0)%Z -> downsample fuel (Some (x :: rest)) maxPoints = None).
Proof.
  split.
  - intros fuel. unfold downsample.
    destruct (Z.leb_spec (Z.of_nat (length (x :: rest))) 0) as [Hle|_];
      [simpl in Hle; lia|].
    cbn [ceil_ratio Z.eqb downsample_loop].
    destruct (Z.ltb_spec 0 (Z.of_nat (length (x :: rest)))) as [_|Hge];
      [|simpl in Hge; lia].
    cbn [plus app mbind option_bind at_index Z.ltb Z.compare nth].
    change (Z.to_nat 0) with 0. cbv iota.
    change (last_of [x]) with x. now destruct (strict_eq x _).
  - intros maxPoints fuel Hneg. unfold downsample.
    destruct (Z.leb_spec (Z.of_nat (length (x :: rest))) maxPoints) as [Hle|_];
      [simpl in Hle; lia|].
    unfold ceil_ratio. destruct (Z.eqb_spec maxPoints 0); [lia|].
    rewrite downsample_loop_stuck; [reflexivity| |discriminate|lia].
    pose proof (Z.div_mod (- Z.of_nat (length (x :: rest))) maxPoints ltac:(lia)).
    pose proof (Z.mod_neg_bound (- Z.of_nat (length (x :: rest))) maxPoints ltac:(lia)).
    nia.
Qed.


Example downsample_ten_to_three :
  downsample 11 (Some (map JNum [0; 1; 2; 3; 4; 5; 6; 7; 8; 9]%Z)) 3
  = Some (Some (map JNum [0; 4; 8; 9]%Z)).
Proof. reflexivity. Qed.

Lemma downsample_without_a_positive_limit_witness :
  downsample 1000 (Some [JNum 1; JNum 2]) (-1) = None.
Proof.
  apply (proj2 (downsample_without_a_positive_limit (JNum 1) [JNum 2])). lia.
Defined.

(** *** throttle *)

Section Throttling.

Context {A : Type}.
Variable limit : nat.

#[local] Abbreviation t_advance := (@Performance.t_advance A).
#[local] Abbreviation t_call := (@Performance.t_call A limit).
#[local] Abbreviation t_call_at := (@Performance.t_call_at A limit).
#[local] Abbreviation calm := (@Performance.calm A).
#[local] Abbreviation held := (@Performance.held A limit).
#[local] Abbreviation t_fresh := (@Performance.t_fresh A).
#[local] Abbreviation tracks := (@Performance.tracks A limit).

Lemma advance_calm t (d : throttled A) :
  calm d ->
  t_advance t d
  = {| inThrottle := false; lastArgs := None;
       t_timers := elapse t (t_timers d); t_invoked := t_invoked d |}.
Proof.
  intros (Hin & Hargs & Hq). unfold Performance.t_advance.
  rewrite Hq. simpl. now rewrite Hin, Hargs.
Qed.

Lemma advance_held_early t (d : throttled A) tm :
  queue (t_timers d) = [tm] -> t < due tm ->
  t_advance t d
  = {| inThrottle := inThrottle d; lastArgs := lastArgs d;
       t_timers := elapse t (t_timers d); t_invoked := t_invoked d |}.
Proof.
  intros Hq Hearly. unfold Performance.t_advance. rewrite Hq. simpl. rewrite Hq. simpl.
  destruct (Nat.leb_spec (due tm) t); [lia|reflexivity].
Qed.

Lemma advance_held_due t (d : throttled A) tm :
  queue (t_timers d) = [tm] -> due tm <= t ->
  t_advance t d
  = {| inThrottle := false; lastArgs := None;
       t_timers := {| now := Nat.max (Nat.max (now (t_timers d)) (due tm)) t;
                      queue := []; next := next (t_timers d) |};
       t_invoked :=
         t_invoked d ++
         match lastArgs d with
         | Some args => [(Nat.max (now (t_timers d)) (due tm), args)]
         | None => []
         end |}.
Proof.
  intros Hq Hdue. unfold Performance.t_advance. rewrite Hq. simpl. rewrite Hq. simpl.
  destruct (Nat.leb_spec (due tm) t); [|lia].
  unfold t_fire, t_expire, cancel, elapse. simpl. rewrite Hq. simpl.
  rewrite Nat.eqb_refl. simpl.
  destruct (lastArgs d); simpl; [reflexivity|now rewrite app_nil_r].
Qed.

Lemma tracks_fresh : tracks [] t_fresh.
Proof.
  split; simpl; auto.
  - left. now repeat split.
  - intros (Hin & _). discriminate.
Qed.

Lemma clock_snoc (calls : list (nat * A)) c : clock (calls ++ [c]) = fst c.
Proof. unfold clock. now rewrite last_snoc. Qed.

Lemma tracks_call calls (d : throttled A) c :
  tracks calls d -> clock calls <= fst c ->
  tracks (calls ++ [c]) (t_call_at d c).
Proof.
  intros [Hstate Hheld Hsub Hlast Hhead Hnow] Hclock.
  destruct c as [t a]. unfold Performance.t_call_at. cbn [fst snd] in *.
  assert (Hne : calls ++ [(t, a)] <> []) by (now destruct calls).
  destruct Hstate as [Hcalm|Hh].
  - rewrite (advance_calm t d Hcalm). destruct Hcalm as (Hin & Hargs & Hq).
    unfold Performance.t_call, delivered in *. cbn. rewrite Hargs in *. cbn in *.
    rewrite app_nil_r in *.
    assert (Hmax : Nat.max (now (t_timers d)) t = t) by lia.
    split; cbn.
    + right. split; [reflexivity|]. rewrite Hq. cbn. eexists. split; [reflexivity|].
      cbn. lia.
    + auto.
    + rewrite !map_app, app_nil_r. now apply sublist_app.
    + rewrite !map_app, app_nil_r. cbn. now rewrite !last_snoc.
    + destruct calls as [|c0 calls'].
      * destruct (t_invoked d); [|discriminate]. cbn. now rewrite Hmax.
      * destruct (t_invoked d); [discriminate|]. exact Hhead.
    + now rewrite clock_snoc.
  - pose proof (Hheld Hh) as Hcalls.
    destruct Hh as (Hin & tm & Hq & Hdue).
    destruct (Nat.le_gt_cases (due tm) t) as [Hfire|Hearly].
    + rewrite (advance_held_due t d tm Hq Hfire).
      unfold Performance.t_call, delivered in *. cbn.
      assert (Hmax : Nat.max (Nat.max (now (t_timers d)) (due tm)) t = t) by lia.
      split; cbn.
      * right. split; [reflexivity|]. eexists. split; [reflexivity|]. cbn. lia.
      * auto.
      * rewrite !map_app, app_nil_r. cbn. apply sublist_app; [|reflexivity].
        destruct (lastArgs d); cbn in *; [exact Hsub|].
        now rewrite app_nil_r in *.
      * rewrite !map_app, app_nil_r. cbn. now rewrite !last_snoc.
      * destruct calls as [|c0 calls']; [congruence|].
        destruct (t_invoked d); [discriminate|]. exact Hhead.
      * now rewrite clock_snoc.
    + rewrite (advance_held_early t d tm Hq Hearly).
      unfold Performance.t_call, delivered in *. cbn. rewrite Hin. cbn.
      split; cbn.
      * right. split; [reflexivity|]. exists tm. split; [exact Hq|]. cbn. lia.
      * auto.
      * rewrite map_app. apply sublist_app; [|reflexivity].
        etransitivity; [|exact Hsub]. now apply sublist_inserts_r.
      * rewrite map_app. cbn. now rewrite !last_snoc.
      * destruct calls as [|c0 calls']; [congruence|]. exact Hhead.
      * rewrite clock_snoc. cbn. lia.
Qed.

Lemma in_time_snoc (calls : list (nat * A)) c :
  in_time (calls ++ [c]) -> in_time calls /\ clock calls <= fst c.
Proof.
  induction calls as [|c0 calls IH]; [intros _; split; [exact I|unfold clock; simpl; lia]|].
  cbn [app in_time]. intros [Hc0 Hrest]. destruct (IH Hrest) as [Htime Hclock].
  destruct calls as [|c1 calls'].
  - split; [split; exact I|]. exact Hc0.
  - split; [split; [exact Hc0|exact Htime]|]. exact Hclock.
Qed.

Lemma tracks_calls (calls : list (nat * A)) :
  in_time calls -> tracks calls (fold_left t_call_at calls t_fresh).
Proof.
  induction calls as [|c calls IH] using rev_ind; intros Htime.
  - apply tracks_fresh.
  - apply in_time_snoc in Htime as [Htime Hclock].
    rewrite fold_left_app. cbn [fold_left]. apply tracks_call; auto.
Qed.

Lemma last_default (x : nat * A) (l : list (nat * A)) :
  List.last l x = default x (last l).
Proof.
  induction l as [|a l IH]; [reflexivity|].
  destruct l as [|b l]; [reflexivity|].
  rewrite last_cons_cons, <- IH. reflexivity.
Qed.

Lemma last_cons_default (x : nat * A) (l : list (nat * A)) :
  last (x :: l) = Some (List.last l x).
Proof. rewrite last_cons, last_default. now destruct (last l). Qed.

(** X5.  [throttle(func, limit)]: for calls in the order of their times,
    once [limit] has passed since the last call,
    - the first call was let through at its own time;
    - the last call [func] received has the arguments of the last call made:
      a call is put off, never lost, unless a later one replaces it;
    - [func] was called with arguments of calls made, in their order, each
      call at most once;
    - nothing is left pending. *)
Theorem throttle_delivers_the_last_call (first : nat * A) (rest : list (nat * A))
    (finish : nat) :
  in_time (first :: rest) -> fst (List.last rest first) + limit <= finish ->
  let d := t_run limit (first :: rest) finish in
  head (t_invoked d) = Some first
  /\ (exists t, last (t_invoked d) = Some (t, snd (List.last rest first)))
  /\ sublist (map snd (t_invoked d)) (map snd (first :: rest))
  /\ inThrottle d = false /\ lastArgs d = None /\ queue (t_timers d) = [].
Proof.
  intros Htime Hfinish d.
  destruct (tracks_calls (first :: rest) Htime)
    as [Hstate Hheld Hsub Hlast Hhead Hnow].
  set (d0 := fold_left t_call_at (first :: rest) t_fresh) in *.
  assert (Hclock : clock (first :: rest) = fst (List.last rest first)).
  { unfold clock. now rewrite last_cons_default. }
  assert (Hd : inThrottle d = false /\ lastArgs d = None /\ queue (t_timers d) = []
               /\ map snd (t_invoked d) = delivered d0
               /\ head (t_invoked d) = head (t_invoked d0)).
  { subst d. unfold t_run. fold d0. clearbody d0. destruct Hstate as [Hcalm|(Hin & tm & Hq & Hdue)].
    - rewrite (advance_calm finish d0 Hcalm). destruct Hcalm as (_ & Hargs & Hq).
      unfold delivered. rewrite Hargs. cbn. now rewrite app_nil_r.
    - rewrite (advance_held_due finish d0 tm Hq) by lia. cbn.
      unfold delivered. repeat split; auto.
      + rewrite map_app. now destruct (lastArgs d0).
      + destruct (t_invoked d0); [discriminate|reflexivity]. }
  destruct Hd as (Hin & Hargs & Hq & Hall & Hfirst).
  split; [now rewrite Hfirst|]. split; [|now rewrite Hall].
  assert (Hl : last (map snd (t_invoked d)) = Some (snd (List.last rest first))).
  { rewrite Hall, Hlast. change (map snd (first :: rest)) with (snd <$> first :: rest).
    now rewrite fmap_last, last_cons_default. }
  change (map snd (t_invoked d)) with (snd <$> t_invoked d) in Hl.
  rewrite fmap_last in Hl. destruct (last (t_invoked d)) as [[t a]|]; [|discriminate].
  injection Hl as <-. now exists t.
Qed.

(** X6.  A call made while the throttle holds is put off until [limit]
    has passed since the call that was let through, and the call of [func]
    made then starts no new period: the next call is let through at once,
    however soon after it comes.  So two calls of [func] can be less than
    [limit] apart. *)
Theorem throttle_put_off_call_starts_no_period (t t' t'' finish : nat) (a b c : A) :
  t <= t' -> t' < t + limit -> t + limit <= t'' -> t'' <= finish ->
  t_invoked (t_run limit [(t, a); (t', b); (t'', c)] finish)
  = [(t, a); (t + limit, b); (t'', c)].
Proof.
  intros H1 H2 H3 H4. unfold t_run. cbn [fold_left].
  set (tm1 := {| tid := 0; due := t + limit; run_fn := Expire |}).
  set (d1 := {| inThrottle := true; lastArgs := None;
                t_timers := {| now := t; queue := [tm1]; next := 1 |};
                t_invoked := [(t, a)] |}).
  assert (E1 : t_call_at t_fresh (t, a) = d1).
  { unfold Performance.t_call_at. cbn [fst snd].
    rewrite advance_calm by (now repeat split). reflexivity. }
  set (d2 := {| inThrottle := true; lastArgs := Some b;
                t_timers := {| now := t'; queue := [tm1]; next := 1 |};
                t_invoked := [(t, a)] |}).
  assert (E2 : t_call_at d1 (t', b) = d2).
  { unfold Performance.t_call_at. cbn [fst snd].
    rewrite (advance_held_early t' d1 tm1) by (cbn; auto; lia).
    unfold Performance.t_call, d2, elapse. cbn. do 3 f_equal. lia. }
  set (tm3 := {| tid := 1; due := t'' + limit; run_fn := Expire |}).
  set (d3 := {| inThrottle := true; lastArgs := None;
                t_timers := {| now := t''; queue := [tm3]; next := 2 |};
                t_invoked := [(t, a); (t + limit, b); (t'', c)] |}).
  assert (E3 : t_call_at d2 (t'', c) = d3).
  { unfold Performance.t_call_at. cbn [fst snd].
    rewrite (advance_held_due t'' d2 tm1) by (cbn; auto; lia).
    unfold Performance.t_call, d3, tm3. cbn.
    replace (t' `max` (t + limit)) with (t + limit) by lia.
    replace ((t + limit) `max` t'') with t'' by lia. reflexivity. }
  rewrite E1, E2, E3.
  destruct (Nat.le_gt_cases (t'' + limit) finish).
  - rewrite (advance_held_due finish d3 tm3) by (cbn; auto; lia). reflexivity.
  - rewrite (advance_held_early finish d3 tm3) by (cbn; auto; lia). reflexivity.
Qed.

End Throttling.

(** Calls at 0, 30 and 60 ms, throttled to one in 100 ms. *)
Lemma throttle_delivers_the_last_call_witness :
  head (t_invoked (t_run 100 [(0, "a"); (30, "b"); (60, "c")] 200)) = Some (0, "a")
  /\ exists t, last (t_invoked (t_run 100 [(0, "a"); (30, "b"); (60, "c")] 200))
               = Some (t, "c").
Proof.
  destruct (throttle_delivers_the_last_call 100 (0, "a") [(30, "b"); (60, "c")] 200)
    as (Hhead & Hlast & _).
  - simpl. lia.
  - simpl. lia.
  - split; [exact Hhead|exact Hlast].
Defined.

Example throttle_three_calls :
  t_invoked (t_run 100 [(0, "a"); (30, "b"); (60, "c")] 200) = [(0, "a"); (100, "c")].
Proof. reflexivity. Qed.

(** The call at 50 ms is made at 100 ms, the call at 101 ms at once. *)
Lemma throttle_put_off_call_starts_no_period_witness :
  t_invoked (t_run 100 [(0, "a"); (50, "b"); (101, "c")] 300)
  = [(0, "a"); (0 + 100, "b"); (101, "c")].
Proof.
  apply (throttle_put_off_call_starts_no_period 100 0 50 101 300 "a" "b" "c"); lia.
Defined.

(** *** debounce: the leading mode, and bursts that are apart *)

Section Debouncing.

Context {A : Type}.
Variable wait : nat.
Variable immediate : bool.

#[local] Abbreviation armed := (@Scheduler.armed A wait).

Lemma armed_settles done t a (d : debounced A) finish :
  armed done t a d -> t + wait <= finish ->
  invoked (advance immediate finish d) = (if immediate then done else done ++ [a])
  /\ queue (timers (advance immediate finish d)) = []
  /\ timeout_var (advance immediate finish d) = None
  /\ now (timers (advance immediate finish d)) = finish.
Proof.
  intros (Hinv & id & Hvar & Hq & Hnow) Hdue.
  unfold advance. rewrite Hq. simpl. rewrite Hq. simpl.
  destruct (Nat.leb_spec (t + wait) finish) as [_|Hlt]; [|lia].
  unfold fire, later. simpl. rewrite Hq. simpl. rewrite Nat.eqb_refl. simpl.
  rewrite Hinv, Hnow. split; [now destruct immediate|]. repeat split. lia.
Qed.

Lemma settled_call_armed (d : debounced A) t a :
  timeout_var d = None -> queue (timers d) = [] -> now (timers d) = t ->
  armed (invoked d ++ if immediate then [a] else []) t a (call wait immediate a d).
Proof.
  intros Hvar Hq Hnow. unfold call. rewrite Hvar. simpl. rewrite Hq, Hnow. split.
  - simpl. destruct immediate; simpl; [reflexivity|now rewrite app_nil_r].
  - eexists. repeat split.
Qed.

(** X7.  [debounce(func, wait, true)], the leading mode: of a burst of
    calls, each less than [wait] after the one before, [func] receives the
    first call, at once, and no other: when [wait] has passed after the
    last call of the burst [func] has been called once, with the arguments
    of the first call, and no timeout is pending.  The arguments of the
    later calls of the burst, the last one included, never reach [func]. *)
Theorem debounce_leading_mode (first : nat * A) (rest : list (nat * A))
    (finish : nat) :
  burst wait (first :: rest) -> fst (List.last rest first) + wait <= finish ->
  invoked (call_at wait true fresh first) = [snd first]
  /\ invoked (fold_left (call_at wait true) (first :: rest) fresh) = [snd first]
  /\ invoked (run wait true (first :: rest) finish) = [snd first]
  /\ queue (timers (run wait true (first :: rest) finish)) = [].
Proof.
  intros Hburst Hfinish. destruct first as [t a]. cbn [fold_left fst snd] in *.
  pose proof (SchedulerFacts.first_call_armed wait true t a) as Hfirst.
  pose proof (SchedulerFacts.burst_armed wait true rest _ t a _ Hfirst Hburst) as Hlast.
  split; [apply Hfirst|]. split; [apply Hlast|].
  destruct (SchedulerFacts.armed_fires wait true _ _ _ _ finish Hlast Hfinish)
    as [Hinv Hq].
  split; [exact Hinv|exact Hq].
Qed.

(** X8.  Two bursts that are at least [wait] apart are debounced one by
    one, in either mode: [func] is called once for each, with the arguments
    of its last call, or in the leading mode of its first. *)
Theorem debounce_bursts_apart (first1 : nat * A) (rest1 : list (nat * A))
    (first2 : nat * A) (rest2 : list (nat * A)) (finish : nat) :
  burst wait (first1 :: rest1) -> burst wait (first2 :: rest2) ->
  fst (List.last rest1 first1) + wait <= fst first2 ->
  fst (List.last rest2 first2) + wait <= finish ->
  invoked (run wait immediate ((first1 :: rest1) ++ first2 :: rest2) finish)
  = [snd (if immediate then first1 else List.last rest1 first1);
     snd (if immediate then first2 else List.last rest2 first2)]
  /\ queue (timers (run wait immediate ((first1 :: rest1) ++ first2 :: rest2) finish))
     = [].
Proof.
  intros Hburst1 Hburst2 Hapart Hfinish.
  destruct first1 as [t1 a1], first2 as [t2 a2]. unfold run.
  rewrite fold_left_app. cbn [fold_left fst snd] in *.
  pose proof (SchedulerFacts.first_call_armed wait immediate t1 a1) as Hfirst.
  pose proof (SchedulerFacts.burst_armed wait immediate rest1 _ t1 a1 _ Hfirst Hburst1)
    as Hlast1.
  set (d1 := fold_left (call_at wait immediate) rest1
               (call_at wait immediate fresh (t1, a1))) in *.
  destruct (armed_settles _ _ _ d1 t2 Hlast1 Hapart) as (Hinv & Hq & Hvar & Hnow).
  pose proof (settled_call_armed (advance immediate t2 d1) t2 a2 Hvar Hq Hnow)
    as Hsecond.
  change (call wait immediate a2 (advance immediate t2 d1))
    with (call_at wait immediate d1 (t2, a2)) in Hsecond.
  pose proof (SchedulerFacts.burst_armed wait immediate rest2 _ t2 a2 _ Hsecond Hburst2)
    as Hlast2.
  destruct (SchedulerFacts.armed_fires wait immediate _ _ _ _ finish Hlast2 Hfinish)
    as [Hinv2 Hq2].
  split; [|exact Hq2]. rewrite Hinv2, Hinv. now destruct immediate.
Qed.

End Debouncing.

Lemma debounce_leading_mode_witness :
  invoked (run 100 true [(0, "a"); (40, "b"); (90, "c")] 190) = [snd (0, "a")].
Proof.
  refine (proj1 (proj2 (proj2
            (debounce_leading_mode 100 (0, "a") [(40, "b"); (90, "c")] 190 _ _)))).
  - simpl. lia.
  - simpl. lia.
Defined.

Lemma debounce_bursts_apart_witness :
  invoked (run 100 false ([(0, "a"); (40, "b")] ++ [(150, "c"); (200, "d")]) 300)
  = [snd (List.last [(40, "b")] (0, "a")); snd (List.last [(200, "d")] (150, "c"))].
Proof.
  refine (proj1 (debounce_bursts_apart 100 false (0, "a") [(40, "b")]
                   (150, "c") [(200, "d")] 300 _ _ _ _)).
  - simpl. lia.
  - simpl. lia.
  - simpl. lia.
  - simpl. lia.
Defined.

(** *** processInChunks *)

Section Processing.

Context {A : Type}.
Variable delay : Z.

#[local] Abbreviation processNext := (@Performance.processNext A delay).
#[local] Abbreviation p_run_due := (@Performance.p_run_due A delay).

Lemma p_run_due_idle fuel t (s : chunked A) :
  queue (p_timers s) = [] -> p_run_due fuel t s = s.
Proof. intros Hq. destruct fuel; simpl; [reflexivity|now rewrite Hq]. Qed.

Lemma p_run_due_rest (cs : list (list A)) (t : nat) :
  forall m k (s : chunked A) fuel tm,
    p_chunks s = cs -> p_index s = k -> k + m = length cs ->
    queue (p_timers s) = [tm] -> now (p_timers s) <= due tm ->
    due tm + m * Z.to_nat delay <= t -> m < fuel ->
    p_processed (p_run_due fuel t s)
    = p_processed s ++ combine (skipn k cs) (seq k m)
    /\ p_resolved (p_run_due fuel t s) = true
    /\ queue (p_timers (p_run_due fuel t s)) = [].
Proof.
  induction m as [|m IH]; intros k s fuel tm Hcs Hk Hlen Hq Hnow Hdue Hfuel.
  - destruct fuel as [|fuel]; [lia|]. cbn [Performance.p_run_due]. rewrite Hq. cbn [earliest].
    destruct (Nat.leb_spec (due tm) t); [|lia].
    unfold p_fire, Performance.processNext. cbn. rewrite Hcs, Hk.
    rewrite lookup_ge_None_2 by lia.
    rewrite p_run_due_idle by (cbn; rewrite Hq; cbn; now rewrite Nat.eqb_refl).
    cbn. rewrite Hq. cbn. rewrite Nat.eqb_refl. cbn.
    now rewrite combine_nil, app_nil_r.
  - destruct fuel as [|fuel]; [lia|]. cbn [Performance.p_run_due]. rewrite Hq. cbn [earliest].
    destruct (Nat.leb_spec (due tm) t); [|nia].
    destruct (lookup_lt_is_Some_2 cs k) as [c Hc]; [lia|].
    unfold p_fire, Performance.processNext. cbn. rewrite Hcs, Hk, Hc.
    match goal with
    | |- context [Performance.p_run_due delay fuel t ?x] => set (s1 := x)
    end.
    edestruct (IH (S k) s1 fuel) as (Hproc & Hres & Hqueue);
      [reflexivity | reflexivity | lia
      | subst s1; cbn; rewrite Hq; cbn; rewrite Nat.eqb_refl; reflexivity
      | subst s1; cbn; lia | cbn; nia | lia | ].
    split; [|split; assumption]. rewrite Hproc. subst s1. cbn.
    rewrite <- app_assoc. f_equal. now rewrite (drop_S _ _ _ Hc).
Qed.

Lemma chunks_at_most_elements (cs : list (list A)) :
  Forall (fun c => 0 < length c) cs -> length cs <= length (concat cs).
Proof.
  induction 1 as [|c cs Hc _ IH]; simpl; [lia|]. rewrite length_app. lia.
Qed.

(** X9.  [processInChunks(array, processor, chunkSize, delay)] for
    [chunkSize >= 1]: the first chunk is passed to [processor] during the
    call itself (an empty array resolves the promise at once), and when
    [delay] times the number of chunks has passed, [processor] has been
    called exactly once for every chunk, in order, each with its index, the
    promise is resolved and no timeout is left. *)
Theorem chunks_are_processed_in_order (array : list A) (chunkSize : Z)
    (fuel t : nat) :
  (1 <= chunkSize)%Z -> length array < fuel ->
  exists cs s0,
    chunk fuel array chunkSize = Some cs
    /\ processInChunks delay fuel array chunkSize idle = Some s0
    /\ p_processed s0 = combine (firstn 1 cs) [0]
    /\ p_resolved s0 = bool_decide (cs = [])
    /\ (length cs * Z.to_nat delay <= t ->
        p_processed (p_run_due fuel t s0) = combine cs (seq 0 (length cs))
        /\ p_resolved (p_run_due fuel t s0) = true
        /\ queue (p_timers (p_run_due fuel t s0)) = []).
Proof.
  intros Hsize Hfuel.
  destruct (chunk_loop_rest array chunkSize Hsize fuel [] array [] eq_refl Hfuel)
    as (cs & Hrun & Hcat & _ & Hall & _).
  assert (Hcount : length cs <= length array).
  { rewrite <- Hcat. apply chunks_at_most_elements.
    eapply Forall_impl; [exact Hall|]. simpl. lia. }
  assert (Hchunk : chunk fuel array chunkSize = Some cs) by exact Hrun.
  unfold processInChunks. rewrite Hchunk. cbn [mbind option_bind]. eexists cs, _. split; [reflexivity|].
  split; [reflexivity|].
  destruct cs as [|c cs'].
  - split; [reflexivity|]. split; [reflexivity|]. intros _.
    rewrite p_run_due_idle by reflexivity. split; [reflexivity|]. split; reflexivity.
  - cbn [Performance.processNext p_chunks p_index lookup list_lookup].
    split; [reflexivity|]. split; [reflexivity|]. intros Ht.
    match goal with
    | |- context [Performance.p_run_due delay fuel t ?x] => set (s0 := x)
    end.
    edestruct (p_run_due_rest (c :: cs') t (length cs') 1 s0 fuel)
      as (Hproc & Hres & Hqueue);
      [reflexivity | reflexivity | simpl; lia | reflexivity | cbn; lia
      | cbn in *; nia | simpl in Hcount; lia | ].
    split; [|split; assumption]. rewrite Hproc. subst s0. cbn.
    now rewrite <- seq_shift.
Qed.

End Processing.

(** Five elements in chunks of two, 10 ms apart. *)
Lemma chunks_are_processed_in_order_witness :
  exists cs s0,
    processInChunks 10 6 [1; 2; 3; 4; 5]%Z 2 idle = Some s0
    /\ (length cs * Z.to_nat 10 <= 30 ->
        p_processed (p_run_due 10 6 30 s0) = combine cs (seq 0 (length cs))).
Proof.
  destruct (chunks_are_processed_in_order 10 [1; 2; 3; 4; 5]%Z 2 6 30)
    as (cs & s0 & _ & Hcall & _ & _ & Hrun).
  - lia.
  - simpl. lia.
  - exists cs, s0. split; [exact Hcall|]. intros Ht. now apply Hrun.
Defined.

Example process_five_in_twos :
  (fun s => (p_processed s, p_resolved s)) <$>
    (p_run_due 10 6 30 <$> processInChunks 10 6 [1; 2; 3; 4; 5]%Z 2 idle)
  = Some ([([1; 2]%Z, 0); ([3; 4]%Z, 1); ([5]%Z, 2)], true).
Proof. reflexivity. Qed.

End PerformanceFacts.

(** ** ConfigBuilder and the provider *)

Module BuilderFacts.
Import Config Builder.

(** *** Reading after writing *)

Lemma prop_put_same k x c c' : put k x c = Some c' -> prop k c' = x.
Proof.
  destruct c; try discriminate. intros [= <-]. simpl.
  now rewrite ConfigFacts.get_set_same.
Qed.

Lemma prop_put_other k k' x c c' :
  k <> k' -> put k' x c = Some c' -> prop k c' = prop k c.
Proof.
  intros Hne. destruct c; try discriminate. intros [= <-]. simpl.
  now rewrite ConfigFacts.get_set_other.
Qed.

Lemma put_object k x c c' : put k x c = Some c' -> isObject c = true /\ isObject c' = true.
Proof. destruct c; try discriminate. intros [= <-]. auto. Qed.

Lemma put_is_Some k x c : isObject c = true -> is_Some (put k x c).
Proof. destruct c; try discriminate. eauto. Qed.

Lemma prop_or_empty k v : prop k (or_empty v) = prop k v.
Proof.
  unfold or_empty. destruct (truthy v) eqn:Ht; [reflexivity|].
  now destruct v.
Qed.

Lemma ensure_same k c c' : ensure k c = Some c' -> prop k c' = or_empty (prop k c).
Proof. apply prop_put_same. Qed.

Lemma ensure_other k k' c c' :
  k <> k' -> ensure k' c = Some c' -> prop k c' = prop k c.
Proof. intros Hne. now apply prop_put_other. Qed.

Lemma within_same k f c c' :
  within k f c = Some c' -> f (prop k c) = Some (prop k c').
Proof.
  unfold within. destruct (f (prop k c)) as [x|]; [|discriminate]. simpl.
  intros Hput. now rewrite (prop_put_same _ _ _ _ Hput).
Qed.

Lemma within_other k k' f c c' :
  k <> k' -> within k' f c = Some c' -> prop k c' = prop k c.
Proof.
  intros Hne. unfold within. destruct (f (prop k' c)) as [x|]; [|discriminate].
  simpl. now apply prop_put_other.
Qed.

(** *** [angular.extend] *)

Lemma assign_get k dst p :
  k <> protoKey ->
  get k (assign dst p) = if key_eqb k (fst p) then Some (snd p) else get k dst.
Proof.
  intros Hproto. unfold assign. destruct p as [k' v]. simpl.
  destruct (ConfigFacts.key_eqb_spec k' protoKey) as [->|Hk'].
  - now rewrite ConfigFacts.key_eqb_neq.
  - destruct (ConfigFacts.key_eqb_spec k k') as [->|Hne].
    + apply ConfigFacts.get_set_same.
    + now apply ConfigFacts.get_set_other.
Qed.

Lemma fold_assign_get k sps : forall dst,
  k <> protoKey -> NoDup (keys sps) ->
  get k (fold_left assign sps dst)
  = match get k sps with Some v => Some v | None => get k dst end.
Proof.
  induction sps as [|[k' v] rest IH]; intros dst Hproto Hnd; [reflexivity|].
  cbn [fold_left]. simpl in Hnd. apply NoDup_cons in Hnd as [Hnotin Hnd].
  rewrite IH by assumption. simpl.
  destruct (ConfigFacts.key_eqb_spec k k') as [->|Hne].
  - rewrite ConfigFacts.get_None_notin by assumption.
    rewrite assign_get by assumption. simpl. now rewrite ConfigFacts.key_eqb_refl.
  - destruct (get k rest); [reflexivity|].
    rewrite assign_get by assumption. simpl.
    now rewrite ConfigFacts.key_eqb_neq.
Qed.





(** The name among the options wins over the argument. *)
Example addSeries_name_option :
  prop "name"
    (series_entry (VStr "a") (array [VNum 1])
       (VObj false [(KName "name", VStr "b"); (KName "color", VStr "red")]))
  = VStr "b".
Proof. reflexivity. Qed.

(** *** addSeries *)

Lemma array_length_index_from m l :
  array_length (index_from m l) = match l with [] => 0 | _ => m + length l end.
Proof.
  revert m. induction l as [|x l IH]; intros m; [reflexivity|].
  cbn [index_from array_length]. rewrite IH. destruct l; simpl; lia.
Qed.

Lemma push_array x l : push x (array l) = Some (array (l ++ [x])).
Proof.
  unfold push, array. rewrite array_length_index_from.
  replace (match l with [] => 0 | _ :: _ => 0 + length l end) with (0 + length l)
    by now destruct l.
  now rewrite ConfigFacts.set_index_from_end.
Qed.

Lemma addSeries_array a ps l name points options :
  prop "series" (VObj a ps) = array l
  \/ (l = [] /\ truthy (prop "series" (VObj a ps)) = false) ->
  exists ps',
    addSeries name points options {| config := VObj a ps |}
    = Some {| config := VObj a ps' |}
    /\ prop "series" (VObj a ps') = array (l ++ [series_entry name points options])
    /\ forall k, k <> KName "series" -> prop k (VObj a ps') = prop k (VObj a ps).
Proof.
  intros Hseries. unfold addSeries, changes. cbn [config].
  assert (Hor : or_empty_array (prop "series" (VObj a ps)) = array l).
  { unfold or_empty_array. destruct Hseries as [->|[-> ->]]; reflexivity. }
  rewrite Hor. cbn [put mbind option_bind]. unfold within.
  cbn [prop]. rewrite ConfigFacts.get_set_same, push_array.
  cbn [mbind option_bind put]. eexists. split; [reflexivity|]. split.
  - cbn [prop]. now rewrite ConfigFacts.get_set_same.
  - intros k Hk. cbn [prop]. now rewrite !ConfigFacts.get_set_other.
Qed.

Lemma chain_cons m methods b :
  chain (m :: methods) b = m b ≫= chain methods.
Proof.
  unfold chain. cbn [fold_left mbind option_bind].
  destruct (m b) as [b'|]; [reflexivity|].
  cbn. induction methods as [|m' methods IH]; [reflexivity|exact IH].
Qed.

Lemma add_all (calls : list series_call) : forall a ps l,
  prop "series" (VObj a ps) = array l
  \/ (l = [] /\ truthy (prop "series" (VObj a ps)) = false) ->
  calls <> [] ->
  exists ps',
    chain (map add calls) {| config := VObj a ps |} = Some {| config := VObj a ps' |}
    /\ prop "series" (VObj a ps') = array (l ++ map entry_of calls)
    /\ forall k, k <> KName "series" -> prop k (VObj a ps') = prop k (VObj a ps).
Proof.
  induction calls as [|call calls IH]; intros a ps l Hseries Hcalls; [congruence|].
  destruct (addSeries_array a ps l call.1.1 call.1.2 call.2 Hseries)
    as (ps1 & Hadd & Hs1 & Hframe1).
  cbn [map]. rewrite chain_cons.
  change (add call {| config := VObj a ps |})
    with (addSeries call.1.1 call.1.2 call.2 {| config := VObj a ps |}).
  rewrite Hadd.
  cbn [mbind option_bind].
  destruct calls as [|call' calls'].
  - exists ps1. split; [reflexivity|]. split; [exact Hs1|exact Hframe1].
  - destruct (IH a ps1 (l ++ [entry_of call]) (or_introl Hs1) ltac:(discriminate))
      as (ps' & Hchain & Hs' & Hframe').
    exists ps'. split; [exact Hchain|]. split.
    + rewrite Hs', <- app_assoc. reflexivity.
    + intros k Hk. now rewrite Hframe', Hframe1.
Qed.

(** X11.  [addSeries] adds one series at the end of [config.series]: the
    series that were there keep their places and every other field of the
    configuration stays as it is.  A chain of calls on a new builder leaves
    the series of the calls, in the order of the calls.  When
    [config.series] holds a value that is neither falsy nor an array, the
    call throws.  (The array of the series is held by no other field.) *)
Theorem addSeries_appends_in_order :
  (forall a ps l name points options,
      prop "series" (VObj a ps) = array l ->
      exists ps',
        addSeries name points options {| config := VObj a ps |}
        = Some {| config := VObj a ps' |}
        /\ prop "series" (VObj a ps') = array (l ++ [series_entry name points options])
        /\ forall k, k <> KName "series" -> prop k (VObj a ps') = prop k (VObj a ps))
  /\ (forall (first : series_call) (rest : list series_call),
      exists b,
        chain (map add (first :: rest)) create = Some b
        /\ prop "series" (config b) = array (map entry_of (first :: rest)))
  /\ (forall a ps name points options,
      truthy (prop "series" (VObj a ps)) = true ->
      (forall l, prop "series" (VObj a ps) <> VObj true l) ->
      addSeries name points options {| config := VObj a ps |} = None).
Proof.
  split; [|split].
  - intros a ps l name points options Hs. apply addSeries_array. now left.
  - intros first rest.
    destruct (add_all (first :: rest) false [] [])
      as (ps' & Hchain & Hs & _); [now right|discriminate|].
    exists {| config := VObj false ps' |}. split; [exact Hchain|exact Hs].
  - intros a ps name points options Htruthy Hnot.
    unfold addSeries, changes. cbn [config]. unfold or_empty_array.
    rewrite Htruthy. cbn [put mbind option_bind]. unfold within.
    cbn [prop]. rewrite ConfigFacts.get_set_same.
    destruct (get "series" ps) as [v|] eqn:Hget; cbn [prop] in *;
      rewrite Hget in *; [|discriminate].
    destruct v as [| | | | | |[] l]; try reflexivity.
    now specialize (Hnot l).
Qed.

Lemma addSeries_appends_in_order_witness :
  exists ps',
    addSeries (VStr "b") (array [VNum 2]) VUndefined
      {| config := VObj false [(KName "series", array [VStr "a"])] |}
    = Some {| config := VObj false ps' |}
    /\ prop "series" (VObj false ps')
       = array ([VStr "a"] ++ [series_entry (VStr "b") (array [VNum 2]) VUndefined]).
Proof.
  destruct (proj1 addSeries_appends_in_order false
              [(KName "series", array [VStr "a"])] [VStr "a"]
              (VStr "b") (array [VNum 2]) VUndefined eq_refl)
    as (ps' & Hadd & Hs & _).
  exists ps'. split; assumption.
Defined.

(** *** yAxisRange *)

Lemma put_run k x c :
  isObject c = true ->
  exists c', put k x c = Some c' /\ isObject c' = true /\ prop k c' = x.
Proof.
  destruct c; try discriminate. intros _. eexists. split; [reflexivity|].
  split; [reflexivity|]. simpl. now rewrite ConfigFacts.get_set_same.
Qed.

Lemma within_run k f c x :
  isObject c = true -> f (prop k c) = Some x ->
  exists c', within k f c = Some c' /\ isObject c' = true /\ prop k c' = x.
Proof.
  intros Hobj Hf. unfold within. rewrite Hf. cbn [mbind option_bind].
  now apply put_run.
Qed.

Lemma when_put_same b k x c c' :
  when b (put k x) c = Some c' -> prop k c' = if b then x else prop k c.
Proof.
  destruct b; simpl; [apply prop_put_same|now intros [= <-]].
Qed.

(** X12.  [yAxisRange(min, max)] sets the bounds that are given and leaves
    alone the ones that are [undefined], whatever was set before; the other
    settings of the scale, the other settings of the Y axis (its label, for
    one) and the other fields of the configuration stay as they are.  It
    does not throw on a configuration whose [yAxis] and [yAxis.scale] are
    objects or falsy; it throws when [yAxis] is a text that is not empty, a
    number other than zero or [true].  (The objects of the Y axis and of its
    scale are held in no other place of the configuration.) *)
Theorem yAxisRange_keeps_the_rest (min max : value) (b : ConfigBuilder) :
  let scale c := prop "scale" (prop "yAxis" c) in
  (forall b',
      yAxisRange min max b = Some b' ->
      prop "min" (scale (config b'))
      = (if defined min then min else prop "min" (scale (config b)))
      /\ prop "max" (scale (config b'))
         = (if defined max then max else prop "max" (scale (config b)))
      /\ (forall k, k <> KName "min" -> k <> KName "max" ->
                    prop k (scale (config b')) = prop k (scale (config b)))
      /\ (forall k, k <> KName "scale" ->
                    prop k (prop "yAxis" (config b'))
                    = prop k (prop "yAxis" (config b)))
      /\ (forall k, k <> KName "yAxis" -> prop k (config b') = prop k (config b)))
  /\ (isObject (config b) = true ->
      isObject (or_empty (prop "yAxis" (config b))) = true ->
      isObject (or_empty (scale (config b))) = true ->
      is_Some (yAxisRange min max b))
  /\ (truthy (prop "yAxis" (config b)) = true ->
      is_primitive (prop "yAxis" (config b)) = true ->
      yAxisRange min max b = None).
Proof.
  intros scale. split; [|split].
  - intros b' Hrun. unfold yAxisRange, changes in Hrun.
    destruct (ensure "yAxis" (config b)) as [c1|] eqn:H1; [|discriminate].
    cbn [mbind option_bind] in Hrun.
    destruct (within "yAxis" (ensure "scale") c1) as [c2|] eqn:H2; [|discriminate].
    cbn [mbind option_bind] in Hrun.
    destruct (when (defined min) _ c2) as [c3|] eqn:H3; [|discriminate].
    cbn [mbind option_bind] in Hrun.
    destruct (when (defined max) _ c3) as [c4|] eqn:H4; [|discriminate].
    injection Hrun as <-. cbn [config].
    assert (Hy1 : forall k, prop k (prop "yAxis" c1) = prop k (prop "yAxis" (config b))).
    { intros k. now rewrite (ensure_same _ _ _ H1), prop_or_empty. }
    assert (Hs2 : forall k, prop k (scale c2) = prop k (scale (config b))).
    { intros k. unfold scale. pose proof (within_same _ _ _ _ H2) as Hw.
      rewrite (ensure_same _ _ _ Hw), prop_or_empty.
      now rewrite (Hy1 (KName "scale")). }
    assert (Hy2 : forall k, k <> KName "scale" ->
                  prop k (prop "yAxis" c2) = prop k (prop "yAxis" (config b))).
    { intros k Hk. pose proof (within_same _ _ _ _ H2) as Hw.
      rewrite (ensure_other _ _ _ _ Hk Hw). apply Hy1. }
    assert (Hstep : forall (d : bool) key x c c',
              when d (within "yAxis" (within "scale" (put key x))) c = Some c' ->
              (forall k, prop k (scale c')
                         = if d && key_eqb k key then x else prop k (scale c))
              /\ (forall k, k <> KName "scale" ->
                            prop k (prop "yAxis" c') = prop k (prop "yAxis" c))
              /\ (forall k, k <> KName "yAxis" -> prop k c' = prop k c)).
    { intros d key x c c' Hw. destruct d; [|injection Hw as <-; auto].
      cbn [when] in Hw. pose proof (within_same _ _ _ _ Hw) as Hin.
      pose proof (within_same _ _ _ _ Hin) as Hput. split; [|split].
      - intros k. unfold scale. cbn [andb].
        destruct (ConfigFacts.key_eqb_spec k key) as [->|Hne].
        + apply (prop_put_same _ _ _ _ Hput).
        + apply (prop_put_other _ _ _ _ _ Hne Hput).
      - intros k Hk. apply (within_other _ _ _ _ _ Hk Hin).
      - intros k Hk. apply (within_other _ _ _ _ _ Hk Hw). }
    destruct (Hstep _ _ _ _ _ H3) as (Hs3 & Hy3 & Hc3).
    destruct (Hstep _ _ _ _ _ H4) as (Hs4 & Hy4 & Hc4).
    split; [|split; [|split; [|split]]].
    + rewrite Hs4, Hs3, Hs2. cbn [key_eqb String.eqb Ascii.eqb Bool.eqb andb].
      rewrite andb_false_r, andb_true_r. reflexivity.
    + rewrite Hs4, Hs3, Hs2. cbn [key_eqb String.eqb Ascii.eqb Bool.eqb andb].
      rewrite andb_false_r, andb_true_r. now destruct (defined max).
    + intros k Hmin Hmax. rewrite Hs4, Hs3, Hs2.
      rewrite !ConfigFacts.key_eqb_neq by assumption.
      now rewrite !andb_false_r.
    + intros k Hk. now rewrite Hy4, Hy3, Hy2.
    + intros k Hk. rewrite Hc4, Hc3 by assumption.
      rewrite (within_other _ _ _ _ _ Hk H2). apply (ensure_other _ _ _ _ Hk H1).
  - intros Hobj Hy Hs. unfold yAxisRange, changes.
    destruct (put_run "yAxis" (or_empty (prop "yAxis" (config b))) _ Hobj)
      as (c1 & H1 & Ho1 & Hy1).
    fold (ensure "yAxis" (config b)) in H1. rewrite H1. cbn [mbind option_bind].
    assert (Hy1' : isObject (prop "yAxis" c1) = true) by now rewrite Hy1.
    destruct (put_run "scale" (or_empty (prop "scale" (prop "yAxis" c1))) _ Hy1')
      as (y2 & Hy2 & Hoy2 & Hs2).
    destruct (within_run "yAxis" (ensure "scale") c1 y2 Ho1 Hy2)
      as (c2 & H2 & Ho2 & Hc2).
    rewrite H2. cbn [mbind option_bind].
    assert (Hdeep : forall (d : bool) key x c,
              isObject c = true -> isObject (prop "yAxis" c) = true ->
              isObject (scale c) = true ->
              exists c',
                when d (within "yAxis" (within "scale" (put key x))) c = Some c'
                /\ isObject c' = true /\ isObject (prop "yAxis" c') = true
                /\ isObject (scale c') = true).
    { intros d key x c Hc Hyc Hsc. destruct d; [|exists c; auto].
      destruct (put_run key x _ Hsc) as (s' & Hput & Hos & _).
      destruct (within_run "scale" (put key x) _ s' Hyc Hput) as (y' & Hin & Hoy & Hys).
      destruct (within_run "yAxis" (within "scale" (put key x)) c y' Hc Hin)
        as (c' & Hw & Hoc & Hcy).
      exists c'. split; [exact Hw|]. split; [exact Hoc|].
      unfold scale. rewrite Hcy. split; [exact Hoy|]. now rewrite Hys. }
    assert (Hscale2 : isObject (scale c2) = true).
    { unfold scale. rewrite Hc2, Hs2, Hy1, prop_or_empty. exact Hs. }
    assert (Hyaxis2 : isObject (prop "yAxis" c2) = true) by now rewrite Hc2.
    destruct (Hdeep (defined min) (KName "min") min c2 Ho2 Hyaxis2 Hscale2)
      as (c3 & H3 & Ho3 & Hy3 & Hs3).
    rewrite H3. cbn [mbind option_bind].
    destruct (Hdeep (defined max) (KName "max") max c3 Ho3 Hy3 Hs3)
      as (c4 & H4 & _).
    rewrite H4. cbn [mbind option_bind]. eauto.
  - intros Htruthy Hprim. unfold yAxisRange, changes.
    destruct (ensure "yAxis" (config b)) as [c1|] eqn:H1; [|reflexivity].
    cbn [mbind option_bind].
    destruct (within "yAxis" (ensure "scale") c1) as [c2|] eqn:H2; [|reflexivity].
    exfalso. apply within_same in H2. rewrite (ensure_same _ _ _ H1) in H2.
    unfold or_empty in H2. rewrite Htruthy in H2.
    apply put_object in H2 as [Hobj _].
    destruct (prop "yAxis" (config b)); discriminate.
Qed.

Lemma yAxisRange_keeps_the_rest_witness :
  exists b b',
    chain [yAxisLabel (VStr "Sales"); yAxisRange (VNum 0) (VNum 100)] create = Some b
    /\ yAxisRange VUndefined (VNum 50) b = Some b'
    /\ prop "min" (prop "scale" (prop "yAxis" (config b')))
       = (if defined VUndefined then VUndefined
          else prop "min" (prop "scale" (prop "yAxis" (config b)))).
Proof.
  eexists _, _. split; [reflexivity|]. split; [reflexivity|].
  refine (proj1 (proj1 (yAxisRange_keeps_the_rest VUndefined (VNum 50) _) _ _)).
  reflexivity.
Defined.

Example yAxisRange_after_label :
  (fun b => prop "yAxis" (config b)) <$>
    chain [yAxisLabel (VStr "Sales"); yAxisRange (VNum 0) (VNum 100);
           yAxisRange VUndefined (VNum 50)] create
  = Some (object [("label", object [("text", VStr "Sales")]);
                  ("scale", object [("min", VNum 0); ("max", VNum 50)])]).
Proof. reflexivity. Qed.

(** *** build *)


Lemma forallb_remove (f : key * value -> bool) k ps :
  forallb f ps = true -> forallb f (remove k ps) = true.
Proof.
  induction ps as [|[k' v] rest IH]; [reflexivity|]. simpl.
  intros [Hf Hrest]%andb_prop. destruct (key_eqb k k'); simpl; auto.
  now rewrite Hf, IH.
Qed.

Lemma remove_removes k ps : k ∉ keys (remove k ps).
Proof.
  induction ps as [|[k' v] rest IH]; simpl; [apply not_elem_of_nil|].
  destruct (ConfigFacts.key_eqb_spec k k') as [->|Hne]; [exact IH|].
  simpl. apply not_elem_of_cons. auto.
Qed.


Lemma keys_remove_subset k k' ps : k ∈ keys (remove k' ps) -> k ∈ keys ps.
Proof.
  induction ps as [|[k0 v] rest IH]; simpl; [auto|].
  destruct (key_eqb k' k0); simpl; rewrite ?elem_of_cons; intuition.
Qed.





(** A series that AngularJS has tagged (an [ng-repeat] over it adds
    [$$hashKey]) is built without the tag. *)
Example build_drops_the_tag :
  build <$> series (array [VObj false [(KName "name", VStr "a");
                                       (hashKey, VStr "object:3")]]) create
  = Some (object [("series", array [object [("name", VStr "a")]])]).
Proof. reflexivity. Qed.

End BuilderFacts.


(** ** The provider's defaults *)

Module ProviderFacts.
Import Config Builder Provider.

Ltac distinct_keys :=
  repeat (apply NoDup_cons_2;
          [rewrite ?elem_of_cons, elem_of_nil; intuition discriminate|]);
  apply NoDup_nil_2.

Lemma get_copy_defaults k d :
  k <> hashKey ->
  get k (remove hashKey (map (fun p => (p.1, copy p.2)) d)) = copy <$> get k d.
Proof.
  intros Hk. rewrite ConfigFacts.get_remove_other by assumption.
  apply ConfigFacts.get_map_copy.
Qed.

Lemma setHashKey_absent ps : hashKey ∉ keys ps -> setHashKey ps (get hashKey ps) = ps.
Proof.
  intros Hn. rewrite ConfigFacts.get_None_notin by assumption. simpl.
  now apply ConfigFacts.remove_absent.
Qed.

(** X14.  [jscConfig.mergeWithDefaults(config)]: the result is a new
    object in which
    - a field that [config] does not have is the default, copied;
    - a field that [config] has with a value that is not an object
      (a number, a text, [null], also [undefined]) is that value, whatever
      the default was;
    - with a [config] that is not an object (left out, for one) every field
      is the default, copied. *)
Theorem configuration_overrides_defaults (d : props_t) (a : bool) (src : props_t)
    (k : key) :
  NoDup (keys src) -> k <> hashKey -> k <> protoKey ->
  (get k src = None ->
   prop k <$> mergeWithDefaults d (VObj a src) = Some (copy (prop k (VObj false d))))
  /\ (forall s, get k src = Some s -> primitive s ->
      prop k <$> mergeWithDefaults d (VObj a src) = Some s)
  /\ (forall cfg, isObject cfg = false ->
      mergeWithDefaults d cfg = Some (copy (VObj false d))).
Proof.
  intros Hnd Hhash Hproto.
  assert (Hrun : mergeWithDefaults d (VObj a src)
                 = Some (VObj false
                           (baseExtend (remove hashKey (map (fun p => (p.1, copy p.2)) d))
                                       (VObj a src)))).
  { unfold mergeWithDefaults. now rewrite ConfigFacts.copy_obj. }
  split; [|split].
  - intros Hnone. rewrite Hrun. cbn [fmap option_fmap option_map prop]. f_equal.
    rewrite ConfigFacts.baseExtend_untouched; auto.
    + rewrite get_copy_defaults by assumption. now destruct (get k d).
    + clear -Hnone. induction src as [|[k0 v0] rest IH]; [apply not_elem_of_nil|].
      simpl in Hnone. destruct (ConfigFacts.key_eqb_spec k k0); [discriminate|].
      simpl. apply not_elem_of_cons. auto.
  - intros s Hget Hprim. rewrite Hrun. cbn [fmap option_fmap option_map prop].
    rewrite (ConfigFacts.baseExtend_key a src _ k s) by assumption.
    f_equal. unfold merged_prop. destruct s; try reflexivity. discriminate.
  - intros cfg Hcfg. unfold mergeWithDefaults. rewrite ConfigFacts.copy_obj.
    assert (Hset : baseExtend (remove hashKey (map (fun p => (p.1, copy p.2)) d)) cfg
                   = remove hashKey (map (fun p => (p.1, copy p.2)) d)).
    { destruct cfg; try discriminate; cbn [baseExtend];
        apply setHashKey_absent, BuilderFacts.remove_removes. }
    destruct (truthy cfg); [|reflexivity].
    destruct cfg; try discriminate; cbn [merge]; now rewrite ?Hset.
Qed.

Lemma configuration_overrides_defaults_witness :
  prop "debug" <$> mergeWithDefaults initial_defaults
                     (object [("debug", VBool true); ("type", VStr "line")])
  = Some (VBool true).
Proof.
  refine (proj1 (proj2 (configuration_overrides_defaults initial_defaults false
                          [(KName "debug", VBool true); (KName "type", VStr "line")]
                          (KName "debug") _ _ _)) (VBool true) _ _).
  - unfold keys; simpl; distinct_keys.
  - discriminate.
  - discriminate.
  - reflexivity.
  - reflexivity.
Defined.

(** X15.  [setAnimation(animation)] merges one level deep: a setting that
    [animation] has replaces the default animation's, and the settings it
    does not have stay as they were (after [setAnimation({easing: ...})]
    the default [duration] is still 400).  No other default changes. *)
Theorem setAnimation_keeps_the_other_settings (s : settings) (a : bool)
    (ops : props_t) (k : key) :
  NoDup (keys ops) ->
  (forall a' ps, prop "animation" (VObj false (defaults s)) = VObj a' ps ->
                 NoDup (keys ps)) ->
  k <> hashKey -> k <> protoKey ->
  prop k (prop "animation" (VObj false (defaults (setAnimation (VObj a ops) s))))
  = match get k ops with
    | Some v => v
    | None => prop k (prop "animation" (VObj false (defaults s)))
    end
  /\ (forall k', k' <> KName "animation" ->
        prop k' (VObj false (defaults (setAnimation (VObj a ops) s)))
        = prop k' (VObj false (defaults s))).
Proof.
  intros Hnd Hold Hhash Hproto. unfold setAnimation, with_defaults. cbn [defaults].
  split.
  - cbn [prop]. rewrite ConfigFacts.get_set_same. cbn [prop].
    fold (prop "animation" (VObj false (defaults s))).
    unfold shallow. cbn [fold_left assign_all].
    rewrite ConfigFacts.get_setHashKey_other by assumption.
    rewrite BuilderFacts.fold_assign_get by assumption.
    destruct (get k ops); [reflexivity|].
    destruct (prop "animation" (VObj false (defaults s))) as [| | | | | |a' ps] eqn:Hanim;
      try reflexivity.
    cbn [assign_all prop].
    rewrite BuilderFacts.fold_assign_get by eauto. now destruct (get k ps).
  - intros k' Hk'. cbn [prop]. now rewrite ConfigFacts.get_set_other.
Qed.

Lemma setAnimation_keeps_the_other_settings_witness :
  prop "duration"
    (prop "animation"
       (VObj false (defaults (setAnimation (object [("easing", VStr "linear")]) initial))))
  = match get "duration" [(KName "easing", VStr "linear")] with
    | Some v => v
    | None => prop "duration" (prop "animation" (VObj false (defaults initial)))
    end.
Proof.
  refine (proj1 (setAnimation_keeps_the_other_settings initial false
                   [(KName "easing", VStr "linear")] (KName "duration") _ _ _ _)).
  - unfold keys; simpl; distinct_keys.
  - intros a' ps [= <- <-]. unfold keys; simpl; distinct_keys.
  - discriminate.
  - discriminate.
Defined.

Example setAnimation_keeps_duration :
  prop "animation"
    (getDefaults (setAnimation (object [("easing", VStr "linear")]) initial))
  = object [("duration", VNum 400); ("easing", VStr "linear")].
Proof. reflexivity. Qed.

End ProviderFacts.


(** ** The registry of jscChartFactory *)

Module RegistryFacts.
Import Fingerprint Scheduler Lifecycle Registry.

Section Factory.

Variable destroy_throws : handle -> bool.

#[local] Abbreviation factory_destroy := (Lifecycle.factory_destroy destroy_throws).
#[local] Abbreviation destroyAll := (Registry.destroyAll destroy_throws).

Lemma destroy_by_id id e w :
  instances (fac w) !! id = Some e -> id <> "" ->
  fst (factory_destroy (ById id) w) = true
  /\ instances (fac (snd (factory_destroy (ById id) w))) = delete id (instances (fac w))
  /\ engine (snd (factory_destroy (ById id) w)) = engine w ++ [Destroyed (e_chart e)]
  /\ vars (snd (factory_destroy (ById id) w)) = vars w.
Proof.
  intros He Hid. unfold Lifecycle.factory_destroy. rewrite He.
  destruct (String.eqb_spec id ""); [congruence|].
  destruct (destroy_throws (e_chart e)); cbn; rewrite He;
    rewrite bool_decide_eq_true_2 by eauto; cbn; auto.
Qed.


Lemma destroy_by_unknown_id id w :
  instances (fac w) !! id = None -> factory_destroy (ById id) w = (false, w).
Proof. intros He. unfold Lifecycle.factory_destroy. now rewrite He. Qed.

Lemma destroyAll_deletes ids : forall w,
  NoDup ids -> "" ∉ ids ->
  (forall id, id ∈ ids -> is_Some (instances (fac w) !! id)) ->
  (forall id, instances (fac (destroyAll ids w)) !! id
              = if bool_decide (id ∈ ids) then None else instances (fac w) !! id)
  /\ engine (destroyAll ids w)
     = engine w
       ++ omap (fun id => Destroyed ∘ e_chart <$> instances (fac w) !! id) ids
  /\ vars (destroyAll ids w) = vars w.
Proof.
  induction ids as [|id ids IH]; intros w Hnd Hempty Hall.
  - cbn. split; [|split]; [|now rewrite app_nil_r|reflexivity].
    intros id. rewrite bool_decide_eq_false_2; [reflexivity|apply not_elem_of_nil].
  - apply NoDup_cons in Hnd as [Hnotin Hnd].
    apply not_elem_of_cons in Hempty as [Hid Hempty].
    destruct (Hall id) as [e He]; [now left|].
    destruct (destroy_by_id id e w He ltac:(congruence)) as (_ & Hinst & Heng & Hvars).
    unfold Registry.destroyAll. cbn [fold_left].
    fold (destroyAll ids (snd (factory_destroy (ById id) w))).
    set (w1 := snd (factory_destroy (ById id) w)) in *.
    assert (Hkeep : forall id', id' ∈ ids ->
              instances (fac w1) !! id' = instances (fac w) !! id').
    { intros id' Hin. rewrite Hinst, lookup_delete_ne; [reflexivity|].
      intros ->. contradiction. }
    destruct (IH w1 Hnd Hempty) as (Hlook & Hengine & Hv).
    { intros id' Hin. rewrite Hkeep by assumption. apply Hall. now right. }
    split; [|split].
    + intros id'. rewrite Hlook.
      destruct (decide (id' = id)) as [->|Hne].
      * rewrite (bool_decide_eq_true_2 (id ∈ id :: ids)) by now left.
        rewrite Hinst, lookup_delete_eq. now destruct (bool_decide _).
      * destruct (decide (id' ∈ ids)) as [Hin|Hnin].
        -- rewrite !bool_decide_eq_true_2; [reflexivity|now right|assumption].
        -- rewrite !bool_decide_eq_false_2;
             [|rewrite elem_of_cons; intuition|assumption].
           now rewrite Hinst, lookup_delete_ne.
    + rewrite Hengine, Heng, <- app_assoc. f_equal. cbn [omap list_omap].
      rewrite He. cbn. f_equal.
      clear -Hkeep. induction ids as [|id' ids IHids]; [reflexivity|].
      cbn [omap list_omap]. rewrite Hkeep by now left.
      rewrite IHids; [reflexivity|]. intros i Hi. apply Hkeep. now right.
    + now rewrite Hv.
Qed.

(** X16.  [jscChartFactory.destroyAll()]: [destroy] is called once on the
    chart of every entry of the registry, in the order of [Object.keys],
    whether or not a chart's [destroy] throws, and the registry is empty
    afterwards: [getCount()] is 0 and [get] finds no chart. *)
Theorem destroyAll_empties_the_registry (ids : list string) (w : world) :
  enumerates ids w -> "" ∉ ids ->
  instances (fac (destroyAll ids w)) = ∅
  /\ getCount (destroyAll ids w) = 0
  /\ (forall id, get id (destroyAll ids w) = None)
  /\ engine (destroyAll ids w)
     = engine w
       ++ omap (fun id => Destroyed ∘ e_chart <$> instances (fac w) !! id) ids.
Proof.
  intros [Hnd Hkeys] Hempty.
  destruct (destroyAll_deletes ids w Hnd Hempty) as (Hlook & Hengine & _).
  { intros id Hin. now apply Hkeys. }
  assert (Hnone : instances (fac (destroyAll ids w)) = ∅).
  { apply map_empty. intros id. rewrite Hlook.
    destruct (bool_decide (id ∈ ids)) eqn:Hin; [reflexivity|].
    apply bool_decide_eq_false in Hin. rewrite Hkeys in Hin.
    now apply eq_None_not_Some. }
  split; [exact Hnone|]. split; [|split; [|exact Hengine]].
  - unfold getCount. rewrite Hnone. apply map_size_empty.
  - intros id. unfold get. now rewrite Hnone, lookup_empty.
Qed.


End Factory.

Lemma two_charts_enumerated : enumerates ["chartA"; "chartB"] two_charts.
Proof.
  split.
  - repeat (apply NoDup_cons_2;
            [rewrite ?elem_of_cons, elem_of_nil; intuition discriminate|]).
    apply NoDup_nil_2.
  - intros id.
    change (instances (fac two_charts))
      with (<["chartA" := {| e_chart := 7; e_id := "chartA"; e_created := 10 |}]>
              (<["chartB" := {| e_chart := 8; e_id := "chartB"; e_created := 20 |}]>
                 (∅ : gmap string entry))).
    split.
    + rewrite !elem_of_cons, elem_of_nil. intros [->|[->|[]]].
      * rewrite lookup_insert_eq. eauto.
      * rewrite lookup_insert_ne by discriminate. rewrite lookup_insert_eq. eauto.
    + intros [e He].
      destruct (decide (id = "chartA")) as [->|HA]; [now left|].
      destruct (decide (id = "chartB")) as [->|HB]; [right; now left|].
      rewrite !lookup_insert_ne, lookup_empty in He by congruence. discriminate.
Qed.

Lemma destroyAll_empties_the_registry_witness :
  getCount (destroyAll calm_destroy ["chartA"; "chartB"] two_charts) = 0
  /\ engine (destroyAll calm_destroy ["chartA"; "chartB"] two_charts)
     = engine two_charts
       ++ omap (fun id => Destroyed ∘ e_chart <$> instances (fac two_charts) !! id)
               ["chartA"; "chartB"].
Proof.
  destruct (destroyAll_empties_the_registry calm_destroy ["chartA"; "chartB"]
              two_charts two_charts_enumerated) as (_ & Hcount & _ & Hengine).
  - rewrite !elem_of_cons, elem_of_nil. intuition discriminate.
  - split; [exact Hcount|exact Hengine].
Defined.

Example destroyAll_two_charts :
  engine (destroyAll calm_destroy ["chartA"; "chartB"] two_charts)
  = [Destroyed 7; Destroyed 8].
Proof. vm_compute. reflexivity. Qed.


End RegistryFacts.


(** ** The calls the directive makes to the engine *)

Module ProtocolFacts.
Import Fingerprint Scheduler Lifecycle Protocol.

Lemma follow_snoc calls c s :
  follow (calls ++ [c]) s = follow calls s ≫= fun s' => accept s' c.
Proof. unfold follow. now rewrite fold_left_app. Qed.

Lemma traced_core w w' : trace_core w' = trace_core w -> traced w -> traced w'.
Proof.
  unfold trace_core. intros [= He Hc Hn] [Hfollow Hchart].
  constructor; rewrite ?He, ?Hc, ?Hn; assumption.
Qed.

Lemma traced_options h u w w' :
  chart (vars w) = Some h -> engine w' = engine w ++ [Options h u] ->
  chart (vars w') = chart (vars w) -> next_handle w' = next_handle w ->
  traced w -> traced w'.
Proof.
  intros Hc He Hc' Hn [(d & Hfollow & Hdead) Hchart].
  constructor; rewrite ?Hc', ?Hn; [|assumption].
  exists d. split; [|assumption].
  rewrite He, follow_snoc, Hfollow. cbn. rewrite Hc.
  now rewrite bool_decide_eq_true_2.
Qed.

Lemma traced_destroyed h w w' :
  chart (vars w) = Some h -> engine w' = engine w ++ [Destroyed h] ->
  chart (vars w') = None -> next_handle w' = next_handle w ->
  traced w -> traced w'.
Proof.
  intros Hc He Hc' Hn [(d & Hfollow & Hdead) Hchart].
  constructor; rewrite ?Hc', ?Hn; [|discriminate].
  exists (h :: d). split; [|constructor; auto].
  rewrite He, follow_snoc, Hfollow. cbn. rewrite Hc.
  now rewrite bool_decide_eq_true_2.
Qed.

Lemma traced_created cfg w w' :
  chart (vars w) = None -> engine w' = engine w ++ [Created (next_handle w) cfg] ->
  chart (vars w') = Some (next_handle w) -> next_handle w' = S (next_handle w) ->
  traced w -> traced w'.
Proof.
  intros Hc He Hc' Hn [(d & Hfollow & Hdead) Hchart].
  constructor; rewrite ?Hc', ?Hn; [|intros h [= <-]; lia].
  exists d. split; [|eapply Forall_impl; [exact Hdead|]; simpl; lia].
  rewrite He, follow_snoc, Hfollow. cbn. rewrite Hc.
  rewrite bool_decide_eq_true_2 by reflexivity.
  rewrite bool_decide_eq_true_2; [reflexivity|].
  intros Hin. rewrite Forall_forall in Hdead. specialize (Hdead _ Hin). lia.
Qed.

Lemma traced_threw cfg w w' :
  chart (vars w) = None -> engine w' = engine w ++ [CreateThrew cfg] ->
  chart (vars w') = None -> next_handle w' = next_handle w ->
  traced w -> traced w'.
Proof.
  intros Hc He Hc' Hn [(d & Hfollow & Hdead) Hchart].
  constructor; rewrite ?Hc', ?Hn; [|discriminate].
  exists d. split; [|assumption].
  rewrite He, follow_snoc, Hfollow. cbn. rewrite Hc.
  now rewrite bool_decide_eq_true_2.
Qed.

(** The chart that a sequence of calls leaves alive is not among the
    charts it destroyed. *)
Lemma follow_alive_not_dead calls s :
  follow calls start = Some s -> forall h, alive s = Some h -> h ∉ dead s.
Proof.
  revert s. induction calls as [|c calls IH] using rev_ind; intros s.
  - intros [= <-] h. discriminate.
  - rewrite follow_snoc. destruct (follow calls start) as [s0|]; [|discriminate].
    specialize (IH s0 eq_refl). cbn.
    destruct c as [h0 cfg|cfg|h0 u|h0]; cbn.
    + destruct (bool_decide (alive s0 = None)); [|discriminate].
      destruct (bool_decide (h0 ∉ dead s0)) eqn:Hd; [|discriminate].
      apply bool_decide_eq_true in Hd. intros [= <-] h [= <-]. exact Hd.
    + destruct (bool_decide _); [|discriminate]. intros [= <-]. exact IH.
    + destruct (bool_decide _); [|discriminate]. intros [= <-]. exact IH.
    + destruct (bool_decide _); [|discriminate]. intros [= <-] h. discriminate.
Qed.

Section Controller.

Variable updateDebounceTime : nat.
Variable options_throws : handle -> update -> bool.
Variable destroy_throws : handle -> bool.

#[local] Abbreviation step := (Lifecycle.step updateDebounceTime options_throws destroy_throws).
#[local] Abbreviation reachable := (Lifecycle.reachable updateDebounceTime options_throws destroy_throws).
#[local] Abbreviation factory_destroy := (Lifecycle.factory_destroy destroy_throws).
#[local] Abbreviation updateChart := (Lifecycle.updateChart options_throws).
#[local] Abbreviation direct_options := (Lifecycle.direct_options options_throws).
#[local] Abbreviation ready := (Lifecycle.ready options_throws).
#[local] Abbreviation perform := (Lifecycle.perform options_throws).
#[local] Abbreviation destroy := (Lifecycle.destroy destroy_throws).
#[local] Abbreviation watch_type := (Lifecycle.watch_type destroy_throws).

Ltac same_trace Hw :=
  match type of Hw with
  | traced ?w0 => apply (traced_core w0); [|exact Hw]
  end;
  unfold trace_core; simpl;
  repeat match goal with
         | |- context [match ?x with _ => _ end] => destruct x eqn:?; simpl
         end; congruence.

Lemma factory_destroy_trace h w :
  engine (snd (factory_destroy (ByChart h) w)) = engine w ++ [Destroyed h]
  /\ vars (snd (factory_destroy (ByChart h) w)) = vars w
  /\ next_handle (snd (factory_destroy (ByChart h) w)) = next_handle w.
Proof.
  unfold Lifecycle.factory_destroy. simpl.
  destruct (angularId (fac w) !! h) as [i|]; simpl;
    destruct (destroy_throws h); simpl; try (repeat split; fail);
    destruct (negb (i =? "")%string && _); repeat split.
Qed.

Lemma traced_updateChart u w : traced w -> traced (updateChart u w).
Proof.
  intros Hw. unfold Lifecycle.updateChart.
  destruct (chart (vars w)) as [h|] eqn:Hc; [|same_trace Hw].
  apply (traced_options h u w); auto; now destruct (options_throws h u).
Qed.

Lemma traced_direct_options h u w :
  chart (vars w) = Some h -> traced w -> traced (direct_options h u w).
Proof.
  intros Hc Hw. apply (traced_options h u w); auto;
    unfold Lifecycle.direct_options; now destruct (options_throws h u).
Qed.

Lemma traced_ready h w : traced w -> traced (ready h w).
Proof.
  intros Hw. unfold Lifecycle.ready.
  destruct (bool_decide _) eqn:Hd; [|assumption].
  apply bool_decide_eq_true in Hd. cbn zeta.
  set (w3 := with_vars (set_initializationInProgress false) _).
  assert (H3 : traced w3) by (subst w3; same_trace Hw).
  set (w4 := if onLoad (sc w3) then _ else w3).
  assert (H4 : traced w4) by (subst w4; destruct (onLoad (sc w3)); [same_trace H3|exact H3]).
  destruct (pendingUpdate (vars w4)) as [u|]; [|exact H4].
  pose proof (traced_updateChart u w4 H4) as H5. same_trace H5.
Qed.

Lemma traced_initChart w : traced w -> traced (initChart w).
Proof. intros Hw. unfold initChart. same_trace Hw. Qed.

Lemma traced_teardown h w :
  chart (vars w) = Some h -> traced w ->
  traced (with_vars (set_chart None) (snd (factory_destroy (ByChart h) w))).
Proof.
  intros Hc Hw. destruct (factory_destroy_trace h w) as (He & Hv & Hn).
  apply (traced_destroyed h w); auto.
Qed.

Lemma traced_perform t w : traced w -> traced (perform t w).
Proof.
  intros Hw. destruct t as [|v|h|h|cb e this|name c ty e]; cbn [Lifecycle.perform].
  - now apply traced_updateChart.
  - unfold apply_series. destruct (chart (vars w)) as [h|] eqn:Hc.
    + now apply traced_direct_options.
    + same_trace Hw.
  - unfold track, defer. same_trace Hw.
  - now apply traced_ready.
  - unfold notify. same_trace Hw.
  - unfold deliver. same_trace Hw.
Qed.

Lemma traced_step i0 w ev : consistent i0 w -> traced w -> traced (step w ev).
Proof.
  intros Hcons Hw.
  destruct ev as [available throws| |h|promise|ms|v|v|v|v|v| |cb e this|name c ty e];
    cbn [Lifecycle.step].
  - destruct (loading w) as [|config rest] eqn:Hl; [assumption|].
    destruct (loading_guard w Hcons) as (Hi & Hc & Hg & Hlen); [rewrite Hl; discriminate|].
    assert (Hw1 : traced (with_loading (fun _ => rest) w)) by same_trace Hw.
    unfold loaded. cbn [element with_loading].
    destruct (element w); [|same_trace Hw].
    unfold createSync. destruct available; cbn [negb].
    + destruct throws.
      * apply (traced_threw config w); auto.
      * apply (traced_created config w); auto.
    + same_trace Hw.
  - destruct (loading w) as [|config rest]; [assumption|].
    unfold load_failed. same_trace Hw.
  - destruct (bool_decide _); [|assumption]. unfold defer. same_trace Hw.
  - destruct (pending promise (timers w)) as [t|]; [|assumption].
    destruct (due t <=? now (timers w))%nat; [|assumption].
    apply traced_perform. same_trace Hw.
  - same_trace Hw.
  - unfold Lifecycle.watch_options, Lifecycle.scheduleUpdate, defer. same_trace Hw.
  - unfold Lifecycle.watch_series, defer. same_trace Hw.
  - assert (Hw1 : traced (with_scope (set_type v) w)) by same_trace Hw.
    unfold Lifecycle.watch_type.
    destruct (_ && _ && _); [|exact Hw1].
    apply traced_initChart.
    destruct (chart (vars (with_scope (set_type v) w))) as [h|] eqn:Hc; [|exact Hw1].
    pose proof (traced_teardown h _ Hc Hw1) as Ht. same_trace Ht.
  - assert (Hw1 : traced (with_scope (set_palette v) w)) by same_trace Hw.
    unfold Lifecycle.watch_palette.
    destruct (chart (vars (with_scope (set_palette v) w))) as [h|] eqn:Hc; [|exact Hw1].
    destruct (negb _); [|exact Hw1]. now apply traced_direct_options.
  - assert (Hw1 : traced (with_scope (set_muted v) w)) by same_trace Hw.
    unfold Lifecycle.watch_muted.
    destruct (chart (vars (with_scope (set_muted v) w))) as [h|] eqn:Hc; [|exact Hw1].
    destruct (negb _); [|exact Hw1]. now apply traced_direct_options.
  - unfold Lifecycle.destroy. cbn zeta.
    set (w1 := with_timers _ w).
    assert (Hw1 : traced w1) by (subst w1; same_trace Hw).
    destruct (chart (vars w1)) as [h|] eqn:Hc.
    + pose proof (traced_teardown h _ Hc Hw1) as Ht. same_trace Ht.
    + same_trace Hw1.
  - destruct (bound (sc w) cb && configured w); [|assumption].
    unfold handler, defer. same_trace Hw.
  - unfold wrapped, defer. same_trace Hw.
Qed.

Lemma reachable_traced s t w : reachable s t w -> traced w.
Proof.
  induction 1 as [|w ev Hreach IH].
  - apply traced_initChart. constructor; [|discriminate].
    exists []. split; [reflexivity|constructor].
  - eapply traced_step; [|exact IH].
    exact (LifecycleFacts.reachable_consistent _ _ _ _ s t w eq_refl Hreach).
Qed.

(** X18.  In every state the controller reaches, the calls it has made to
    the engine are calls a chart engine can take: a chart is created only
    when the one before it has been destroyed, [options] is only called on
    the chart that is alive, [destroy] is called on the chart that is alive
    and never a second time, and no call is made on a chart after its
    [destroy].  The chart left alive by the calls is the one the variable
    [chart] holds. *)
Theorem calls_follow_the_life_of_the_chart s t w :
  reachable s t w ->
  exists d, follow (engine w) start = Some {| alive := chart (vars w); dead := d |}.
Proof.
  intros Hreach. destruct (reachable_traced s t w Hreach) as [(d & Hfollow & _) _].
  now exists d.
Qed.

End Controller.

Lemma calls_follow_the_life_of_the_chart_witness :
  exists d, follow (engine before_second_ready) start
            = Some {| alive := chart (vars before_second_ready); dead := d |}.
Proof.
  apply (calls_follow_the_life_of_the_chart 100 calm_options calm_destroy
           sample_scope true).
  apply LifecycleFacts.before_second_ready_reachable.
Defined.

Example calls_of_two_charts :
  engine before_second_ready
  = [Created 0 sample_scope; Destroyed 0;
     Created 1 (set_type (JStr "bar") (set_options new_options sample_scope))]
  /\ follow (engine before_second_ready) start = Some {| alive := Some 1; dead := [0] |}.
Proof. vm_compute. split; reflexivity. Qed.

End ProtocolFacts.


(** ** More of the controller: updates, type changes, the instance binding *)

Module ControllerFacts.
Import Fingerprint Scheduler Lifecycle Protocol.

Section Controller.

Variable updateDebounceTime : nat.
Variable options_throws : handle -> update -> bool.
Variable destroy_throws : handle -> bool.

#[local] Abbreviation step := (Lifecycle.step updateDebounceTime options_throws destroy_throws).
#[local] Abbreviation run := (Lifecycle.run updateDebounceTime options_throws destroy_throws).
#[local] Abbreviation reachable := (Lifecycle.reachable updateDebounceTime options_throws destroy_throws).
#[local] Abbreviation scheduleUpdate := (Lifecycle.scheduleUpdate updateDebounceTime).
#[local] Abbreviation updateChart := (Lifecycle.updateChart options_throws).
#[local] Abbreviation ready := (Lifecycle.ready options_throws).
#[local] Abbreviation perform := (Lifecycle.perform options_throws).

(** *** A change of the options of a chart that is ready *)









(** *** A change of the chart type *)





(** *** The chart the caller's [jsc-instance] holds *)

Lemma instance_bound_core w w' :
  bound_core w' = bound_core w -> instance_bound w -> instance_bound w'.
Proof.
  unfold bound_core, instance_bound. intros [= Hi Hs Hc]. now rewrite Hi, Hs, Hc.
Qed.

Ltac same_bound Hw :=
  match type of Hw with
  | instance_bound ?w0 => apply (instance_bound_core w0); [|exact Hw]
  end;
  unfold bound_core; simpl;
  repeat match goal with
         | |- context [match ?x with _ => _ end] => destruct x eqn:?; simpl
         end; congruence.

Lemma instance_bound_updateChart u w :
  instance_bound w -> instance_bound (updateChart u w).
Proof. intros Hw. unfold Lifecycle.updateChart. same_bound Hw. Qed.

Lemma instance_bound_ready h w : instance_bound w -> instance_bound (ready h w).
Proof.
  intros Hw. unfold Lifecycle.ready.
  destruct (bool_decide _) eqn:Hd; [|assumption].
  apply bool_decide_eq_true in Hd. cbn zeta.
  set (w3 := with_vars (set_initializationInProgress false) _).
  assert (H3 : instance_bound w3) by (intros _; subst w3; cbn; now rewrite Hd).
  set (w4 := if onLoad (sc w3) then _ else w3).
  assert (H4 : instance_bound w4)
    by (subst w4; destruct (onLoad (sc w3)); [same_bound H3|exact H3]).
  destruct (pendingUpdate (vars w4)) as [u|]; [|exact H4].
  pose proof (instance_bound_updateChart u w4 H4) as H5. same_bound H5.
Qed.

Lemma instance_bound_step i0 w ev :
  consistent i0 w -> instance_bound w -> instance_bound (step w ev).
Proof.
  intros Hcons Hw.
  destruct ev as [available throws| |h|promise|ms|v|v|v|v|v| |cb e this|name c ty e];
    cbn [Lifecycle.step].
  - destruct (loading w) as [|config rest] eqn:Hl; [assumption|].
    destruct (loading_guard w Hcons) as (Hi & _); [rewrite Hl; discriminate|].
    intros Hi'. exfalso. revert Hi'. unfold loaded, createSync.
    cbn [element with_loading].
    destruct (element w), available, throws; cbn; congruence.
  - destruct (loading w) as [|config rest]; [assumption|].
    unfold load_failed. same_bound Hw.
  - destruct (bool_decide _); [|assumption]. unfold defer. same_bound Hw.
  - destruct (pending promise (timers w)) as [tm|]; [|assumption].
    destruct (due tm <=? now (timers w))%nat; [|assumption].
    assert (Hw1 : instance_bound (with_timers (cancel promise) w)) by same_bound Hw.
    destruct (run_fn tm) as [|v|h|h|cb e this|name c ty e]; cbn [Lifecycle.perform].
    + now apply instance_bound_updateChart.
    + unfold apply_series, direct_options. same_bound Hw1.
    + unfold track, defer. same_bound Hw1.
    + now apply instance_bound_ready.
    + unfold notify. same_bound Hw1.
    + unfold deliver. same_bound Hw1.
  - same_bound Hw.
  - unfold Lifecycle.watch_options, Lifecycle.scheduleUpdate, defer. same_bound Hw.
  - unfold Lifecycle.watch_series, defer. same_bound Hw.
  - assert (Hw1 : instance_bound (with_scope (set_type v) w)) by same_bound Hw.
    unfold Lifecycle.watch_type.
    destruct (_ && _ && _); [|exact Hw1].
    destruct (chart (vars (with_scope (set_type v) w))) as [h|].
    + intros Hi. exfalso. revert Hi. unfold initChart.
      destruct (LifecycleFacts.factory_destroy_frame destroy_throws (ByChart h)
                  (with_scope (set_type v) w)) as (Hv & _).
      destruct (initializationInProgress _); cbn; congruence.
    + unfold initChart. same_bound Hw1.
  - unfold Lifecycle.watch_palette, direct_options. same_bound Hw.
  - unfold Lifecycle.watch_muted, direct_options. same_bound Hw.
  - intros Hi. exfalso. revert Hi. unfold Lifecycle.destroy. cbn. congruence.
  - destruct (bound (sc w) cb && configured w); [|assumption].
    unfold handler, defer. same_bound Hw.
  - unfold wrapped, defer. same_bound Hw.
Qed.

Lemma reachable_instance_bound s t w : reachable s t w -> instance_bound w.
Proof.
  induction 1 as [|w ev Hreach IH].
  - intros Hi. exfalso. revert Hi. unfold mounted, initChart. cbn. congruence.
  - eapply instance_bound_step; [|exact IH].
    exact (LifecycleFacts.reachable_consistent _ _ _ _ s t w eq_refl Hreach).
Qed.

(** X21.  Whenever the controller is initialised, the caller's
    [jsc-instance] holds the chart of the variable [chart], and for the
    engine that chart is alive: it was created, and it is not among the
    charts destroyed so far. *)
Theorem ready_instance_is_the_live_chart s t w :
  reachable s t w -> isInitialized (vars w) = true ->
  exists h d,
    chartInstance (sc w) = Some h /\ chart (vars w) = Some h
    /\ follow (engine w) start = Some {| alive := Some h; dead := d |}
    /\ h ∉ d.
Proof.
  intros Hreach Hi.
  pose proof (LifecycleFacts.reachable_consistent _ _ _ _ s t w eq_refl Hreach) as Hcons.
  destruct (ready_has_chart w Hcons Hi) as [[h Hc] _].
  pose proof (reachable_instance_bound s t w Hreach Hi) as Hb.
  destruct (ProtocolFacts.reachable_traced _ _ _ s t w Hreach) as [(d & Hf & _) _].
  exists h, d. rewrite Hb, Hc in *. repeat split; [exact Hf|].
  exact (ProtocolFacts.follow_alive_not_dead _ _ Hf h eq_refl).
Qed.

End Controller.



Lemma ready_instance_is_the_live_chart_witness :
  exists h d,
    chartInstance (sc sample_ready) = Some h /\ chart (vars sample_ready) = Some h
    /\ follow (engine sample_ready) start = Some {| alive := Some h; dead := d |}
    /\ h ∉ d.
Proof.
  refine (ready_instance_is_the_live_chart 100 calm_options calm_destroy
            sample_scope true sample_ready LifecycleFacts.sample_ready_reachable _).
  vm_compute. reflexivity.
Defined.

(** A change of the options and then of the type, from the sample element:
    the update of the options is never sent to the first chart. *)
Example options_then_type :
  engine (Lifecycle.run 100 calm_options calm_destroy sample_ready
            [OptionsChanged new_options; TypeChanged (JStr "bar"); Elapse 100; Fire 2])
  = [Created 0 sample_scope; Destroyed 0].
Proof. vm_compute. reflexivity. Qed.

End ControllerFacts.
